(** * ZenTao MCP server: a shallow embedding of [src/zentao-mcp-server.js]

    The development follows the source file top-down: JavaScript values and
    the string primitives the server relies on, the configuration loader,
    the token cache, the authenticated request executor, the response
    normalisers and finally the tool handlers.  Theorems about the code come
    after all the definitions. *)

From Stdlib Require Import ZArith Ascii String List Lia Bool.
From stdpp Require Import base strings list gmap pretty.

Local Open Scope Z_scope.
#[local] Set Warnings "-register-all".

(** ** JavaScript values

    Strings are byte strings (an ASCII text is its own UTF-8 encoding);
    numbers are the integer-valued ones (ids, page numbers, limits, HTTP
    status codes).  An object lists its own properties in enumeration
    order, each key once. *)

Inductive value : Type :=
| VUndefined
| VNull
| VBool (b : bool)
| VNum (n : Z)
| VStr (s : string)
| VArr (elems : list value)
| VObj (props : list (string * value)).

(** What a [throw] carries: [new Error(msg)], or a [TypeError]: the one of
    the engine for a property read on [null] or [undefined] (or a call of a
    non-function), and the one with which [fetch] rejects. *)
Inductive exn : Type :=
| JsError (msg : string)
| JsTypeError.

Inductive result (A : Type) : Type :=
| Ok (a : A)
| Raise (e : exn).
Arguments Ok {A} a.
Arguments Raise {A} e.

Definition rbind {A B} (r : result A) (k : A -> result B) : result B :=
  match r with
  | Ok a => k a
  | Raise e => Raise e
  end.

Declare Scope result_scope.
Delimit Scope result_scope with result.
Notation "'let?' x ':=' c 'in' k" := (rbind c (fun x => k))
  (at level 10, x pattern, c at level 100, k at level 200) : result_scope.

(** [array.filter(f)] and [array.find(f)] with a callback that may throw. *)
Fixpoint filterR {A} (f : A -> result bool) (l : list A) : result (list A) :=
  match l with
  | [] => Ok []
  | x :: l' =>
      (let? b := f x in
       let? r := filterR f l' in
       Ok (if b then x :: r else r))%result
  end.

Fixpoint findR {A} (f : A -> result bool) (l : list A) : result (option A) :=
  match l with
  | [] => Ok None
  | x :: l' =>
      (let? b := f x in
       if b then Ok (Some x) else findR f l')%result
  end.

Fixpoint mapR {A B} (f : A -> result B) (l : list A) : result (list B) :=
  match l with
  | [] => Ok []
  | x :: l' =>
      (let? y := f x in
       let? r := mapR f l' in
       Ok (y :: r))%result
  end.

(** *** String primitives *)

Module Str.

Definition is_upper (c : ascii) : bool :=
  let n := nat_of_ascii c in (65 <=? n)%nat && (n <=? 90)%nat.

Definition lower_char (c : ascii) : ascii :=
  if is_upper c then ascii_of_nat (nat_of_ascii c + 32) else c.

(** [s.toLowerCase()], on the ASCII letters. *)
Fixpoint toLowerCase (s : string) : string :=
  match s with
  | EmptyString => EmptyString
  | String c s' => String (lower_char c) (toLowerCase s')
  end.

(** The white space of [\s] and of [trim()] that fits in one byte. *)
Definition is_space (c : ascii) : bool :=
  let n := nat_of_ascii c in
  ((9 <=? n)%nat && (n <=? 13)%nat) || (n =? 32)%nat.

Fixpoint trimStart (s : string) : string :=
  match s with
  | EmptyString => EmptyString
  | String c s' => if is_space c then trimStart s' else s
  end.

Fixpoint trimEnd (s : string) : string :=
  match s with
  | EmptyString => EmptyString
  | String c s' =>
      match trimEnd s' with
      | EmptyString => if is_space c then EmptyString else String c EmptyString
      | r => String c r
      end
  end.

Definition trim (s : string) : string := trimEnd (trimStart s).

Definition startsWith (s p : string) : bool := String.prefix p s.

(** [hay.includes(needle)] *)
Fixpoint includes (hay needle : string) : bool :=
  String.prefix needle hay ||
  match hay with
  | EmptyString => false
  | String _ hay' => includes hay' needle
  end.

Definition eqb (a b : string) : bool := bool_decide (a = b).

Definition is_empty (s : string) : bool :=
  match s with EmptyString => true | _ => false end.

(** [list.join(sep)] *)
Definition join (sep : string) (l : list string) : string :=
  String.concat sep l.

(** [content.split(sep)] on a one-character separator: always at least
    one piece. *)
Fixpoint split (sep : ascii) (s : string) : list string :=
  match s with
  | EmptyString => [EmptyString]
  | String c s' =>
      if Ascii.eqb c sep then EmptyString :: split sep s'
      else match split sep s' with
           | [] => [String c EmptyString]
           | p :: ps => String c p :: ps
           end
  end.

End Str.

(** *** Coercions and property reads *)

(** [Boolean(v)], the test of [if (v)], [!v], [v || w] and [v && w]. *)
Definition truthy (v : value) : bool :=
  match v with
  | VUndefined | VNull => false
  | VBool b => b
  | VNum n => negb (n =? 0)
  | VStr s => negb (Str.is_empty s)
  | VArr _ | VObj _ => true
  end.

(** [v || w] *)
Definition or_else (v w : value) : value := if truthy v then v else w.

Definition nullish (v : value) : bool :=
  match v with
  | VUndefined | VNull => true
  | _ => false
  end.

(** [String(v)] and the interpolation of [v] in a template literal. *)
Fixpoint ToString (v : value) : string :=
  match v with
  | VUndefined => "undefined"
  | VNull => "null"
  | VBool true => "true"
  | VBool false => "false"
  | VNum n => pretty n
  | VStr s => s
  | VArr l =>
      Str.join ","
        (map (fun x => match x with
                       | VUndefined | VNull => EmptyString
                       | _ => ToString x
                       end) l)
  | VObj _ => "[object Object]"
  end.

Definition isArray (v : value) : bool :=
  match v with VArr _ => true | _ => false end.

Fixpoint lookup_prop (k : string) (props : list (string * value)) : option value :=
  match props with
  | [] => None
  | (k', v) :: rest => if Str.eqb k' k then Some v else lookup_prop k rest
  end.

(** The characters of a string as one-character strings, for [s[i]]. *)
Fixpoint chars (s : string) : list value :=
  match s with
  | EmptyString => []
  | String c s' => VStr (String c EmptyString) :: chars s'
  end.

(** Index keys ["0"], ["1"], ... paired with the elements. *)
Definition indexed (l : list value) : list (string * value) :=
  imap (fun i x => (pretty i, x)) l.

(** The own enumerable properties of a value, in the order of
    [Object.entries], [Object.keys] and of a spread [...v]. *)
Definition Object_entries (v : value) : list (string * value) :=
  match v with
  | VObj props => props
  | VArr l => indexed l
  | VStr s => indexed (chars s)
  | _ => []
  end.

(** [v[k]] for a [v] that is neither [null] nor [undefined]: own properties,
    the indices and [length] of arrays and strings. *)
Definition prop (v : value) (k : string) : value :=
  match v with
  | VObj props => default VUndefined (lookup_prop k props)
  | VArr l =>
      if Str.eqb k "length" then VNum (Z.of_nat (length l))
      else default VUndefined (lookup_prop k (indexed l))
  | VStr s =>
      if Str.eqb k "length" then VNum (Z.of_nat (String.length s))
      else default VUndefined (lookup_prop k (indexed (chars s)))
  | _ => VUndefined
  end.

(** [v.k]: a [TypeError] on [null] and [undefined]. *)
Definition get (v : value) (k : string) : result value :=
  if nullish v then Raise JsTypeError else Ok (prop v k).

(** [v?.k] and [v?.[k]] *)
Definition get_opt (v : value) (k : string) : value :=
  if nullish v then VUndefined else prop v k.

(** An object literal assigns its keys in turn: a key already present keeps
    its place and takes the new value. *)
Fixpoint set_prop (k : string) (v : value) (props : list (string * value))
  : list (string * value) :=
  match props with
  | [] => [(k, v)]
  | (k', v') :: rest =>
      if Str.eqb k' k then (k', v) :: rest else (k', v') :: set_prop k v rest
  end.

(** [{ ...base, ...v }] *)
Definition spread_into (base : list (string * value)) (v : value)
  : list (string * value) :=
  fold_left (fun o kv => set_prop kv.1 kv.2 o) (Object_entries v) base.

(** ** Regular expressions

    A backtracking matcher in continuation-passing style, with the priority
    order of the ECMAScript matcher: a greedy quantifier tries one more
    iteration before it tries to stop, a lazy one the other way round, and an
    iteration that consumes nothing is rejected. *)

Module Regex.

Inductive re : Type :=
| Chr (p : ascii -> bool)
| Eps
| Seq (a b : re)
| Opt (a : re)
| Star (greedy : bool) (a : re)
| Group (i : nat) (a : re)
| Eol.

Definition Plus (greedy : bool) (a : re) : re := Seq a (Star greedy a).

Definition captures := gmap nat string.

(** The part of [s] that was consumed to reach its suffix [s']. *)
Definition consumed (s s' : string) : string :=
  String.substring 0 (String.length s - String.length s') s.

Definition shorter (s' s : string) : bool :=
  (String.length s' <? String.length s)%nat.

Section Run.
Context {R : Type}.

(** The iterations of [a*] and [a*?]: [step] matches one [a]; [n] bounds the
    number of iterations, each of which consumes at least one character. *)
Fixpoint star_loop (greedy : bool)
    (step : string -> captures -> (string -> captures -> option R) -> option R)
    (k : string -> captures -> option R)
    (n : nat) (s : string) (caps : captures) {struct n} : option R :=
  let more :=
    match n with
    | O => None
    | S n' =>
        step s caps
          (fun s' caps' =>
             if shorter s' s then star_loop greedy step k n' s' caps' else None)
    end in
  if greedy
  then match more with Some x => Some x | None => k s caps end
  else match k s caps with Some x => Some x | None => more end.

Fixpoint run (r : re) (s : string) (caps : captures)
    (k : string -> captures -> option R) {struct r} : option R :=
  match r with
  | Chr p =>
      match s with
      | String c s' => if p c then k s' caps else None
      | EmptyString => None
      end
  | Eps => k s caps
  | Seq a b => run a s caps (fun s' caps' => run b s' caps' k)
  | Opt a =>
      match run a s caps
              (fun s' caps' => if shorter s' s then k s' caps' else None) with
      | Some x => Some x
      | None => k s caps
      end
  | Star greedy a => star_loop greedy (run a) k (S (String.length s)) s caps
  | Group i a =>
      run a s caps (fun s' caps' => k s' (<[i := consumed s s']> caps'))
  | Eol =>
      match s with
      | EmptyString => k s caps
      | _ => None
      end
  end.
End Run.

(** A literal, matched exactly or (flag [i]) up to ASCII case. *)
Fixpoint lit (ci : bool) (w : string) : re :=
  match w with
  | EmptyString => Eps
  | String c w' =>
      Seq (Chr (fun x => if ci
                         then Ascii.eqb (Str.lower_char x) (Str.lower_char c)
                         else Ascii.eqb x c))
          (lit ci w')
  end.

(** One attempt at the start of [s]: the captures and what is left. *)
Definition match_here (r : re) (s : string) : option (captures * string) :=
  run r s ∅ (fun s' caps => Some (caps, s')).

(** The leftmost match at or after the start of [s]. *)
Fixpoint search (r : re) (s : string) : option (captures * string) :=
  match match_here r s with
  | Some x => Some x
  | None =>
      match s with
      | EmptyString => None
      | String _ s' => search r s'
      end
  end.

Definition is_quote (c : ascii) : bool :=
  Ascii.eqb c "034"%char || Ascii.eqb c "039"%char.

(** [.] without the [s] flag: no line terminator. *)
Definition is_dot (c : ascii) : bool :=
  negb (Ascii.eqb c "010"%char || Ascii.eqb c "013"%char).

Definition is_alpha (c : ascii) : bool :=
  let n := nat_of_ascii c in
  ((65 <=? n)%nat && (n <=? 90)%nat) || ((97 <=? n)%nat && (n <=? 122)%nat).

Definition is_digit (c : ascii) : bool :=
  let n := nat_of_ascii c in (48 <=? n)%nat && (n <=? 57)%nat.

End Regex.

(** ** Configuration: [loadEnvFallback] and the module constants *)

(** The pattern of [envRegex], piece by piece: leading white space; an
    optional [export] followed by white space; the key, a letter or an
    underscore followed by letters, digits and underscores (group 1); the
    sign [=] between optional white space; an optional quote; the value, as
    few characters as possible (group 2, lazy); an optional quote; trailing
    white space up to the end of the line. *)
Definition envRegex : Regex.re :=
  let ws := Regex.Chr Str.is_space in
  let quote := Regex.Chr Regex.is_quote in
  let key_start := Regex.Chr (fun c => Regex.is_alpha c || Ascii.eqb c "_"%char) in
  let key_char :=
    Regex.Chr (fun c => Regex.is_alpha c || Regex.is_digit c || Ascii.eqb c "_"%char) in
  Regex.Seq (Regex.Star true ws)
 (Regex.Seq (Regex.Opt (Regex.Seq (Regex.lit false "export") (Regex.Plus true ws)))
 (Regex.Seq (Regex.Group 1 (Regex.Seq key_start (Regex.Star true key_char)))
 (Regex.Seq (Regex.Star true ws)
 (Regex.Seq (Regex.Chr (Ascii.eqb "="%char))
 (Regex.Seq (Regex.Star true ws)
 (Regex.Seq (Regex.Opt quote)
 (Regex.Seq (Regex.Group 2 (Regex.Star false (Regex.Chr Regex.is_dot)))
 (Regex.Seq (Regex.Opt quote)
 (Regex.Seq (Regex.Star true ws)
            Regex.Eol))))))))).

(** [envRegex.exec(line)]: the pattern is anchored, so the only attempt is at
    the start of the line. *)
Definition envRegex_exec (line : string) : option Regex.captures :=
  Regex.run envRegex line ∅ (fun _ caps => Some caps).

(** [!process.env[key]]: the variable is unset or empty. *)
Definition env_unset (env : gmap string string) (key : string) : bool :=
  match env !! key with
  | None => true
  | Some v => Str.is_empty v
  end.

(** The body of the inner loop, for one line. *)
Definition loadEnvLine (env : gmap string string) (line : string)
  : gmap string string :=
  match envRegex_exec line with
  | None => env
  | Some caps =>
      let key := default "undefined" (caps !! 1%nat) in
      match caps !! 2%nat with
      | Some value =>
          if env_unset env key then <[key := Str.trim value]> env else env
      | None => env
      end
  end.

(** The body of the outer loop, for one candidate file; [fs file] is the
    content of an existing file. *)
Definition loadEnvFile (fs : string -> option string)
    (env : gmap string string) (file : string) : gmap string string :=
  match fs file with
  | None => env
  | Some content => fold_left loadEnvLine (Str.split "010"%char content) env
  end.

Definition path_join (dir name : string) : string := dir +:+ "/" +:+ name.

Definition loadEnvFallback (fs : string -> option string) (cwd homedir : string)
    (env : gmap string string) : gmap string string :=
  let candidates :=
    [ path_join cwd ".env"; path_join homedir ".env"; path_join homedir ".zshrc" ] in
  fold_left (loadEnvFile fs) candidates env.

(** The constants read from the environment once the fallback has run. *)
Record Config : Type := {
  baseUrl : string;
  account : string;
  password : string;
}.

(** [s.replace] of one trailing slash by nothing. *)
Fixpoint strip_trailing_slash (s : string) : string :=
  match s with
  | EmptyString => EmptyString
  | String c EmptyString => if Ascii.eqb c "/"%char then EmptyString else s
  | String c s' => String c (strip_trailing_slash s')
  end.

Definition env_or_empty (env : gmap string string) (key : string) : string :=
  default EmptyString (env !! key).

Definition config_of_env (env : gmap string string) : Config :=
  {| baseUrl := default EmptyString (strip_trailing_slash <$> env !! "ZENTAO_BASE_URL");
     account := env_or_empty env "ZENTAO_ACCOUNT";
     password := env_or_empty env "ZENTAO_PASSWORD" |}.

Definition initial_token (env : gmap string string) : value :=
  VStr (env_or_empty env "ZENTAO_TOKEN").

(** ** The remote service and the process state *)

(** A response: [resp_headers] are the pairs that [res.headers.entries()]
    yields, in its order; a name can repeat there ([set-cookie]). *)
Record Response : Type := {
  status : Z;
  statusText : string;
  body_text : string;
  resp_headers : list (string * string);
}.

(** [res.ok]: the status is in the range 200-299. *)
Definition ok (res : Response) : bool :=
  (200 <=? status res) && (status res <=? 299).

(** What [fetch] and the reading of the body come to: a response, or a
    rejection (a [TypeError]). *)
Inductive fetch_result : Type :=
| Responds (res : Response)
| Rejects.

Record Request : Type := {
  req_url : string;
  req_method : value;
  req_headers : list (string * value);
  req_body : option string;
}.

(** The only mutable state of the module is [cachedToken]; [sent] records
    every request handed to [fetch], oldest first. *)
Record State : Type := {
  cachedToken : value;
  sent : list Request;
}.

(** An [async] function: it reads and writes the state and returns or
    throws. *)
Definition M (A : Type) : Type := State -> result A * State.

Definition ret {A} (a : A) : M A := fun st => (Ok a, st).
Definition throw {A} (e : exn) : M A := fun st => (Raise e, st).
Definition bind {A B} (m : M A) (k : A -> M B) : M B :=
  fun st =>
    match m st with
    | (Ok a, st') => k a st'
    | (Raise e, st') => (Raise e, st')
    end.
Definition lift {A} (r : result A) : M A := fun st => (r, st).

Declare Scope js_scope.
Delimit Scope js_scope with js.
Notation "'let*' x ':=' c 'in' k" := (bind c (fun x => k))
  (at level 10, x pattern, c at level 100, k at level 200) : js_scope.

(** An entry assigned to an object of strings: a name already present
    keeps its place and takes the new value. *)
Fixpoint set_entry (k v : string) (o : list (string * string))
  : list (string * string) :=
  match o with
  | [] => [(k, v)]
  | (k', v') :: rest =>
      if Str.eqb k' k then (k', v) :: rest else (k', v') :: set_entry k v rest
  end.

(** [Object.fromEntries(entries)] *)
Definition Object_fromEntries (entries : list (string * string))
  : list (string * string) :=
  fold_left (fun o kv => set_entry kv.1 kv.2 o) entries [].

(** The envelope [callZenTao] returns. *)
Record Envelope : Type := {
  env_status : Z;
  env_headers : list (string * string);
  env_data : value;
}.

Definition Envelope_value (e : Envelope) : value :=
  VObj [ ("status", VNum (env_status e));
         ("headers", VObj (map (fun kv => (kv.1, VStr kv.2)) (env_headers e)));
         ("data", env_data e) ].

(** The argument of [callZenTao]; a field that the caller leaves out is
    [VUndefined] and takes its default in the function. *)
Record Descriptor : Type := {
  d_path : value;
  d_method : value;
  d_query : value;
  d_body : value;
  d_headers : value;
  d_forceTokenRefresh : value;
}.

Definition default_arg (v dflt : value) : value :=
  match v with VUndefined => dflt | _ => v end.

(** [x.toLowerCase()] is a [TypeError] unless [x] is a string. *)
Definition toLowerCase_of (v : value) : result string :=
  match v with
  | VStr s => Ok (Str.toLowerCase s)
  | _ => Raise JsTypeError
  end.

(** ** URL building *)

Module Url.

Definition hex_digit (n : nat) : ascii :=
  ascii_of_nat (if (n <? 10)%nat then 48 + n else 55 + n).

(** Bytes that the [application/x-www-form-urlencoded] serializer leaves
    as they are: ASCII letters and digits and the four marks [*-._]. *)
Definition unreserved (c : ascii) : bool :=
  Regex.is_alpha c || Regex.is_digit c ||
  Ascii.eqb c "*"%char || Ascii.eqb c "-"%char ||
  Ascii.eqb c "."%char || Ascii.eqb c "_"%char.

Definition encode_byte (c : ascii) : string :=
  if unreserved c then String c EmptyString
  else if Ascii.eqb c " "%char then "+"
  else String "%"%char
         (String (hex_digit (nat_of_ascii c / 16))
            (String (hex_digit (nat_of_ascii c mod 16)) EmptyString)).

Fixpoint encode (s : string) : string :=
  match s with
  | EmptyString => EmptyString
  | String c s' => encode_byte c +:+ encode s'
  end.

(** [usp.toString()] for the pairs appended to [usp], in order. *)
Definition serialize (pairs : list (string * string)) : string :=
  Str.join "&" (map (fun kv => encode kv.1 +:+ "=" +:+ encode kv.2) pairs).

End Url.

Section Server.

(** The constants [baseUrl], [account] and [password]. *)
Variable cfg : Config.

(** [JSON.parse] ([None] when it throws), [JSON.stringify(v)] and
    [JSON.stringify(v, null, 2)]. *)
Variable JSON_parse : string -> option value.
Variable JSON_stringify : value -> string.
Variable JSON_stringify_indent : value -> string.

(** What the network answers to the [i]-th request of the process. *)
Variable remote : nat -> Request -> fetch_result.

(** The state once [req] has been handed to [fetch]. *)
Definition with_request (st : State) (req : Request) : State :=
  {| cachedToken := cachedToken st; sent := sent st ++ [req] |}.

(** [await fetch(url, init)] *)
Definition fetch (req : Request) : M Response :=
  fun st =>
    match remote (length (sent st)) req with
    | Responds res => (Ok res, with_request st req)
    | Rejects => (Raise JsTypeError, with_request st req)
    end.

Definition read_cachedToken : M value := fun st => (Ok (cachedToken st), st).
Definition write_cachedToken (v : value) : M unit :=
  fun st => (Ok tt, {| cachedToken := v; sent := sent st |}).

Definition assertConfig : result unit :=
  if Str.is_empty (baseUrl cfg) then Raise (JsError "Missing ZENTAO_BASE_URL")
  else if Str.is_empty (account cfg) then Raise (JsError "Missing ZENTAO_ACCOUNT")
  else if Str.is_empty (password cfg) then Raise (JsError "Missing ZENTAO_PASSWORD")
  else Ok tt.

Definition safeJson (text : string) : value :=
  match JSON_parse text with
  | Some v => v
  | None => VNull
  end.

(** The request of the login exchange. *)
Definition token_request : Request :=
  {| req_url := baseUrl cfg +:+ "/api.php/v1/tokens";
     req_method := VStr "POST";
     req_headers := [("Content-Type", VStr "application/json")];
     req_body :=
       Some (JSON_stringify
               (VObj [ ("account", VStr (account cfg));
                       ("password", VStr (password cfg)) ])) |}.

Definition fetchToken (forceRefresh : value) : M value :=
  (let* cached := read_cachedToken in
   if truthy cached && negb (truthy forceRefresh) then ret cached
   else
     let* _ := lift assertConfig in
     let* res := fetch token_request in
     let text := body_text res in
     if negb (ok res)
     then throw (JsError ("Token request failed: " +:+ pretty (status res)
                            +:+ " " +:+ text))
     else
       let data := safeJson text in
       if negb (truthy (get_opt data "token"))
       then throw (JsError "Token missing in response")
       else
         let* token := lift (get data "token") in
         let* _ := write_cachedToken token in
         read_cachedToken)%js.

(** [path.replace] of one leading slash by nothing. *)
Definition strip_leading_slash (path : string) : string :=
  match path with
  | String "/" rest => rest
  | _ => path
  end.

(** [buildUrl] on a string [path]. *)
Definition buildUrl_str (path : string) (query : value) : string :=
  let cleaned :=
    if Str.startsWith path "http" then path
    else baseUrl cfg +:+ "/api.php/v1/" +:+ strip_leading_slash path in
  if negb (truthy query) || (length (Object_entries query) =? 0)%nat
  then cleaned
  else
    let usp :=
      fold_left
        (fun usp kv =>
           if nullish kv.2 then usp else usp ++ [(kv.1, ToString kv.2)])
        (Object_entries query) [] in
    cleaned +:+ "?" +:+ Url.serialize usp.

(** [path.startsWith] is a [TypeError] when [path] is not a string. *)
Definition buildUrl (path query : value) : result string :=
  match path with
  | VStr p => Ok (buildUrl_str p query)
  | _ => Raise JsTypeError
  end.

(** The [init] argument of the [fetch] in [callZenTao]: the headers are the
    object literal with [Content-Type], [Token] and then the spread of the
    caller's headers. *)
Definition api_request (d : Descriptor) (token : value) (url : string) : Request :=
  {| req_url := url;
     req_method := default_arg (d_method d) (VStr "GET");
     req_headers :=
       spread_into [ ("Content-Type", VStr "application/json");
                     ("Token", token) ]
                   (default_arg (d_headers d) (VObj []));
     req_body :=
       if truthy (d_body d) then Some (JSON_stringify (d_body d)) else None |}.

(** The message of the error thrown on a response that is not [ok]:
    the status, then [text || res.statusText || "unknown"]. *)
Definition request_failed (res : Response) : string :=
  "Request failed " +:+ pretty (status res) +:+ ": " +:+
  (if negb (Str.is_empty (body_text res)) then body_text res
   else if negb (Str.is_empty (statusText res)) then statusText res
        else "unknown").

Definition envelope_of (res : Response) : Envelope :=
  let data := safeJson (body_text res) in
  {| env_status := status res;
     env_headers := Object_fromEntries (resp_headers res);
     env_data := if nullish data then VStr (body_text res) else data |}.

Definition callZenTao (d : Descriptor) : M Envelope :=
  (let forceTokenRefresh := default_arg (d_forceTokenRefresh d) (VBool false) in
   let* _ := lift assertConfig in
   let* token := fetchToken forceTokenRefresh in
   let* url := lift (buildUrl (d_path d) (d_query d)) in
   let* res := fetch (api_request d token url) in
   if negb (ok res) then throw (JsError (request_failed res))
   else ret (envelope_of res))%js.

(** A descriptor with only [path] and [query], as the helpers build it. *)
Definition get_descriptor (path : string) (query : value) : Descriptor :=
  {| d_path := VStr path; d_method := VUndefined; d_query := query;
     d_body := VUndefined; d_headers := VUndefined;
     d_forceTokenRefresh := VUndefined |}.

(** ** Response normalisers *)

(** The [for] loop of [extractArray]. *)
Fixpoint extractArray_probe (payload : value) (keys : list string)
  : option (list value) :=
  match keys with
  | [] => None
  | key :: keys' =>
      match get_opt payload key with
      | VArr l => Some l
      | _ => extractArray_probe payload keys'
      end
  end.

Definition extractArray (payload : value) (keys : list string) : list value :=
  match payload with
  | VArr l => l
  | _ =>
      match extractArray_probe payload keys with
      | Some l => l
      | None =>
          match get_opt payload "data" with
          | VArr l => l
          | _ => []
          end
      end
  end.

Definition normalizeAccount (v : value) : list string :=
  let values :=
    if negb (truthy v) then []
    else match v with
         | VStr _ | VNum _ => [ToString v]
         | VObj _ | VArr _ =>
             let candidates :=
               map (prop v)
                 ["account"; "name"; "realname"; "realName"; "username";
                  "user"; "id"] in
             map ToString (filter (fun c => negb (nullish c)) candidates)
         | _ => []
         end in
  filter (fun s => negb (Str.is_empty s) && negb (Str.eqb s "[object object]"))
    (map (fun s => Str.toLowerCase (Str.trim s)) values).

(** The pattern of [parseImageSources], flags [g] and [i]: the text [<img],
    one or more characters other than [>], the text [src=], an optional
    quote, the source (group 1: one or more characters that are neither a
    quote, [>] nor white space), an optional quote, characters other than
    [>], and [>]. *)
Definition imgRegex : Regex.re :=
  let not_gt := Regex.Chr (fun c => negb (Ascii.eqb c ">"%char)) in
  let quote := Regex.Chr Regex.is_quote in
  let src_char :=
    Regex.Chr (fun c => negb (Regex.is_quote c || Ascii.eqb c ">"%char
                              || Str.is_space c)) in
  Regex.Seq (Regex.lit true "<img")
 (Regex.Seq (Regex.Plus true not_gt)
 (Regex.Seq (Regex.lit true "src=")
 (Regex.Seq (Regex.Opt quote)
 (Regex.Seq (Regex.Group 1 (Regex.Plus true src_char))
 (Regex.Seq (Regex.Opt quote)
 (Regex.Seq (Regex.Star true not_gt)
            (Regex.Chr (Ascii.eqb ">"%char)))))))).

(** The anchored test for an [http://] or [https://] prefix, flag [i]. *)
Definition httpRegex : Regex.re :=
  Regex.Seq (Regex.lit true "http")
 (Regex.Seq (Regex.Opt (Regex.lit true "s"))
            (Regex.lit true "://")).

(** The [while] loop over [regex.exec(html)]: each round searches from
    where the previous match ended. *)
Fixpoint parseImageSources_loop (fuel : nat) (html : string) (urls : list string)
  : list string :=
  match fuel with
  | O => urls
  | S fuel' =>
      match Regex.search imgRegex html with
      | None => urls
      | Some (caps, rest) =>
          let url := default EmptyString (caps !! 1%nat) in
          parseImageSources_loop fuel' rest
            (if negb (Str.is_empty url) && bool_decide (is_Some (Regex.match_here httpRegex url))
             then urls ++ [url] else urls)
      end
  end.

Definition parseImageSources (html : value) : list string :=
  let text := ToString (default_arg html (VStr EmptyString)) in
  parseImageSources_loop (S (String.length text)) text [].

(** [array.slice(0, limit)] for a number [limit]. *)
Definition slice_to {A} (limit : Z) (l : list A) : list A :=
  if limit <? 0 then take (Z.to_nat (Z.of_nat (length l) + limit)) l
  else take (Z.to_nat limit) l.

Definition listProducts (keyword : value) (limit : Z) : M (list value) :=
  (let* res :=
     callZenTao
       (get_descriptor "products"
          (VObj [("page", VNum 1); ("limit", VNum limit); ("keywords", keyword)])) in
   let products := extractArray (env_data res) ["products"] in
   let* filtered :=
     lift (if truthy keyword
           then filterR
                  (fun p =>
                     let? name := get p "name" in
                     let? kw := toLowerCase_of keyword in
                     Ok (Str.includes
                           (Str.toLowerCase (ToString (or_else name (VStr EmptyString))))
                           kw))%result
                  products
           else Ok products) in
   ret (slice_to limit filtered))%js.

(** The part of [findProductByName] after the candidates are fetched:
    the pair [(product, matches)]. *)
Definition resolveProduct (name : value) (candidates : list value)
  : result (value * list value) :=
  (let? exact :=
     findR (fun p =>
              let? pname := get p "name" in
              let? q := toLowerCase_of name in
              Ok (Str.eqb (Str.toLowerCase (ToString (or_else pname (VStr EmptyString)))) q))
           candidates in
   let exact := default VUndefined exact in
   if truthy exact then Ok (exact, candidates)
   else if (length candidates =? 1)%nat
        then Ok (default VUndefined (head candidates), candidates)
        else Ok (VUndefined, candidates))%result.

Definition findProductByName (name : value) : M (value * list value) :=
  (if negb (truthy name) then throw (JsError "productName is required")
   else
     let* candidates := listProducts name 50 in
     lift (resolveProduct name candidates))%js.

(** The arguments of [fetchBugsByProduct]. *)
Record BugQuery : Type := {
  q_productId : value;
  q_keyword : value;
  q_allStatuses : value;
  q_status : value;
  q_limit : value;
  q_page : value;
}.

(** The callback of [bugs.filter] in [fetchBugsByProduct]. *)
Definition bug_matches (accountLower : string) (keyword allStatuses : value)
    (statusLower : option string) (bug : value) : result bool :=
  (let? a1 := get bug "assignedTo" in
   let? a2 := get bug "assignedToName" in
   let? a3 := get bug "assignedToRealname" in
   let assignedCandidates :=
     normalizeAccount a1 ++ normalizeAccount a2 ++ normalizeAccount a3 in
   let matchAssignee :=
     if negb (Str.is_empty accountLower)
     then bool_decide (accountLower ∈ assignedCandidates)
     else true in
   let? matchKeyword :=
     if truthy keyword
     then
       let? title := get bug "title" in
       let? name := get bug "name" in
       let? kw := toLowerCase_of keyword in
       Ok (Str.includes
             (Str.toLowerCase
                (ToString (or_else title (or_else name (VStr EmptyString))))) kw)
     else Ok true in
   let? matchStatus :=
     if truthy allStatuses then Ok true
     else match statusLower with
          | Some sl =>
              if negb (Str.is_empty sl)
              then
                let? st := get bug "status" in
                let? st2 := get bug "state" in
                Ok (Str.eqb
                      (Str.toLowerCase
                         (Str.trim
                            (ToString (or_else st (or_else st2 (VStr EmptyString))))))
                      sl)
              else Ok true
          | None => Ok true
          end in
   Ok (matchAssignee && matchKeyword && matchStatus))%result.

Definition fetchBugsByProduct (q : BugQuery) : M (list value * value) :=
  (let allStatuses := default_arg (q_allStatuses q) (VBool false) in
   let limit := default_arg (q_limit q) (VNum 20) in
   let page := default_arg (q_page q) (VNum 1) in
   let* res :=
     callZenTao
       (get_descriptor "bugs"
          (VObj [ ("page", page); ("limit", limit);
                  ("product", q_productId q); ("keywords", q_keyword q) ])) in
   let bugs := extractArray (env_data res) ["bugs"] in
   let accountLower := Str.toLowerCase (Str.trim (account cfg)) in
   let statusLower :=
     if truthy (q_status q)
     then Some (Str.toLowerCase (Str.trim (ToString (q_status q))))
     else None in
   let* filtered :=
     lift (filterR (bug_matches accountLower (q_keyword q) allStatuses statusLower)
             bugs) in
   ret (filtered, env_data res))%js.

Definition getBugWithImages (bugId : value) : M value :=
  (let* res := callZenTao (get_descriptor ("bugs/" +:+ ToString bugId) VUndefined) in
   let bug := or_else (env_data res) (VObj []) in
   let stepsHtml :=
     or_else (prop bug "steps") (or_else (prop bug "stepsHtml") (VStr EmptyString)) in
   let stepsImages := parseImageSources stepsHtml in
   ret (VObj (set_prop "stepsImages" (VArr (map VStr stepsImages))
                (set_prop "stepsHtml" stepsHtml (spread_into [] bug)))))%js.

(** ** Tool handlers

    A handler returns the text of its single content item. *)

(** A double quote inside a message. *)
Definition dq : string := String "034"%char EmptyString.

(** [account || "me"] *)
Definition account_or_me : string :=
  if negb (Str.is_empty (account cfg)) then account cfg else "me".

Definition tool_get_token (forceRefresh : value) : M string :=
  (let* token := fetchToken (VBool (truthy forceRefresh)) in
   ret ("token=" +:+ ToString token))%js.

Definition tool_call (path method query body forceTokenRefresh : value) : M string :=
  (if negb (truthy path) then throw (JsError "path is required")
   else
     let* response :=
       callZenTao {| d_path := path;
                     d_method := default_arg method (VStr "GET");
                     d_query := query;
                     d_body := body;
                     d_headers := VUndefined;
                     d_forceTokenRefresh :=
                       default_arg forceTokenRefresh (VBool false) |} in
     ret (JSON_stringify_indent (Envelope_value response)))%js.

(** The error of [getMyBug] when [findProductByName] found no product. *)
Definition product_not_resolved (productName : value) (matches : list value) : result exn :=
  (let? names :=
     mapR (fun p =>
             let? id := get p "id" in
             let? name := get p "name" in
             Ok (ToString id +:+ ":" +:+ ToString name)) matches in
   Ok (JsError
         (if (length matches =? 0)%nat
          then "No product matched " +:+ dq +:+ ToString productName +:+ dq
          else "Multiple products matched " +:+ dq +:+ ToString productName +:+ dq
               +:+ ", please specify one of: " +:+ Str.join ", " names)))%result.

Definition tool_getMyBug (productName keyword status allStatuses : value) : M string :=
  (let allStatuses := default_arg allStatuses (VBool false) in
   let* found := findProductByName productName in
   let product := found.1 in
   let matches := found.2 in
   if negb (truthy product)
   then
     let* e := lift (product_not_resolved productName matches) in
     throw e
   else
     let* pid := lift (get product "id") in
     let* fetched :=
       fetchBugsByProduct
         {| q_productId := pid; q_keyword := keyword;
            q_allStatuses := allStatuses; q_status := status;
            q_limit := VNum 1; q_page := VUndefined |} in
     match fetched.1 with
     | [] =>
         let* pname := lift (get product "name") in
         ret ("No active bugs assigned to " +:+ account_or_me +:+ " in product "
                +:+ dq +:+ ToString pname +:+ dq)
     | bug0 :: _ =>
         let* id := lift (get bug0 "id") in
         let* bugId := lift (get bug0 "bugId") in
         let* bugDetail := getBugWithImages (or_else id bugId) in
         let* pname := lift (get product "name") in
         ret (JSON_stringify_indent
                (VObj [ ("product", VObj [("id", pid); ("name", pname)]);
                        ("bug", bugDetail) ]))
     end)%js.

Definition tool_getMyBugs (productId keyword status allStatuses limit : value) : M string :=
  (let* fetched :=
     fetchBugsByProduct
       {| q_productId := productId; q_keyword := keyword;
          q_allStatuses := default_arg allStatuses (VBool false);
          q_status := status;
          q_limit := default_arg limit (VNum 20); q_page := VUndefined |} in
   let bugs := fetched.1 in
   let raw := fetched.2 in
   ret (JSON_stringify_indent (VObj [("bugs", VArr bugs); ("raw", raw)])))%js.

(** The query of [getNextBug] for one page. *)
Definition page_query (productId keyword status : value) (page : Z) : BugQuery :=
  {| q_productId := productId; q_keyword := keyword;
     q_allStatuses := VUndefined; q_status := status;
     q_limit := VNum 20; q_page := VNum page |}.

(** The detail of the first bug of a page, as [getNextBug] returns it. *)
Definition bug_detail_text (bug : value) : M string :=
  (let* id := lift (get bug "id") in
   let* bugId := lift (get bug "bugId") in
   let* bugDetail := getBugWithImages (or_else id bugId) in
   ret (JSON_stringify_indent (VObj [("bug", bugDetail)])))%js.

(** The text returned when no page yields a match. *)
Definition not_found_text (productId : value) : string :=
  "No active bugs assigned to " +:+ account_or_me
    +:+ " found under product " +:+ ToString productId.

(** The [while (page <= 10)] loop of [getNextBug]; [None] when the fuel
    runs out before the loop ends. *)
Fixpoint getNextBug_loop (fuel : nat) (productId keyword status : value)
    (page : Z) (st : State) : option (result string * State) :=
  match fuel with
  | O => None
  | S fuel' =>
      if page <=? 10
      then
        match fetchBugsByProduct (page_query productId keyword status page) st with
        | (Raise e, st') => Some (Raise e, st')
        | (Ok (bug0 :: _, _), st') => Some (bug_detail_text bug0 st')
        | (Ok ([], _), st') =>
            getNextBug_loop fuel' productId keyword status (page + 1) st'
        end
      else Some (Ok (not_found_text productId), st)
  end.

Definition tool_getNextBug (fuel : nat) (productId keyword status : value)
    (st : State) : option (result string * State) :=
  getNextBug_loop fuel productId keyword status 1 st.

(** The callback that counts the active bugs in [getBugStats]. *)
Definition is_active (b : value) : result bool :=
  (let? st := get b "status" in
   let? st2 := get b "state" in
   let? lower := toLowerCase_of (or_else st (or_else st2 (VStr EmptyString))) in
   Ok (Str.eqb lower "active"))%result.

Definition tool_getBugStats (productId activeOnly : value) : M string :=
  (let activeOnly := default_arg activeOnly (VBool false) in
   let* fetched :=
     fetchBugsByProduct
       {| q_productId := productId; q_keyword := VUndefined;
          q_allStatuses := VBool (negb (truthy activeOnly));
          q_status := VUndefined;
          q_limit := VNum 200; q_page := VUndefined |} in
   let bugs := fetched.1 in
   let total := length bugs in
   let* actives := lift (filterR is_active bugs) in
   let active := length actives in
   ret (JSON_stringify_indent
          (VObj [ ("productId", productId);
                  ("total", VNum (Z.of_nat total));
                  ("active", VNum (Z.of_nat active)) ])))%js.

End Server.

(** ** The rest of the server: project listing, the remaining tools and the
    resources *)

(** [array.some(f)] with a callback that may throw: it stops at the first
    element for which [f] holds. *)
Fixpoint someR {A} (f : A -> result bool) (l : list A) : result bool :=
  match l with
  | [] => Ok false
  | x :: l' =>
      (let? b := f x in
       if b then Ok true else someR f l')%result
  end.

Section Catalog.

Variable cfg : Config.
Variable JSON_parse : string -> option value.
Variable JSON_stringify : value -> string.
Variable JSON_stringify_indent : value -> string.
Variable remote : nat -> Request -> fetch_result.

(** The text constant [endpointIndex] of the source. *)
Variable endpointIndex : string.

(** The role fields of a project that [listProjectsForAccount] looks at. *)
Definition role_fields : list string :=
  ["PM"; "PO"; "QD"; "RD"; "openedBy"; "lastEditedBy"; "assignedTo"].

(** The callback of [team.some] in [listProjectsForAccount]. *)
Definition member_matches (accountLower : string) (m : value) : result bool :=
  (let? a := get m "account" in
   let? n := get m "name" in
   Ok (Str.eqb
         (Str.toLowerCase (ToString (or_else a (or_else n (VStr EmptyString)))))
         accountLower))%result.

(** The callback of [projects.filter] in [listProjectsForAccount]. *)
Definition project_matches (accountLower : string) (keyword : value) (p : value)
  : result bool :=
  (let? pname := get p "name" in
   let name := Str.toLowerCase (ToString (or_else pname (VStr EmptyString))) in
   let? matchKeyword :=
     if truthy keyword
     then let? kw := toLowerCase_of keyword in Ok (Str.includes name kw)
     else Ok true in
   if Str.is_empty accountLower then Ok matchKeyword
   else
     let fields :=
       map (fun v => Str.toLowerCase (ToString v))
         (filter (fun v => truthy v = true) (map (prop p) role_fields)) in
     let team :=
       match prop p "teamMembers" with
       | VArr l => l
       | _ => []
       end in
     let? teamMatch := someR (member_matches accountLower) team in
     let fieldMatch := bool_decide (accountLower ∈ fields) in
     Ok (matchKeyword && (teamMatch || fieldMatch)))%result.

(** [listProjectsForAccount({ keyword, limit = 50 })]; [limit] is a number
    or left out. *)
Definition listProjectsForAccount (keyword : value) (limit : option Z)
  : M (list value) :=
  (let limit := default 50 limit in
   let* res :=
     callZenTao cfg JSON_parse JSON_stringify remote
       (get_descriptor "projects" (VObj [("page", VNum 1); ("limit", VNum limit)])) in
   let projects := extractArray (env_data res) ["projects"] in
   let accountLower := Str.toLowerCase (Str.trim (account cfg)) in
   let* filtered := lift (filterR (project_matches accountLower keyword) projects) in
   ret (slice_to limit filtered))%js.

Definition tool_listMyProjects (keyword : value) (limit : option Z) : M string :=
  (let* projects := listProjectsForAccount keyword limit in
   ret (JSON_stringify_indent (VObj [("projects", VArr projects)])))%js.

(** [searchProducts]: [listProducts({ keyword, limit })] with the default
    limit 20 of [listProducts]. *)
Definition tool_searchProducts (keyword : value) (limit : option Z) : M string :=
  (let* products :=
     listProducts cfg JSON_parse JSON_stringify remote keyword (default 20 limit) in
   ret (JSON_stringify_indent (VObj [("products", VArr products)])))%js.

Definition tool_getBugDetail (bugId : value) : M string :=
  (let* bug := getBugWithImages cfg JSON_parse JSON_stringify remote bugId in
   ret (JSON_stringify_indent (VObj [("bug", bug)])))%js.

(** The descriptor of [markBugResolved]. *)
Definition resolve_descriptor (bugId comment : value) : Descriptor :=
  {| d_path := VStr ("bugs/" +:+ ToString bugId +:+ "/resolve");
     d_method := VStr "POST";
     d_query := VUndefined;
     d_body := VObj [("resolution", VStr "fixed"); ("comment", comment)];
     d_headers := VUndefined;
     d_forceTokenRefresh := VUndefined |}.

Definition tool_markBugResolved (bugId comment : value) : M string :=
  (let* response :=
     callZenTao cfg JSON_parse JSON_stringify remote (resolve_descriptor bugId comment) in
   ret (JSON_stringify_indent (Envelope_value response)))%js.

(** The text of the resource [zentao://config]: one line per setting, joined
    by the two characters backslash and [n] that the source writes. *)
Definition config_report (token : value) : string :=
  Str.join "\n"
    [ "ZENTAO_BASE_URL: " +:+ (if negb (Str.is_empty (baseUrl cfg)) then "set" else "missing");
      "ZENTAO_ACCOUNT: " +:+ (if negb (Str.is_empty (account cfg)) then "set" else "missing");
      "ZENTAO_PASSWORD: " +:+ (if negb (Str.is_empty (password cfg)) then "set" else "missing");
      "ZENTAO_TOKEN: " +:+ (if truthy token then "set (cached)" else "not cached") ].

(** The handler of [ReadResourceRequestSchema]: the text of the single
    content item. *)
Definition read_resource (uri : string) : M string :=
  (if Str.eqb uri "zentao://endpoints" then ret endpointIndex
   else if Str.eqb uri "zentao://config"
   then let* token := read_cachedToken in ret (config_report token)
   else if Str.eqb uri "zentao://projects"
   then
     let* projects := listProjectsForAccount VUndefined (Some 100) in
     ret (JSON_stringify_indent (VObj [("projects", VArr projects)]))
   else throw (JsError ("Unknown resource: " +:+ uri)))%js.

End Catalog.

(** * Specification-side definitions

    What the specification's sentences mean, stated independently of the
    code above. *)

(** [hay] contains [needle]. *)
Definition contains (hay needle : string) : Prop :=
  ∃ before after, hay = before +:+ needle +:+ after.

(** The order of precedence of list extraction: the payload itself, then the
    first caller-given key that holds an array, then the [data] key, then
    the empty sequence. *)
Inductive extractList_spec (payload : value) (keys : list string)
  : list value -> Prop :=
| extract_direct l :
    payload = VArr l ->
    extractList_spec payload keys l
| extract_named before key after l :
    isArray payload = false ->
    keys = before ++ key :: after ->
    Forall (fun k => isArray (get_opt payload k) = false) before ->
    get_opt payload key = VArr l ->
    extractList_spec payload keys l
| extract_data l :
    isArray payload = false ->
    Forall (fun k => isArray (get_opt payload k) = false) keys ->
    get_opt payload "data" = VArr l ->
    extractList_spec payload keys l
| extract_empty :
    isArray payload = false ->
    Forall (fun k => isArray (get_opt payload k) = false) keys ->
    isArray (get_opt payload "data") = false ->
    extractList_spec payload keys [].

(** A path begins with a URI scheme (RFC 3986): a letter, then letters,
    digits, [+], [-] or [.], then a colon. *)
Fixpoint scheme_rest (s : string) : bool :=
  match s with
  | EmptyString => false
  | String c s' =>
      if Ascii.eqb c ":"%char then true
      else if Regex.is_alpha c || Regex.is_digit c || Ascii.eqb c "+"%char
              || Ascii.eqb c "-"%char || Ascii.eqb c "."%char
           then scheme_rest s'
           else false
  end.

Definition begins_with_scheme (path : string) : bool :=
  match path with
  | EmptyString => false
  | String c s' => Regex.is_alpha c && scheme_rest s'
  end.

(** Reading a query string back, as a receiving server does it (the
    [application/x-www-form-urlencoded] parser): split at [&], drop empty
    pieces, split each piece at its first [=], turn [+] into a space and
    decode the percent escapes. *)
Module UrlSpec.

Definition hex_val (c : ascii) : option nat :=
  let n := nat_of_ascii c in
  if Regex.is_digit c then Some (n - 48)%nat
  else if (65 <=? n)%nat && (n <=? 70)%nat then Some (n - 55)%nat
  else if (97 <=? n)%nat && (n <=? 102)%nat then Some (n - 87)%nat
  else None.

Fixpoint decode (s : string) : string :=
  match s with
  | EmptyString => EmptyString
  | String c s' =>
      if Ascii.eqb c "+"%char then String " "%char (decode s')
      else if Ascii.eqb c "%"%char
      then match s' with
           | String h (String l r) =>
               match hex_val h, hex_val l with
               | Some a, Some b => String (ascii_of_nat (16 * a + b)) (decode r)
               | _, _ => String c (decode s')
               end
           | _ => String c (decode s')
           end
      else String c (decode s')
  end.

(** The part before the first [sep] and the part after it. *)
Fixpoint break (sep : ascii) (s : string) : string * string :=
  match s with
  | EmptyString => (EmptyString, EmptyString)
  | String c s' =>
      if Ascii.eqb c sep then (EmptyString, s')
      else let r := break sep s' in (String c r.1, r.2)
  end.

Definition parse_pair (piece : string) : string * string :=
  let r := break "="%char piece in (decode r.1, decode r.2).

Definition parse (qs : string) : list (string * string) :=
  map parse_pair
    (filter (fun piece => negb (Str.is_empty piece)) (Str.split "&"%char qs)).

(** [c] occurs in [s]. *)
Fixpoint has_char (c : ascii) (s : string) : bool :=
  match s with
  | EmptyString => false
  | String c' s' => Ascii.eqb c' c || has_char c s'
  end.

End UrlSpec.

(** The entries of a query mapping that are present: neither [null] nor
    [undefined], each with its value as text. *)
Definition present_entries (kvs : list (string * value)) : list (string * string) :=
  map (fun kv => (kv.1, ToString kv.2))
    (filter (fun kv => negb (nullish kv.2)) kvs).

(** One pair of a serialized query string. *)
Definition encode_pair (kv : string * string) : string :=
  Url.encode kv.1 +:+ "=" +:+ Url.encode kv.2.

(** What one line assigns, if it matches the pattern: the key and the
    trimmed value. *)
Definition line_assignment (line : string) : option (string * string) :=
  match envRegex_exec line with
  | None => None
  | Some caps =>
      match caps !! 2%nat with
      | Some value => Some (default "undefined" (caps !! 1%nat), Str.trim value)
      | None => None
      end
  end.

(** Every assignment the scan meets, in scan order: the candidate files in
    order, and in each file its lines in order. *)
Definition scan_assignments (fs : string -> option string) (cwd homedir : string)
  : list (string * string) :=
  let lines file :=
    match fs file with
    | None => []
    | Some content => Str.split "010"%char content
    end in
  omap line_assignment
    (lines (path_join cwd ".env") ++ lines (path_join homedir ".env")
       ++ lines (path_join homedir ".zshrc")).

(** The guarded assignment of the loop body. *)
Definition assign_if_unset (env : gmap string string) (kv : string * string)
  : gmap string string :=
  if env_unset env kv.1 then <[kv.1 := kv.2]> env else env.

(** The first value that is not empty. *)
Fixpoint first_nonempty (vals : list string) : option string :=
  match vals with
  | [] => None
  | v :: vals' => if Str.is_empty v then first_nonempty vals' else Some v
  end.

(** The values assigned to [key], in scan order. *)
Definition values_for (key : string) (assignments : list (string * string))
  : list string :=
  map snd (filter (fun kv => kv.1 = key) assignments).

(** The value a key ends with: a non-empty value it already has; else the
    first non-empty value assigned to it; else the empty string if anything
    was assigned to it; else what it had. *)
Definition settled (old : option string) (vals : list string) : option string :=
  match old with
  | Some v =>
      if Str.is_empty v
      then match first_nonempty vals with
           | Some x => Some x
           | None => Some EmptyString
           end
      else Some v
  | None =>
      match first_nonempty vals with
      | Some x => Some x
      | None => match vals with [] => None | _ => Some EmptyString end
      end
  end.

(** A login exchange: a POST to the [tokens] endpoint that carries no
    [Token] header. *)
Definition is_login_exchange (cfg : Config) (req : Request) : bool :=
  Str.eqb (req_url req) (baseUrl cfg +:+ "/api.php/v1/tokens")
  && match req_method req with VStr m => Str.eqb m "POST" | _ => false end
  && match lookup_prop "Token" (req_headers req) with None => true | Some _ => false end.

(** How many of the requests of a trace are login exchanges. *)
Definition login_count (cfg : Config) (trace : list Request) : nat :=
  length (filter (fun req => is_login_exchange cfg req = true) trace).

(** Last write wins: the value a key ends with after the pairs are
    assigned in order. *)
Definition last_write (name : string) (kvs : list (string * value)) : option value :=
  lookup_prop name (rev kvs).

(** A product candidate is a JSON object. *)
Definition is_object (v : value) : bool :=
  match v with VObj _ => true | _ => false end.

(** The candidate's name equals the query, case-insensitively. *)
Definition name_matches (q : string) (p : value) : bool :=
  Str.eqb (Str.toLowerCase (ToString (or_else (prop p "name") (VStr EmptyString))))
          (Str.toLowerCase q).

(** How the disambiguation error names a candidate. *)
Definition id_and_name (p : value) : string :=
  ToString (prop p "id") +:+ ":" +:+ ToString (prop p "name").

(** What a scan of the pages [page], [page + 1], ... finds within [pages]
    pages: the first page with a matching bug, the first failure, or
    nothing. *)
Inductive scan_outcome : Type :=
| FoundOn (page : Z) (bug : value) (st : State)
| FailedOn (page : Z) (e : exn) (st : State)
| NoMatch (st : State).

(** [st'] extends the trace of [st] by at most [k] requests. *)
Definition grows (st st' : State) (k : nat) : Prop :=
  ∃ new, sent st' = sent st ++ new ∧ (length new <= k)%nat.

(** One request when the token is cached, one more for the login if not. *)
Definition request_budget (st : State) : nat :=
  if truthy (cachedToken st) then 1%nat else 2%nat.

(** The continuation [k] is only ever entered on a suffix: if the match [m]
    succeeds, [k] succeeded on a string no longer than [s]. *)
Definition shrinks {R} (k : string -> Regex.captures -> option R)
    (m : option R) (s : string) : Prop :=
  ∀ x, m = Some x ->
    ∃ s' caps', k s' caps' = Some x ∧ (String.length s' <= String.length s)%nat.

(** Two continuations that agree on every string no longer than [s]. *)
Definition agree_up_to {R} (s : string)
    (k1 k2 : string -> Regex.captures -> option R) : Prop :=
  ∀ s' caps, (String.length s' <= String.length s)%nat -> k1 s' caps = k2 s' caps.

(** A string of decimal digits, as the index keys of arrays and strings are. *)
Fixpoint all_digits (s : string) : bool :=
  match s with
  | EmptyString => true
  | String c s' => Regex.is_digit c && all_digits s'
  end.

(** The page scan of the get-next-bug operation, as the specification puts
    it: look at the pages in turn, a bounded number of them, and stop at the
    first page with a match or at the first failure. *)
Section Scan.

Variable cfg : Config.
Variable JSON_parse : string -> option value.
Variable JSON_stringify : value -> string.
Variable JSON_stringify_indent : value -> string.
Variable remote : nat -> Request -> fetch_result.

Fixpoint scan_pages (productId keyword status : value) (pages : nat)
    (page : Z) (st : State) : scan_outcome :=
  match pages with
  | O => NoMatch st
  | S pages' =>
      match fetchBugsByProduct cfg JSON_parse JSON_stringify remote
              (page_query productId keyword status page) st with
      | (Raise e, st') => FailedOn page e st'
      | (Ok (bug :: _, _), st') => FoundOn page bug st'
      | (Ok ([], _), st') => scan_pages productId keyword status pages' (page + 1) st'
      end
  end.

(** What the operation returns for the outcome of the scan. *)
Definition finish_scan (productId : value) (o : scan_outcome)
  : result string * State :=
  match o with
  | FoundOn _ bug st => bug_detail_text cfg JSON_parse JSON_stringify JSON_stringify_indent remote bug st
  | FailedOn _ e st => (Raise e, st)
  | NoMatch st => (Ok (not_found_text cfg productId), st)
  end.

End Scan.

(** ** The filters of a bug query, as the specification puts them *)

(** The bug is assigned to the account: no account is configured, or the
    account is one of the identities of the assignee. *)
Definition assigned_to (accountLower : string) (b : value) : bool :=
  Str.is_empty accountLower
  || bool_decide (accountLower ∈
                    normalizeAccount (prop b "assignedTo")
                    ++ normalizeAccount (prop b "assignedToName")
                    ++ normalizeAccount (prop b "assignedToRealname")).

(** The title of the bug, else its name, includes the keyword, if there is
    one, whatever the case. *)
Definition title_includes (keyword b : value) : bool :=
  match keyword with
  | VStr kw =>
      Str.is_empty kw
      || Str.includes
           (Str.toLowerCase
              (ToString (or_else (prop b "title")
                           (or_else (prop b "name") (VStr EmptyString)))))
           (Str.toLowerCase kw)
  | _ => negb (truthy keyword)
  end.

(** The status of the bug, else its state, is the status asked for, up to
    case and surrounding white space, unless every status is asked for or
    none is given. *)
Definition status_is (allStatuses status b : value) : bool :=
  truthy allStatuses || negb (truthy status)
  || Str.is_empty (Str.toLowerCase (Str.trim (ToString status)))
  || Str.eqb
       (Str.toLowerCase
          (Str.trim
             (ToString (or_else (prop b "status")
                          (or_else (prop b "state") (VStr EmptyString))))))
       (Str.toLowerCase (Str.trim (ToString status))).

(** The bug passes the three filters. *)
Definition passes_filters (cfg : Config) (keyword allStatuses status b : value)
  : bool :=
  assigned_to (Str.toLowerCase (Str.trim (account cfg))) b
  && title_includes keyword b
  && status_is allStatuses status b.

(** [x] is the first element of [l] for which [p] holds. *)
Definition first_match {A} (p : A -> bool) (l : list A) (x : A) : Prop :=
  ∃ before after,
    l = before ++ x :: after ∧ Forall (fun y => p y = false) before ∧ p x = true.

(** The request for one page of the bugs of a product. *)
Definition bugs_request (productId keyword page limit : value) : Descriptor :=
  get_descriptor "bugs"
    (VObj [ ("page", page); ("limit", limit);
            ("product", productId); ("keywords", keyword) ]).

(** The request for the detail of a bug: its [id], else its [bugId]. *)
Definition detail_request (bug : value) : Descriptor :=
  get_descriptor
    ("bugs/" +:+ ToString (or_else (prop bug "id") (prop bug "bugId"))) VUndefined.

(** [detail] is the detail of the bug that the response [data] holds: the
    fields of the bug, with [stepsHtml] set to its steps and [stepsImages] to
    the image sources of the steps. *)
Definition is_bug_detail (data detail : value) : Prop :=
  ∃ props,
    detail = VObj props ∧
    let bug := or_else data (VObj []) in
    let html :=
      or_else (prop bug "steps") (or_else (prop bug "stepsHtml") (VStr EmptyString)) in
    lookup_prop "stepsHtml" props = Some html ∧
    lookup_prop "stepsImages" props
    = Some (VArr (map VStr (parseImageSources html))) ∧
    ∀ k, k ≠ "stepsHtml" -> k ≠ "stepsImages" ->
      lookup_prop k props = last_write k (Object_entries bug).

Section PageScan.

Variable cfg : Config.
Variable JSON_parse : string -> option value.
Variable JSON_stringify : value -> string.
Variable remote : nat -> Request -> fetch_result.
Variable productId keyword status : value.

(** The pages [first], ..., [page - 1] were requested in turn from [st], 20
    bugs a page; each was answered and held no bug that passes the filters;
    [stp] is the state after them. *)
Inductive pages_without_match : Z -> State -> Z -> State -> Prop :=
| pages_none page st : pages_without_match page st page st
| pages_next first st e st1 page stp :
    callZenTao cfg JSON_parse JSON_stringify remote
      (bugs_request productId keyword (VNum first) (VNum 20)) st = (Ok e, st1) ->
    Forall (fun b => passes_filters cfg keyword (VBool false) status b = false)
      (extractArray (env_data e) ["bugs"]) ->
    pages_without_match (first + 1) st1 page stp ->
    pages_without_match first st page stp.

End PageScan.

(** ** Example data for the concrete runs *)

(** A complete configuration. *)
Definition example_cfg : Config :=
  {| baseUrl := "https://zentao.example"; account := "alice"; password := "secret" |}.

(** A file system that holds the listed files. *)
Definition example_fs (files : list (string * string)) (file : string)
  : option string :=
  snd <$> find (fun kv => Str.eqb kv.1 file) files.

(** A stand-in for [JSON.parse] that knows the listed texts. *)
Definition table_parse (table : list (string * value)) (text : string)
  : option value :=
  snd <$> find (fun kv => Str.eqb kv.1 text) table.

Definition example_stringify (v : value) : string := "{...}".

Definition ok_response (text : string) : fetch_result :=
  Responds {| status := 200; statusText := "OK"; body_text := text;
              resp_headers := [] |}.

Definition login_body : string :=
  "{" +:+ dq +:+ "token" +:+ dq +:+ ":" +:+ dq +:+ "t-1" +:+ dq +:+ "}".

Definition example_parse : string -> option value :=
  table_parse [ (login_body, VObj [("token", VStr "t-1")]);
                ("[]", VArr []) ].

(** The state at start-up without and with a token cached. *)
Definition fresh_state : State := {| cachedToken := VStr EmptyString; sent := [] |}.
Definition logged_in_state : State := {| cachedToken := VStr "t-1"; sent := [] |}.

(** The state at start-up when the environment holds [ZENTAO_TOKEN]. *)
Definition seeded_state : State :=
  {| cachedToken := initial_token {[ "ZENTAO_TOKEN" := "t-1" ]}; sent := [] |}.

(** The remote answers the first request with a token and any later one
    with an empty list. *)
Definition login_then_lists (i : nat) (req : Request) : fetch_result :=
  match i with
  | O => ok_response login_body
  | _ => ok_response "[]"
  end.

(** A caller that supplies its own [Token] header. *)
Definition override_descriptor : Descriptor :=
  {| d_path := VStr "projects"; d_method := VUndefined; d_query := VUndefined;
     d_body := VUndefined;
     d_headers := VObj [("Token", VStr "other"); ("X-Trace", VStr "1")];
     d_forceTokenRefresh := VUndefined |}.

(** The remote answers every request with status 500 and the body [boom]. *)
Definition always_boom (i : nat) (req : Request) : fetch_result :=
  Responds {| status := 500; statusText := "Internal Server Error";
              body_text := "boom"; resp_headers := [] |}.

(** Three product candidates. *)
Definition product_foo : value := VObj [("id", VNum 1); ("name", VStr "Foo")].
Definition product_foobar : value := VObj [("id", VNum 2); ("name", VStr "Foobar")].
Definition product_foo_lower : value := VObj [("id", VNum 3); ("name", VStr "foo")].

(** The remote answers every request with the two products [Foo] and
    [Foobar]. *)
Definition products_body : string := "[Foo, Foobar]".

Definition products_parse : string -> option value :=
  table_parse [ (products_body, VObj [("products", VArr [product_foo; product_foobar])]) ].

Definition products_remote (i : nat) (req : Request) : fetch_result :=
  ok_response products_body.

(** A body that stands for a page with one bug. *)
Definition late_bug_body : string := "[late bug]".

Definition late_bug : value :=
  VObj [("id", VNum 42); ("title", VStr "crash"); ("assignedTo", VStr "alice");
        ("status", VStr "active")].

Definition late_parse : string -> option value :=
  table_parse [ ("[]", VArr []); (late_bug_body, VObj [("bugs", VArr [late_bug])]) ].

(** The remote answers the first ten requests with an empty page and any
    later one with a page that holds a bug. *)
Definition ten_empty_pages (i : nat) (req : Request) : fetch_result :=
  if (i <? 10)%nat then ok_response "[]" else ok_response late_bug_body.

(** The remote answers the first request with an empty page and any later
    one with a page that holds [late_bug]. *)
Definition second_page_remote (i : nat) (req : Request) : fetch_result :=
  if (i <? 1)%nat then ok_response "[]" else ok_response late_bug_body.

(** ** Further specification-side definitions *)


(** The last value that the entries give to [name]. *)
Fixpoint last_entry (name : string) (entries : list (string * string))
  : option string :=
  match entries with
  | [] => None
  | (k, v) :: rest =>
      match last_entry name rest with
      | Some x => Some x
      | None => if Str.eqb k name then Some v else None
      end
  end.

(** A response whose entries repeat a header name. *)
Definition cookies_response : Response :=
  {| status := 200; statusText := "OK"; body_text := "[]";
     resp_headers := [ ("content-type", "application/json");
                       ("set-cookie", "a=1"); ("set-cookie", "b=2") ] |}.

(** The remote answers every request with [cookies_response]. *)
Definition cookies_remote (i : nat) (req : Request) : fetch_result :=
  Responds cookies_response.

(** The text does not begin with white space. *)
Definition no_leading_space (s : string) : Prop :=
  match s with
  | EmptyString => True
  | String c _ => Str.is_space c = false
  end.

(** [s'] is what is left of [s] after a prefix. *)
Definition suffix_of (s' s : string) : Prop := ∃ pre, s = pre +:+ s'.

(** The text begins with [http://] or [https://], in any case. *)
Definition is_http_url (url : string) : Prop :=
  ∃ rest, Str.toLowerCase url = "http://" +:+ rest
          ∨ Str.toLowerCase url = "https://" +:+ rest.

(** What a pattern means: [matches r s caps s' caps'] when [r] matches the
    part of [s] before its suffix [s'] and takes the captures from [caps] to
    [caps']. *)
Inductive matches : Regex.re -> string -> Regex.captures -> string
    -> Regex.captures -> Prop :=
| matches_chr (p : ascii -> bool) c s caps :
    p c = true -> matches (Regex.Chr p) (String c s) caps s caps
| matches_eps s caps : matches Regex.Eps s caps s caps
| matches_seq a b s caps s1 c1 s2 c2 :
    matches a s caps s1 c1 -> matches b s1 c1 s2 c2 ->
    matches (Regex.Seq a b) s caps s2 c2
| matches_opt_some a s caps s1 c1 :
    matches a s caps s1 c1 -> matches (Regex.Opt a) s caps s1 c1
| matches_opt_none a s caps : matches (Regex.Opt a) s caps s caps
| matches_star_nil g a s caps : matches (Regex.Star g a) s caps s caps
| matches_star_cons g a s caps s1 c1 s2 c2 :
    matches a s caps s1 c1 -> matches (Regex.Star g a) s1 c1 s2 c2 ->
    matches (Regex.Star g a) s caps s2 c2
| matches_group i a s caps s1 c1 :
    matches a s caps s1 c1 ->
    matches (Regex.Group i a) s caps s1 (<[i := Regex.consumed s s1]> c1)
| matches_eol caps : matches Regex.Eol EmptyString caps EmptyString caps.

(** The engine is sound for the meaning of patterns: whenever [step]
    succeeds, the continuation succeeded after a match of [r]. *)
Definition sound_for {R} (r : Regex.re)
    (step : string -> Regex.captures -> (string -> Regex.captures -> option R)
            -> option R) : Prop :=
  ∀ s caps k x, step s caps k = Some x ->
    ∃ s1 c1, matches r s caps s1 c1 ∧ k s1 c1 = Some x.

(** Every character of [w] satisfies [p]. *)
Fixpoint all_chars (p : ascii -> bool) (w : string) : bool :=
  match w with
  | EmptyString => true
  | String c w' => p c && all_chars p w'
  end.

(** Nothing, or one quote. *)
Definition quote_or_nothing (q : string) : Prop :=
  q = EmptyString ∨ ∃ c, q = String c EmptyString ∧ Regex.is_quote c = true.

(** A name of an environment variable: a letter or an underscore, then
    letters, digits and underscores. *)
Definition is_identifier (key : string) : bool :=
  match key with
  | EmptyString => false
  | String c rest =>
      (Regex.is_alpha c || Ascii.eqb c "_"%char)
      && all_chars (fun c => Regex.is_alpha c || Regex.is_digit c
                             || Ascii.eqb c "_"%char) rest
  end.

(** What may precede the key of an assignment: white space, then optionally
    [export] and at least one white space. *)
Definition is_lead (lead : string) : Prop :=
  ∃ a e,
    lead = a +:+ e ∧ all_chars Str.is_space a = true ∧
    (e = EmptyString ∨
     ∃ c w, e = "export" +:+ String c w ∧ Str.is_space c = true
            ∧ all_chars Str.is_space w = true).

(** The separator between the key and the value of an assignment: the sign
    [=] between optional white space, then an optional quote. *)
Definition is_separator (mid : string) : Prop :=
  ∃ a b q,
    mid = a +:+ "=" +:+ b +:+ q ∧
    all_chars Str.is_space a = true ∧ all_chars Str.is_space b = true ∧
    quote_or_nothing q.

(** What may follow the value of an assignment: an optional quote, then
    white space. *)
Definition is_trail (trail : string) : Prop :=
  ∃ q b,
    trail = q +:+ b ∧ all_chars Str.is_space b = true ∧ quote_or_nothing q.

(** A character of an image source: no quote, no [>], no white space. *)
Definition is_src_char (c : ascii) : bool :=
  negb (Regex.is_quote c || Ascii.eqb c ">"%char || Str.is_space c).

Definition not_gt (c : ascii) : bool := negb (Ascii.eqb c ">"%char).

(** [run] is a run of text that the pattern of [parseImageSources] accepts
    with the source [url]: the characters [<img] in any case, at least one
    character other than [>], the characters [src=] in any case, an optional
    quote, [url], an optional quote, characters other than [>], and [>].
    The pattern asks for no more: what follows [<img] need not begin with
    white space, and [src=] can be the end of a longer attribute name. *)
Definition is_img_run (run url : string) : Prop :=
  ∃ w1 attrs w2 q1 q2 more,
    run = w1 +:+ attrs +:+ w2 +:+ q1 +:+ url +:+ q2 +:+ more +:+ ">" ∧
    Str.toLowerCase w1 = "<img" ∧
    attrs ≠ EmptyString ∧ all_chars not_gt attrs = true ∧
    Str.toLowerCase w2 = "src=" ∧
    quote_or_nothing q1 ∧ quote_or_nothing q2 ∧
    all_chars not_gt more = true.

(** [text] holds a run that the pattern accepts with the source [url]. *)
Definition holds_img_run (text url : string) : Prop :=
  ∃ before run after, text = before +:+ run +:+ after ∧ is_img_run run url.

(** What [parseImageSources] may return for [text]. *)
Definition image_source_of (text url : string) : Prop :=
  url ≠ EmptyString ∧ is_http_url url ∧ all_chars is_src_char url = true ∧
  holds_img_run text url.

(** A tag that is not an [img] tag and has no [src] attribute, and that the
    pattern accepts all the same. *)
Definition loose_tag : string :=
  "<imgx data-src=" +:+ dq +:+ "http://a/1.png" +:+ dq +:+ ">".

(** The project names the account in a role field or in its team. *)
Definition involves (accountLower : string) (p : value) : Prop :=
  (∃ field, field ∈ role_fields ∧ truthy (prop p field) = true ∧
            Str.toLowerCase (ToString (prop p field)) = accountLower) ∨
  (∃ team m, prop p "teamMembers" = VArr team ∧ m ∈ team ∧
             Str.toLowerCase
               (ToString (or_else (prop m "account")
                            (or_else (prop m "name") (VStr EmptyString))))
             = accountLower).


(** The computation performs at most one login exchange, and none from a
    state with a cached token, which it keeps cached; after a login exchange
    a result comes with a cached token. *)
Definition logs_in_at_most_once {A} (cfg : Config) (m : M A) : Prop :=
  ∀ st, ∃ new,
    sent (m st).2 = sent st ++ new ∧
    (login_count cfg new <= 1)%nat ∧
    (truthy (cachedToken st) = true ->
     login_count cfg new = 0%nat ∧ truthy (cachedToken (m st).2) = true) ∧
    (∀ a, (m st).1 = Ok a -> login_count cfg new = 1%nat ->
          truthy (cachedToken (m st).2) = true).

(** A character of a serialized query string: a letter, a digit or one of
    the marks that the serializer writes. *)
Definition is_query_char (c : ascii) : bool :=
  Url.unreserved c || Ascii.eqb c "+"%char || Ascii.eqb c "%"%char
  || Ascii.eqb c "&"%char || Ascii.eqb c "="%char.

(** Where a request of the tools goes: under the API root, to [tokens], to
    one of the three lists with a serialized query string, or to a bug, whose
    id is put into the path as text and satisfies [ids]. *)
Definition request_target (cfg : Config) (ids : value -> Prop) (req : Request)
  : Prop :=
  ∃ rest,
    req_url req = baseUrl cfg +:+ "/api.php/v1/" +:+ rest ∧
    (rest = "tokens" ∨
     (∃ name qs,
        name ∈ ["projects"; "products"; "bugs"] ∧
        all_chars is_query_char qs = true ∧
        rest = name +:+ "?" +:+ qs) ∨
     (∃ id tail,
        ids id ∧ tail ∈ [EmptyString; "/resolve"] ∧
        rest = "bugs/" +:+ ToString id +:+ tail)).

(** Every request the computation sends has such a target. *)
Definition sends_only {A} (cfg : Config) (ids : value -> Prop) (m : M A) : Prop :=
  ∀ st, ∃ new,
    sent (m st).2 = sent st ++ new ∧ Forall (request_target cfg ids) new.

(** A bug id that is a path, not a number. *)
Definition dotted_id : value := VStr "../../../admin/users?x=".

(** ** Further example data *)

(** The steps of a bug, with one image. *)
Definition bug_steps : string :=
  "<p>open the page <img alt=shot src=" +:+ dq +:+ "https://files.example/a.png"
    +:+ dq +:+ "></p>".

Definition bug_body : string := "[bug 42]".

Definition bug_42 : value :=
  VObj [("id", VNum 42); ("title", VStr "crash"); ("steps", VStr bug_steps)].

(** What [getBugWithImages] makes of the bug 42. *)
Definition bug_42_detail : value :=
  VObj [("id", VNum 42); ("title", VStr "crash"); ("steps", VStr bug_steps);
        ("stepsHtml", VStr bug_steps);
        ("stepsImages", VArr [VStr "https://files.example/a.png"])].

Definition bug_parse : string -> option value :=
  table_parse [ (bug_body, bug_42) ].

(** The remote answers every request with the bug 42. *)
Definition bug_remote (i : nat) (req : Request) : fetch_result :=
  ok_response bug_body.

(** The remote answers every request with a page that holds [late_bug]. *)
Definition bugs_remote (i : nat) (req : Request) : fetch_result :=
  ok_response late_bug_body.

Definition project_apollo : value :=
  VObj [("id", VNum 1); ("name", VStr "Apollo"); ("PM", VStr "Alice")].
Definition project_zeus : value :=
  VObj [("id", VNum 2); ("name", VStr "Zeus"); ("PM", VStr "bob")].

Definition projects_body : string := "[Apollo, Zeus]".

Definition projects_parse : string -> option value :=
  table_parse
    [ (projects_body, VObj [("projects", VArr [project_apollo; project_zeus])]) ].

Definition projects_remote (i : nat) (req : Request) : fetch_result :=
  ok_response projects_body.

(** An environment that holds the whole configuration and a token. *)
Definition seeded_env : gmap string string :=
  {[ "ZENTAO_BASE_URL" := "https://zentao.example/";
     "ZENTAO_ACCOUNT" := "alice";
     "ZENTAO_PASSWORD" := "secret";
     "ZENTAO_TOKEN" := "t-1" ]}.

(** A state with a token that is about to be replaced. *)
Definition stale_state : State := {| cachedToken := VStr "stale"; sent := [] |}.

(** Another configuration with every setting present, and a state with
    another token. *)
Definition other_cfg : Config :=
  {| baseUrl := "http://10.0.0.7/zentao"; account := "root"; password := "hunter2" |}.
Definition other_state : State := {| cachedToken := VStr "t-2"; sent := [] |}.

(** * Properties of the code *)

(** ** Regular expressions: the fuel of the loops is enough *)

Lemma star_loop_shrinks {R} greedy step (k : string -> Regex.captures -> option R) :
  (∀ s caps k', shrinks k' (step s caps k') s) ->
  ∀ n s caps, shrinks k (Regex.star_loop greedy step k n s caps) s.
Proof.
  intros Hstep. induction n as [|n IHn]; intros s caps x; simpl.
  - destruct greedy; [intros H; by exists s, caps|].
    destruct (k s caps) eqn:E; [|done]. intros [= ->]. by exists s, caps.
  - set (more := step s caps _).
    assert (more = Some x -> ∃ s' caps', k s' caps' = Some x
              ∧ (String.length s' <= String.length s)%nat) as Hmore.
    { unfold more. intros E. apply Hstep in E as (s1 & c1 & H & L1).
      destruct (Regex.shorter s1 s); [|done].
      apply IHn in H as (s2 & c2 & H & L2).
      exists s2, c2. split; [done | lia]. }
    destruct greedy.
    + destruct more as [y|]; [intros [= ->]; by apply Hmore|].
      intros H. by exists s, caps.
    + destruct (k s caps) as [y|] eqn:E; [intros [= ->]; by exists s, caps|].
      exact Hmore.
Qed.

Lemma run_shrinks {R} (r : Regex.re) :
  ∀ s caps (k : string -> Regex.captures -> option R),
    shrinks k (Regex.run r s caps k) s.
Proof.
  induction r as [p| |a IHa b IHb|a IHa|greedy a IHa|i a IHa|];
    intros s caps k x; cbn [Regex.run].
  - destruct s as [|c s]; [done|]. destruct (p c); [|done].
    intros H. exists s, caps. split; [done | simpl; lia].
  - intros H. by exists s, caps.
  - intros H. apply IHa in H as (s1 & c1 & H & L1).
    apply IHb in H as (s2 & c2 & H & L2).
    exists s2, c2. split; [done | lia].
  - destruct (Regex.run a s caps _) as [y|] eqn:E.
    + intros [= ->]. apply IHa in E as (s1 & c1 & H & L1).
      destruct (Regex.shorter s1 s); [|done].
      exists s1, c1. by split.
    + intros H. by exists s, caps.
  - by apply (star_loop_shrinks greedy (Regex.run a) k IHa).
  - intros H. apply IHa in H as (s1 & c1 & H & L1). by eexists _, _.
  - destruct s; [|done]. intros H. by exists EmptyString, caps.
Qed.

Lemma run_char_first_consumes {R} p a b s caps
    (k : string -> Regex.captures -> option R) x :
  Regex.run (Regex.Seq (Regex.Seq (Regex.Chr p) a) b) s caps k = Some x ->
  ∃ s' caps', k s' caps' = Some x ∧ (String.length s' < String.length s)%nat.
Proof.
  cbn [Regex.run]. destruct s as [|c s]; [done|]. destruct (p c); [|done].
  intros H. apply run_shrinks in H as (s1 & c1 & H & L1).
  apply run_shrinks in H as (s2 & c2 & H & L2).
  exists s2, c2. split; [done | simpl; lia].
Qed.

Lemma imgRegex_consumes s caps rest :
  Regex.match_here imgRegex s = Some (caps, rest) ->
  (String.length rest < String.length s)%nat.
Proof.
  unfold Regex.match_here, imgRegex. cbn [Regex.lit].
  intros H. by apply run_char_first_consumes in H as (s1 & c1 & [= -> ->] & L).
Qed.

Lemma search_imgRegex_consumes s caps rest :
  Regex.search imgRegex s = Some (caps, rest) ->
  (String.length rest < String.length s)%nat.
Proof.
  induction s as [|c s IH]; cbn [Regex.search];
    destruct (Regex.match_here imgRegex _) as [[c0 r0]|] eqn:E;
    try (intros [= -> ->]; by apply imgRegex_consumes in E); try done.
  intros H%IH. simpl. lia.
Qed.

(** More fuel than the length of the text changes nothing: every match
    consumes at least the character [<]. *)
Lemma parseImageSources_loop_fuel n m :
  ∀ html urls,
    (String.length html < n)%nat -> (String.length html < m)%nat ->
    parseImageSources_loop n html urls = parseImageSources_loop m html urls.
Proof.
  revert m. induction n as [|n IH]; intros m html urls Hn Hm; [lia|].
  destruct m as [|m]; [lia|]. simpl.
  destruct (Regex.search imgRegex html) as [[caps rest]|] eqn:E; [|done].
  apply search_imgRegex_consumes in E. apply IH; lia.
Qed.

Lemma star_loop_ext {R} greedy step (k1 k2 : string -> Regex.captures -> option R) :
  (∀ s caps j1 j2, agree_up_to s j1 j2 -> step s caps j1 = step s caps j2) ->
  ∀ n s caps, agree_up_to s k1 k2 ->
    Regex.star_loop greedy step k1 n s caps = Regex.star_loop greedy step k2 n s caps.
Proof.
  intros Hstep. induction n as [|n IHn]; intros s caps Hk; simpl.
  - by rewrite (Hk s caps).
  - rewrite (Hk s caps) by done.
    rewrite (Hstep s caps _
               (fun s' caps' => if Regex.shorter s' s
                                then Regex.star_loop greedy step k2 n s' caps'
                                else None)); [done|].
    intros s' caps' Hle. destruct (Regex.shorter s' s); [|done].
    apply IHn. intros s2 c2 H2. apply Hk. lia.
Qed.

Lemma run_ext {R} (r : Regex.re) :
  ∀ s caps (k1 k2 : string -> Regex.captures -> option R),
    agree_up_to s k1 k2 -> Regex.run r s caps k1 = Regex.run r s caps k2.
Proof.
  induction r as [p| |a IHa b IHb|a IHa|greedy a IHa|i a IHa|];
    intros s caps k1 k2 Hk; cbn [Regex.run].
  - destruct s as [|c s]; [done|]. destruct (p c); [|done].
    apply Hk. simpl. lia.
  - by apply Hk.
  - apply IHa. intros s1 c1 H1. apply IHb. intros s2 c2 H2. apply Hk. lia.
  - rewrite (Hk s caps) by done.
    rewrite (IHa s caps _ (fun s' caps' => if Regex.shorter s' s then k2 s' caps' else None));
      [done|].
    intros s1 c1 H1. rewrite (Hk s1 c1) by done. done.
  - by apply star_loop_ext.
  - apply IHa. intros s1 c1 H1. by apply Hk.
  - destruct s; [|done]. by apply Hk.
Qed.

(** The fuel that [run] gives to a star, one more than the length of the
    input, is enough: any larger amount gives the same result. *)
Lemma star_loop_fuel {R} greedy a (k : string -> Regex.captures -> option R) n m :
  ∀ s caps,
    (String.length s < n)%nat -> (String.length s < m)%nat ->
    Regex.star_loop greedy (Regex.run a) k n s caps
    = Regex.star_loop greedy (Regex.run a) k m s caps.
Proof.
  revert m. induction n as [|n IHn]; intros m s caps Hn Hm; [lia|].
  destruct m as [|m]; [lia|]. simpl.
  rewrite (run_ext a s caps _
             (fun s' caps' => if Regex.shorter s' s
                              then Regex.star_loop greedy (Regex.run a) k m s' caps'
                              else None)); [done|].
  intros s' caps' Hle. unfold Regex.shorter.
  destruct (String.length s' <? String.length s)%nat eqn:E; [|done].
  apply Nat.ltb_lt in E. apply IHn; lia.
Qed.

(** ** List extraction *)

Lemma extractArray_probe_Some payload keys l :
  extractArray_probe payload keys = Some l ->
  ∃ before key after,
    keys = before ++ key :: after ∧
    Forall (fun k => isArray (get_opt payload k) = false) before ∧
    get_opt payload key = VArr l.
Proof.
  induction keys as [|k keys IH]; simpl; [discriminate|].
  destruct (get_opt payload k) eqn:E;
    try (intros H; destruct (IH H) as (bf & k' & af & -> & Hb & Hk);
         exists (k :: bf), k', af; split; [reflexivity|];
         split; [constructor; [rewrite E; reflexivity | exact Hb] | exact Hk]).
  intros [= ->]. exists [], k, keys. repeat split; [constructor | exact E].
Qed.

Lemma extractArray_probe_None payload keys :
  extractArray_probe payload keys = None ->
  Forall (fun k => isArray (get_opt payload k) = false) keys.
Proof.
  induction keys as [|k keys IH]; simpl; [constructor|].
  destruct (get_opt payload k) eqn:E; try discriminate;
    intros H; constructor; try (rewrite E; reflexivity); auto.
Qed.

Lemma extractArray_probe_first payload before key after l :
  Forall (fun k => isArray (get_opt payload k) = false) before ->
  get_opt payload key = VArr l ->
  extractArray_probe payload (before ++ key :: after) = Some l.
Proof.
  intros Hb Hk. induction Hb as [|k before Hk' _ IH]; simpl.
  - rewrite Hk. reflexivity.
  - destruct (get_opt payload k); try exact IH. discriminate.
Qed.

Lemma extractArray_probe_none payload keys :
  Forall (fun k => isArray (get_opt payload k) = false) keys ->
  extractArray_probe payload keys = None.
Proof.
  induction 1 as [|k keys Hk _ IH]; simpl; [reflexivity|].
  destruct (get_opt payload k); try exact IH. discriminate.
Qed.

(** C7. [extractArray] follows the order of precedence of the specification
    (the payload itself when it is an array; else the first candidate key, in
    the caller's order, whose value is an array; else the [data] key when it
    holds an array; else the empty sequence), and nothing else satisfies
    that order.  In particular an object with an array under the key [bugs]
    yields that array for the candidate key [bugs], a bare array yields
    itself, and an unmatched shape yields the empty sequence. *)
Theorem extractArray_precedence :
  (∀ payload keys, extractList_spec payload keys (extractArray payload keys)) ∧
  (∀ payload keys l, extractList_spec payload keys l -> l = extractArray payload keys) ∧
  (∀ a b, extractArray (VObj [("bugs", VArr [a; b])]) ["bugs"] = [a; b]) ∧
  (∀ l keys, extractArray (VArr l) keys = l) ∧
  extractArray (VObj [("count", VNum 3)]) ["bugs"] = [].
Proof.
  split; [|split; [|repeat split]].
  - intros payload keys. unfold extractArray.
    destruct (isArray payload) eqn:Harr.
    { destruct payload; try discriminate. by apply extract_direct. }
    assert (extractList_spec payload keys
              match extractArray_probe payload keys with
              | Some l => l
              | None => match get_opt payload "data" with VArr l => l | _ => [] end
              end) as Hgoal.
    { destruct (extractArray_probe payload keys) as [l|] eqn:Hp.
      - destruct (extractArray_probe_Some _ _ _ Hp) as (b & k & a & Hk & Hb & Hl).
        by eapply extract_named.
      - pose proof (extractArray_probe_None _ _ Hp) as Hall.
        destruct (get_opt payload "data") eqn:Hd;
          try (apply extract_empty; [done | done | by rewrite Hd]).
        by apply extract_data. }
    destruct payload; try exact Hgoal. discriminate.
  - intros payload keys l H. unfold extractArray.
    destruct H as [l -> | before key after l Harr -> Hb Hk | l Harr Hall Hd | Harr Hall Hd].
    + reflexivity.
    + rewrite (extractArray_probe_first _ _ _ after _ Hb Hk).
      destruct payload; try reflexivity. discriminate.
    + rewrite (extractArray_probe_none _ _ Hall), Hd.
      destruct payload; try reflexivity. discriminate.
    + rewrite (extractArray_probe_none _ _ Hall).
      destruct payload; try discriminate;
        destruct (get_opt _ "data"); try reflexivity; discriminate.
Qed.

(** ** URL building *)

Lemma append_cons c s t : String c s +:+ t = String c (s +:+ t).
Proof. reflexivity. Qed.

Lemma append_empty_r s : s +:+ EmptyString = s.
Proof. induction s as [|c s IH]; [done | by rewrite append_cons, IH]. Qed.

Lemma append_assoc a b c : (a +:+ b) +:+ c = a +:+ (b +:+ c).
Proof. induction a as [|x a IH]; [done | by rewrite !append_cons, IH]. Qed.

Lemma prefix_spec p s :
  String.prefix p s = true ↔ ∃ rest, s = p +:+ rest.
Proof.
  revert s. induction p as [|c p IH]; intros [|c' s]; simpl.
  - split; [intros _; by exists EmptyString | done].
  - split; [intros _; by exists (String c' s) | done].
  - split; [done | by intros [? ?]].
  - destruct (Ascii.ascii_dec c c') as [->|Hne].
    + rewrite IH. split; intros [rest Hr]; exists rest; simpl in *; [by rewrite Hr | by injection Hr].
    + split; [done | intros [rest Hr]; inversion Hr; congruence].
Qed.

(** What [buildUrl] appends for the query: nothing, or [?] and the
    serialized pairs. *)
Lemma buildUrl_str_suffix cfg query :
  ∃ suffix, ∀ path,
    buildUrl_str cfg path query = buildUrl_str cfg path VUndefined +:+ suffix.
Proof.
  unfold buildUrl_str.
  destruct (negb (truthy query) || (length (Object_entries query) =? 0)%nat).
  - exists EmptyString. intros path. simpl.
    by rewrite append_empty_r.
  - eexists. intros path. simpl. reflexivity.
Qed.

(** C3, as stated, fails on the code: a path that begins with a scheme other
    than [http...] is not used verbatim, and a relative path that merely
    starts with the letters [http] is used verbatim although it begins with
    no scheme. *)
Lemma buildUrl_scheme_counterexample :
  (begins_with_scheme "ftp://files.example/x" = true ∧
   buildUrl_str example_cfg "ftp://files.example/x" VUndefined
     = "https://zentao.example/api.php/v1/ftp://files.example/x" ∧
   buildUrl_str example_cfg "ftp://files.example/x" VUndefined
     ≠ "ftp://files.example/x") ∧
  (begins_with_scheme "httpd/status" = false ∧
   buildUrl_str example_cfg "httpd/status" VUndefined = "httpd/status" ∧
   buildUrl_str example_cfg "httpd/status" VUndefined
     ≠ baseUrl example_cfg +:+ "/api.php/v1/" +:+ "httpd/status").
Proof. repeat split; vm_compute; congruence. Qed.

(** C3, amended.  For every request path: if the path begins with the four
    characters [http] it is used verbatim as the target URL; otherwise the
    target URL is the base URL, the fixed API prefix and the path with one
    leading slash, if any, stripped.  The query only appends a suffix that
    does not depend on the path.  In particular the paths [/projects] and
    [projects] resolve to the identical target URL, whatever the query. *)
Theorem buildUrl_target cfg :
  (∀ rest, buildUrl_str cfg ("http" +:+ rest) VUndefined = "http" +:+ rest) ∧
  (∀ path, (∀ rest, path ≠ "http" +:+ rest) ->
     (∀ rest, path = "/" +:+ rest ->
        buildUrl_str cfg path VUndefined = baseUrl cfg +:+ "/api.php/v1/" +:+ rest) ∧
     ((∀ rest, path ≠ "/" +:+ rest) ->
        buildUrl_str cfg path VUndefined = baseUrl cfg +:+ "/api.php/v1/" +:+ path)) ∧
  (∀ query, ∃ suffix, ∀ path,
     buildUrl_str cfg path query = buildUrl_str cfg path VUndefined +:+ suffix) ∧
  (∀ query, buildUrl cfg (VStr "/projects") query = buildUrl cfg (VStr "projects") query).
Proof.
  split; [|split; [|split]].
  - intros rest. unfold buildUrl_str, Str.startsWith.
    by rewrite (proj2 (prefix_spec "http" _) (ex_intro _ rest eq_refl)).
  - intros path Hno.
    assert (Str.startsWith path "http" = false) as Hp.
    { destruct (Str.startsWith path "http") eqn:E; [|done].
      apply prefix_spec in E as [rest ->]. by destruct (Hno rest). }
    unfold buildUrl_str. rewrite Hp. simpl. split.
    + intros rest ->. reflexivity.
    + intros Hns. destruct path as [|c path]; [done|].
      unfold strip_leading_slash.
      destruct (Ascii.ascii_dec c "/") as [->|Hc]; [by destruct (Hns path)|].
      destruct c as [[] [] [] [] [] [] [] []]; try reflexivity. done.
  - apply buildUrl_str_suffix.
  - intros query. reflexivity.
Qed.

(** A target URL obtained verbatim from its [http] prefix. *)
Lemma buildUrl_target_witness :
  buildUrl_str example_cfg "https://other.example/api" VUndefined
    = "https://other.example/api".
Proof.
  exact (proj1 (buildUrl_target example_cfg) "s://other.example/api").
Defined.

(** *** The query string reads back as the present entries *)

Lemma has_char_app c a b :
  UrlSpec.has_char c (a +:+ b) = UrlSpec.has_char c a || UrlSpec.has_char c b.
Proof.
  induction a as [|x a IH]; [done|].
  rewrite append_cons. simpl. by rewrite IH, orb_assoc.
Qed.

Lemma encode_byte_no_separator c :
  UrlSpec.has_char "&" (Url.encode_byte c) = false ∧
  UrlSpec.has_char "=" (Url.encode_byte c) = false.
Proof. destruct c as [[] [] [] [] [] [] [] []]; split; reflexivity. Qed.

Lemma encode_no_separator s :
  UrlSpec.has_char "&" (Url.encode s) = false ∧
  UrlSpec.has_char "=" (Url.encode s) = false.
Proof.
  induction s as [|c s [IH1 IH2]]; [done|].
  destruct (encode_byte_no_separator c) as [H1 H2].
  simpl. by rewrite !has_char_app, H1, H2, IH1, IH2.
Qed.

Lemma decode_encode_byte c t :
  UrlSpec.decode (Url.encode_byte c +:+ t) = String c (UrlSpec.decode t).
Proof. destruct c as [[] [] [] [] [] [] [] []]; reflexivity. Qed.

Lemma decode_encode s : UrlSpec.decode (Url.encode s) = s.
Proof.
  induction s as [|c s IH]; [done|].
  simpl. by rewrite decode_encode_byte, IH.
Qed.

Lemma split_no_separator sep a :
  UrlSpec.has_char sep a = false -> Str.split sep a = [a].
Proof.
  induction a as [|x a IH]; [done|]. simpl.
  destruct (Ascii.eqb x sep); [done|]. simpl.
  intros H. by rewrite (IH H).
Qed.

Lemma split_at_separator sep a b :
  UrlSpec.has_char sep a = false ->
  Str.split sep (a +:+ String sep b) = a :: Str.split sep b.
Proof.
  induction a as [|x a IH].
  - intros _. change (EmptyString +:+ String sep b) with (String sep b).
    simpl. by rewrite Ascii.eqb_refl.
  - rewrite append_cons. simpl.
    destruct (Ascii.eqb x sep); [done|]. simpl.
    intros H. by rewrite (IH H).
Qed.

Lemma break_at_separator sep a b :
  UrlSpec.has_char sep a = false ->
  UrlSpec.break sep (a +:+ String sep b) = (a, b).
Proof.
  induction a as [|x a IH].
  - intros _. change (EmptyString +:+ String sep b) with (String sep b).
    simpl. by rewrite Ascii.eqb_refl.
  - rewrite append_cons. simpl.
    destruct (Ascii.eqb x sep); [done|]. simpl.
    intros H. by rewrite (IH H).
Qed.

Lemma encode_pair_no_amp kv : UrlSpec.has_char "&" (encode_pair kv) = false.
Proof.
  unfold encode_pair. rewrite !has_char_app.
  destruct (encode_no_separator kv.1) as [-> _].
  destruct (encode_no_separator kv.2) as [-> _]. reflexivity.
Qed.

Lemma encode_pair_not_empty kv : Str.is_empty (encode_pair kv) = false.
Proof.
  unfold encode_pair. destruct (Url.encode kv.1); reflexivity.
Qed.

Lemma parse_encode_pair kv : UrlSpec.parse_pair (encode_pair kv) = kv.
Proof.
  unfold UrlSpec.parse_pair, encode_pair.
  change ("=" +:+ Url.encode kv.2) with (String "="%char (Url.encode kv.2)).
  rewrite break_at_separator by apply encode_no_separator.
  simpl. rewrite !decode_encode. by destruct kv.
Qed.

Lemma split_serialize kv pairs :
  Str.split "&" (Str.join "&" (map encode_pair (kv :: pairs)))
    = map encode_pair (kv :: pairs).
Proof.
  revert kv. induction pairs as [|kv' pairs IH]; intros kv.
  - simpl. apply split_no_separator, encode_pair_no_amp.
  - change (Str.join "&" (map encode_pair (kv :: kv' :: pairs)))
      with (encode_pair kv +:+ String "&"%char
              (Str.join "&" (map encode_pair (kv' :: pairs)))).
    rewrite split_at_separator by apply encode_pair_no_amp.
    by rewrite IH.
Qed.

Lemma parse_serialize pairs : UrlSpec.parse (Url.serialize pairs) = pairs.
Proof.
  unfold UrlSpec.parse, Url.serialize.
  change (map (fun kv => Url.encode kv.1 +:+ "=" +:+ Url.encode kv.2) pairs)
    with (map encode_pair pairs).
  destruct pairs as [|kv pairs]; [reflexivity|].
  rewrite split_serialize.
  assert (∀ l, filter (fun piece => negb (Str.is_empty piece)) (map encode_pair l)
               = map encode_pair l) as ->.
  { induction l as [|x l IHl]; [done|].
    rewrite map_cons, filter_cons, encode_pair_not_empty. simpl. by rewrite IHl. }
  rewrite map_map.
  induction (kv :: pairs) as [|x l IHl]; [done|].
  simpl. by rewrite parse_encode_pair, IHl.
Qed.

Lemma collect_present kvs acc :
  fold_left
    (fun usp (kv : string * value) =>
       if nullish kv.2 then usp else usp ++ [(kv.1, ToString kv.2)]) kvs acc
  = acc ++ present_entries kvs.
Proof.
  revert acc. induction kvs as [|kv kvs IH]; intros acc; simpl.
  - by rewrite app_nil_r.
  - rewrite IH. unfold present_entries. rewrite filter_cons.
    destruct (nullish kv.2); simpl; [done|]. by rewrite <- app_assoc.
Qed.

(** C6. The query string that [buildUrl] appends holds exactly the entries
    of the query mapping whose values are neither [null] nor [undefined],
    each URL-encoded: it is the serialization of those entries, and reading
    it back gives those entries, in order, and no other, so an entry with a
    [null] or [undefined] value is omitted entirely.  An absent ([undefined]
    or [null]) or empty mapping yields no query string at all. *)
Theorem buildUrl_query cfg path :
  buildUrl_str cfg path VNull = buildUrl_str cfg path VUndefined ∧
  buildUrl_str cfg path (VObj []) = buildUrl_str cfg path VUndefined ∧
  ∀ kvs, kvs ≠ [] ->
    ∃ qs,
      buildUrl_str cfg path (VObj kvs)
        = buildUrl_str cfg path VUndefined +:+ "?" +:+ qs ∧
      qs = Url.serialize (present_entries kvs) ∧
      UrlSpec.parse qs = present_entries kvs ∧
      ∀ k s, (k, s) ∈ UrlSpec.parse qs ↔
             ∃ v, (k, v) ∈ kvs ∧ nullish v = false ∧ s = ToString v.
Proof.
  split; [reflexivity|]. split; [reflexivity|].
  intros kvs Hne. eexists. split; [|split; [reflexivity|split]].
  - unfold buildUrl_str.
    destruct kvs as [|kv kvs]; [done|].
    cbn [truthy negb orb Object_entries length Nat.eqb].
    by rewrite collect_present.
  - apply parse_serialize.
  - intros k s. rewrite parse_serialize. unfold present_entries.
    rewrite list_elem_of_fmap. split.
    + intros ([k' v] & [= -> ->] & Hin%list_elem_of_filter).
      destruct Hin as [Hn Hin]. exists v. simpl in Hn.
      by destruct (nullish v).
    + intros (v & Hin & Hn & ->). exists (k, v). split; [done|].
      apply list_elem_of_filter. simpl. by rewrite Hn.
Qed.

(** A mapping with one present and one [null] entry. *)
Lemma buildUrl_query_witness :
  ∃ qs,
    buildUrl_str example_cfg "bugs" (VObj [("page", VNum 1); ("keywords", VNull)])
      = buildUrl_str example_cfg "bugs" VUndefined +:+ "?" +:+ qs ∧
    qs = Url.serialize (present_entries [("page", VNum 1); ("keywords", VNull)]) ∧
    UrlSpec.parse qs = present_entries [("page", VNum 1); ("keywords", VNull)] ∧
    ∀ k s, (k, s) ∈ UrlSpec.parse qs ↔
           ∃ v, (k, v) ∈ [("page", VNum 1); ("keywords", VNull)]
                ∧ nullish v = false ∧ s = ToString v.
Proof.
  apply (proj2 (proj2 (buildUrl_query example_cfg "bugs"))). discriminate.
Defined.

(** ** Configuration fallback *)

Lemma loadEnvLine_assign env line :
  loadEnvLine env line
  = match line_assignment line with
    | Some kv => assign_if_unset env kv
    | None => env
    end.
Proof.
  unfold loadEnvLine, line_assignment, assign_if_unset.
  destruct (envRegex_exec line) as [caps|]; [|done].
  by destruct (caps !! 2%nat).
Qed.

Lemma fold_loadEnvLine lines env :
  fold_left loadEnvLine lines env
  = fold_left assign_if_unset (omap line_assignment lines) env.
Proof.
  revert env. induction lines as [|line lines IH]; intros env; [done|].
  simpl. rewrite IH, loadEnvLine_assign.
  by destruct (line_assignment line).
Qed.

Lemma loadEnvFallback_scan fs cwd homedir env :
  loadEnvFallback fs cwd homedir env
  = fold_left assign_if_unset (scan_assignments fs cwd homedir) env.
Proof.
  unfold loadEnvFallback, scan_assignments. simpl.
  rewrite !omap_app, !fold_left_app.
  unfold loadEnvFile.
  repeat match goal with
         | |- context [fs ?f] => destruct (fs f); simpl
         end;
    by rewrite ?fold_loadEnvLine.
Qed.

Lemma fold_assign_lookup assignments env key :
  fold_left assign_if_unset assignments env !! key
  = settled (env !! key) (values_for key assignments).
Proof.
  revert env. induction assignments as [|[k v] rest IH]; intros env.
  - simpl. unfold settled, values_for. simpl.
    destruct (env !! key) as [x|]; [|done]. by destruct x.
  - simpl. rewrite IH. unfold values_for. rewrite filter_cons. simpl.
    unfold assign_if_unset, env_unset. simpl.
    destruct (decide (k = key)) as [->|Hne].
    + destruct (env !! key) as [x|] eqn:E; simpl.
      * destruct x as [|c x]; simpl.
        -- rewrite lookup_insert_eq. simpl.
           destruct v; simpl; [|done].
           by destruct (first_nonempty _).
        -- by rewrite E.
      * rewrite lookup_insert_eq. simpl.
        destruct v; simpl; [|done].
        by destruct (first_nonempty _).
    + destruct (env !! k) as [x|]; [destruct (Str.is_empty x)|];
        by rewrite ?lookup_insert_ne.
Qed.

(** C4, as stated, fails on the code: a variable that is set, but to the empty
    string, is overwritten by the scan; and a first file match with an empty
    value loses to a later match. *)
Lemma loadEnvFallback_empty_counterexample :
  (let env : gmap string string := {[ "ZENTAO_ACCOUNT" := EmptyString ]} in
   let fs := example_fs [("/work/.env", "ZENTAO_ACCOUNT=bob")] in
   env !! "ZENTAO_ACCOUNT" = Some EmptyString ∧
   loadEnvFallback fs "/work" "/home/u" env !! "ZENTAO_ACCOUNT" = Some "bob") ∧
  (let fs := example_fs [("/work/.env", "ZENTAO_ACCOUNT=");
                         ("/home/u/.env", "export ZENTAO_ACCOUNT='carol'")] in
   loadEnvFallback fs "/work" "/home/u" ∅ !! "ZENTAO_ACCOUNT" = Some "carol").
Proof. split; [split|]; vm_compute; reflexivity. Qed.

(** C4, amended.  For every candidate file and every line of it that the
    pattern parses, the resolver sets the variable only if it is unset or
    empty at that moment.  So every key whose value pre-exists the scan and is
    not empty keeps that value; a key that is touched at all was unset or
    empty before the scan; and a key that is unset or empty ends with the
    first non-empty value assigned to it in scan order (the empty string
    if all the values assigned to it are empty, and what it had if none is
    assigned).  The precedence is: non-empty pre-existing environment, then
    the first non-empty file match in scan order.  The sample lines show the
    optional [export] prefix and the optional quotes of a parsed line. *)
Theorem loadEnvFallback_precedence fs cwd homedir env :
  (∀ key v, env !! key = Some v -> v ≠ EmptyString ->
     loadEnvFallback fs cwd homedir env !! key = Some v) ∧
  (∀ key, loadEnvFallback fs cwd homedir env !! key ≠ env !! key ->
     env_unset env key = true) ∧
  (∀ key, loadEnvFallback fs cwd homedir env !! key
          = settled (env !! key) (values_for key (scan_assignments fs cwd homedir))) ∧
  line_assignment "ZENTAO_ACCOUNT=bob" = Some ("ZENTAO_ACCOUNT", "bob") ∧
  line_assignment "  export ZENTAO_ACCOUNT = 'carol' " = Some ("ZENTAO_ACCOUNT", "carol") ∧
  line_assignment ("export ZENTAO_BASE_URL=" +:+ dq +:+ "https://z.example/" +:+ dq)
    = Some ("ZENTAO_BASE_URL", "https://z.example/") ∧
  line_assignment "# no assignment here" = None.
Proof.
  assert (∀ key, loadEnvFallback fs cwd homedir env !! key
             = settled (env !! key)
                 (values_for key (scan_assignments fs cwd homedir))) as Hfinal.
  { intros key. rewrite loadEnvFallback_scan. apply fold_assign_lookup. }
  split; [|split; [|split; [exact Hfinal | repeat split; vm_compute; reflexivity]]].
  - intros key v Hv Hne. rewrite Hfinal, Hv. simpl. by destruct v.
  - intros key Hchg. rewrite Hfinal in Hchg. unfold env_unset.
    destruct (env !! key) as [x|]; [|done].
    destruct x; [done|]. simpl in Hchg. done.
Qed.

(** A non-empty variable of the environment survives a file that assigns it. *)
Lemma loadEnvFallback_precedence_witness :
  loadEnvFallback (example_fs [("/work/.env", "ZENTAO_ACCOUNT=bob")])
    "/work" "/home/u" {[ "ZENTAO_ACCOUNT" := "alice" ]} !! "ZENTAO_ACCOUNT"
  = Some "alice".
Proof.
  apply (proj1 (loadEnvFallback_precedence _ _ _ _)); [reflexivity | discriminate].
Defined.

(** ** Token cache and request executor *)

Lemma lookup_set_prop name k v props :
  lookup_prop name (set_prop k v props)
  = if Str.eqb k name then Some v else lookup_prop name props.
Proof.
  induction props as [|[k' v'] props IH]; simpl; [done|].
  unfold Str.eqb in *.
  destruct (decide (k' = k)) as [->|Hk].
  - rewrite bool_decide_eq_true_2 by done. simpl. unfold Str.eqb.
    by destruct (bool_decide (k = name)).
  - rewrite bool_decide_eq_false_2 by done. simpl. unfold Str.eqb.
    rewrite IH.
    destruct (decide (k' = name)) as [->|Hn].
    + rewrite bool_decide_eq_true_2 by done.
      by rewrite (bool_decide_eq_false_2 (k = name)) by congruence.
    + by rewrite (bool_decide_eq_false_2 (k' = name)) by done.
Qed.

Lemma lookup_fold_set_prop name kvs base :
  lookup_prop name (fold_left (fun o kv => set_prop kv.1 kv.2 o) kvs base)
  = match last_write name kvs with
    | Some v => Some v
    | None => lookup_prop name base
    end.
Proof.
  unfold last_write. revert base.
  induction kvs as [|[k v] kvs IH]; intros base; [done|].
  simpl. rewrite IH, lookup_set_prop.
  assert (∀ l, lookup_prop name (l ++ [(k, v)])
               = match lookup_prop name l with
                 | Some x => Some x
                 | None => if Str.eqb k name then Some v else None
                 end) as ->.
  { induction l as [|[k' v'] l IHl]; simpl; [done|].
    by destruct (Str.eqb k' name). }
  destruct (lookup_prop name (rev kvs)); [done|].
  by destruct (Str.eqb k name).
Qed.

Section Executor.

Variable cfg : Config.
Variable JSON_parse : string -> option value.
Variable JSON_stringify : value -> string.
Variable remote : nat -> Request -> fetch_result.

Local Abbreviation fetchToken_ := (fetchToken cfg JSON_parse JSON_stringify remote).
Local Abbreviation callZenTao_ := (callZenTao cfg JSON_parse JSON_stringify remote).
Local Abbreviation api_request_ := (api_request JSON_stringify).

(** The steps of [callZenTao], one [match] per step. *)
Lemma callZenTao_run d st :
  callZenTao_ d st =
  match assertConfig cfg with
  | Raise e => (Raise e, st)
  | Ok _ =>
      match fetchToken_ (default_arg (d_forceTokenRefresh d) (VBool false)) st with
      | (Raise e, st1) => (Raise e, st1)
      | (Ok token, st1) =>
          match buildUrl cfg (d_path d) (d_query d) with
          | Raise e => (Raise e, st1)
          | Ok url =>
              let req := api_request_ d token url in
              match remote (length (sent st1)) req with
              | Rejects => (Raise JsTypeError, with_request st1 req)
              | Responds res =>
                  if ok res
                  then (Ok (envelope_of JSON_parse res), with_request st1 req)
                  else (Raise (JsError (request_failed res)), with_request st1 req)
              end
          end
      end
  end.
Proof.
  unfold callZenTao, bind, lift.
  destruct (assertConfig cfg); [|done].
  destruct (fetchToken_ _ st) as [[token|e] st1]; [|done].
  destruct (buildUrl cfg _ _) as [url|e]; [|done].
  unfold fetch, with_request. simpl.
  destruct (remote _ _) as [res|]; [|done].
  by destruct (ok res).
Qed.

(** The zero-latency path of [fetchToken]. *)
Lemma fetchToken_cached_path st forceRefresh :
  truthy (cachedToken st) = true ->
  truthy forceRefresh = false ->
  fetchToken_ forceRefresh st = (Ok (cachedToken st), st).
Proof.
  intros Hc Hf. unfold fetchToken, bind, read_cachedToken. simpl.
  by rewrite Hc, Hf.
Qed.

(** A successful login exchange from an empty cache. *)
Lemma fetchToken_login st forceRefresh res :
  truthy (cachedToken st) && negb (truthy forceRefresh) = false ->
  assertConfig cfg = Ok tt ->
  remote (length (sent st)) (token_request cfg JSON_stringify) = Responds res ->
  ok res = true ->
  truthy (get_opt (safeJson JSON_parse (body_text res)) "token") = true ->
  fetchToken_ forceRefresh st
  = (Ok (prop (safeJson JSON_parse (body_text res)) "token"),
     {| cachedToken := prop (safeJson JSON_parse (body_text res)) "token";
        sent := sent st ++ [token_request cfg JSON_stringify] |}).
Proof.
  intros Hc Hcfg Hrem Hok Htok.
  unfold fetchToken, bind, read_cachedToken, lift, fetch. simpl.
  rewrite Hc, Hcfg, Hrem. simpl. rewrite Hok, Htok. simpl.
  unfold get. unfold get_opt in Htok.
  destruct (nullish (safeJson JSON_parse (body_text res))); [done|].
  reflexivity.
Qed.

Lemma api_request_has_token d token url :
  is_Some (lookup_prop "Token" (req_headers (api_request_ d token url))).
Proof.
  unfold api_request, spread_into. simpl.
  rewrite lookup_fold_set_prop.
  destruct (last_write _ _); [by eexists|]. by eexists.
Qed.

Lemma api_request_not_login d token url :
  is_login_exchange cfg (api_request_ d token url) = false.
Proof.
  unfold is_login_exchange.
  destruct (api_request_has_token d token url) as [v ->].
  by rewrite andb_false_r.
Qed.

(** With a token in the cache and no forced refresh, [callZenTao] sends at
    most its own request and leaves the cache alone. *)
Lemma callZenTao_cached d st :
  truthy (cachedToken st) = true ->
  truthy (default_arg (d_forceTokenRefresh d) (VBool false)) = false ->
  ∃ new,
    sent (callZenTao_ d st).2 = sent st ++ new ∧
    login_count cfg new = 0%nat ∧
    cachedToken (callZenTao_ d st).2 = cachedToken st.
Proof.
  intros Hc Hf. rewrite callZenTao_run.
  destruct (assertConfig cfg).
  2: { exists []. by rewrite app_nil_r. }
  rewrite fetchToken_cached_path by done.
  destruct (buildUrl cfg _ _) as [url|e].
  2: { exists []. by rewrite app_nil_r. }
  exists [api_request_ d (cachedToken st) url].
  assert (login_count cfg [api_request_ d (cachedToken st) url] = 0%nat) as Hl.
  { unfold login_count. rewrite filter_cons, api_request_not_login. done. }
  simpl. destruct (remote _ _) as [res|]; [destruct (ok res)|]; done.
Qed.

(** C1, amended.  In every state in which a cached token is present and
    [forceRefresh] is false, [fetchToken] returns the cached token and leaves
    the whole state as it was: no request is sent (no login exchange) and the
    cached token is unchanged.  Consequently, from an empty cache and with a
    login exchange that succeeds, two sequential authenticated calls with no
    forced refresh send exactly one login exchange: the first thing sent,
    with no other among all the requests that follow.  From a state in which
    a token is already cached they send no login exchange at all. *)
Theorem fetchToken_caches :
  (∀ st forceRefresh,
     truthy (cachedToken st) = true ->
     truthy forceRefresh = false ->
     fetchToken_ forceRefresh st = (Ok (cachedToken st), st)) ∧
  (∀ st d1 d2 res,
     truthy (cachedToken st) = false ->
     truthy (default_arg (d_forceTokenRefresh d1) (VBool false)) = false ->
     truthy (default_arg (d_forceTokenRefresh d2) (VBool false)) = false ->
     assertConfig cfg = Ok tt ->
     remote (length (sent st)) (token_request cfg JSON_stringify) = Responds res ->
     ok res = true ->
     truthy (get_opt (safeJson JSON_parse (body_text res)) "token") = true ->
     ∃ new,
       sent (callZenTao_ d2 (callZenTao_ d1 st).2).2
         = sent st ++ token_request cfg JSON_stringify :: new ∧
       login_count cfg new = 0%nat ∧
       login_count cfg (token_request cfg JSON_stringify :: new) = 1%nat) ∧
  (∀ st d1 d2,
     truthy (cachedToken st) = true ->
     truthy (default_arg (d_forceTokenRefresh d1) (VBool false)) = false ->
     truthy (default_arg (d_forceTokenRefresh d2) (VBool false)) = false ->
     ∃ new,
       sent (callZenTao_ d2 (callZenTao_ d1 st).2).2 = sent st ++ new ∧
       login_count cfg new = 0%nat).
Proof.
  split; [apply fetchToken_cached_path|]. split.
  2: { intros st d1 d2 Hc Hf1 Hf2.
       destruct (callZenTao_cached d1 st Hc Hf1) as (new1 & Hs1 & Hl1 & Hc1).
       destruct (callZenTao_cached d2 (callZenTao_ d1 st).2) as (new2 & Hs2 & Hl2 & _);
         [by rewrite Hc1 | done |].
       exists (new1 ++ new2). rewrite Hs2, Hs1, <- app_assoc. split; [done|].
       unfold login_count in *. rewrite filter_app, length_app. lia. }
  intros st d1 d2 res Hempty Hf1 Hf2 Hcfg Hrem Hok Htok.
  set (tok := prop (safeJson JSON_parse (body_text res)) "token").
  set (st1 := {| cachedToken := tok;
                 sent := sent st ++ [token_request cfg JSON_stringify] |}).
  assert (truthy tok = true) as Htruthy.
  { unfold tok. unfold get_opt in Htok.
    by destruct (nullish (safeJson JSON_parse (body_text res))). }
  assert (∃ new1, sent (callZenTao_ d1 st).2 = sent st1 ++ new1 ∧
                  login_count cfg new1 = 0%nat ∧
                  cachedToken (callZenTao_ d1 st).2 = tok) as (new1 & Hs1 & Hl1 & Hc1).
  { rewrite callZenTao_run, Hcfg.
    rewrite (fetchToken_login st _ res) by (by rewrite ?Hempty).
    fold tok. fold st1.
    destruct (buildUrl cfg _ _) as [url|e].
    2: { exists []. by rewrite app_nil_r. }
    exists [api_request_ d1 tok url].
    assert (login_count cfg [api_request_ d1 tok url] = 0%nat) as Hl.
    { unfold login_count. rewrite filter_cons, api_request_not_login. done. }
    clear Hrem. simpl.
    destruct (remote _ _) as [r|]; [destruct (ok r)|]; by subst st1. }
  destruct (callZenTao_cached d2 (callZenTao_ d1 st).2) as (new2 & Hs2 & Hl2 & _).
  { by rewrite Hc1. }
  { done. }
  exists (new1 ++ new2). rewrite Hs2, Hs1. unfold st1. simpl.
  rewrite <- !app_assoc. split; [done|].
  assert (login_count cfg (new1 ++ new2) = 0%nat) as Hl.
  { unfold login_count in *. rewrite filter_app, length_app. lia. }
  split; [done|].
  unfold login_count in *. rewrite filter_cons.
  assert (is_login_exchange cfg (token_request cfg JSON_stringify) = true) as ->.
  { unfold is_login_exchange, token_request, Str.eqb. simpl.
    by rewrite !bool_decide_eq_true_2. }
  simpl. by rewrite Hl.
Qed.

Lemma contains_middle a b c : contains (a +:+ b +:+ c) b.
Proof. by exists a, c. Qed.

Lemma contains_end a b : contains (a +:+ b) b.
Proof. exists a, EmptyString. by rewrite append_empty_r. Qed.

Lemma contains_empty a : contains a EmptyString.
Proof. by exists EmptyString, a. Qed.

Lemma contains_after a b c : contains b c -> contains (a +:+ b) c.
Proof.
  intros (x & y & ->). exists (a +:+ x), y. by rewrite append_assoc.
Qed.

(** C5. The executor sets the JSON content-type header and the token header
    first and applies the caller's headers after them, the last write to a
    header name winning.  So, in the request that is sent, every header name
    the caller supplies carries the caller's (last) value, the names [Token]
    and [Content-Type] included, and a name the caller does not supply keeps
    what the executor set. *)
Theorem callZenTao_caller_headers_win d st token st1 url kvs :
  d_headers d = VObj kvs ->
  assertConfig cfg = Ok tt ->
  fetchToken_ (default_arg (d_forceTokenRefresh d) (VBool false)) st = (Ok token, st1) ->
  buildUrl cfg (d_path d) (d_query d) = Ok url ->
  ∃ req,
    sent (callZenTao_ d st).2 = sent st1 ++ [req] ∧
    req_url req = url ∧
    (∀ name,
       lookup_prop name (req_headers req)
       = match last_write name kvs with
         | Some v => Some v
         | None =>
             lookup_prop name
               [("Content-Type", VStr "application/json"); ("Token", token)]
         end) ∧
    (∀ v, last_write "Token" kvs = Some v ->
          lookup_prop "Token" (req_headers req) = Some v) ∧
    (∀ v, last_write "Content-Type" kvs = Some v ->
          lookup_prop "Content-Type" (req_headers req) = Some v) ∧
    (last_write "Token" kvs = None ->
     lookup_prop "Token" (req_headers req) = Some token) ∧
    (last_write "Content-Type" kvs = None ->
     lookup_prop "Content-Type" (req_headers req) = Some (VStr "application/json")).
Proof.
  intros Hh Hcfg Htok Hurl.
  exists (api_request_ d token url).
  assert (∀ name,
            lookup_prop name (req_headers (api_request_ d token url))
            = match last_write name kvs with
              | Some v => Some v
              | None =>
                  lookup_prop name
                    [("Content-Type", VStr "application/json"); ("Token", token)]
              end) as Hlook.
  { intros name. unfold api_request, spread_into. simpl.
    rewrite Hh. simpl. apply lookup_fold_set_prop. }
  split; [|split; [done|split; [exact Hlook|repeat split]]].
  - rewrite callZenTao_run, Hcfg, Htok, Hurl. simpl.
    destruct (remote _ _) as [res|]; [destruct (ok res)|]; done.
  - intros v Hv. by rewrite Hlook, Hv.
  - intros v Hv. by rewrite Hlook, Hv.
  - intros Hv. by rewrite Hlook, Hv.
  - intros Hv. by rewrite Hlook, Hv.
Qed.

(** C8. When the HTTP status of the response indicates failure, the executor
    returns no envelope: it throws an error whose message carries the status
    code and the raw body text.  In particular a response with status 500 and
    body [boom] gives the message [Request failed 500: boom]. *)
Theorem callZenTao_http_failure d st token st1 url res :
  assertConfig cfg = Ok tt ->
  fetchToken_ (default_arg (d_forceTokenRefresh d) (VBool false)) st = (Ok token, st1) ->
  buildUrl cfg (d_path d) (d_query d) = Ok url ->
  remote (length (sent st1)) (api_request_ d token url) = Responds res ->
  ok res = false ->
  ∃ msg,
    (callZenTao_ d st).1 = Raise (JsError msg) ∧
    contains msg (pretty (status res)) ∧
    contains msg (body_text res) ∧
    (body_text res ≠ EmptyString ->
     msg = "Request failed " +:+ pretty (status res) +:+ ": " +:+ body_text res) ∧
    (status res = 500 -> body_text res = "boom" ->
     msg = "Request failed 500: boom" ∧ contains msg "500" ∧ contains msg "boom").
Proof.
  intros Hcfg Htok Hurl Hrem Hok.
  exists (request_failed res). split.
  { by rewrite callZenTao_run, Hcfg, Htok, Hurl; simpl; rewrite Hrem, Hok. }
  assert (body_text res ≠ EmptyString ->
          request_failed res
          = "Request failed " +:+ pretty (status res) +:+ ": " +:+ body_text res)
    as Hmsg.
  { intros Hne. unfold request_failed. by destruct (body_text res). }
  split; [apply contains_middle|]. split; [|split; [exact Hmsg|]].
  - destruct (body_text res) as [|c t] eqn:E; [apply contains_empty|].
    rewrite Hmsg by done.
    do 3 apply contains_after. exists EmptyString, EmptyString.
    by rewrite append_empty_r.
  - intros Hs Hb. rewrite Hmsg by (by rewrite Hb). rewrite Hs, Hb.
    split; [reflexivity|]. split.
    + by exists "Request failed ", ": boom".
    + by exists "Request failed 500: ", EmptyString.
Qed.

End Executor.

(** *** Concrete runs *)

(** C1, as stated, fails on the code: two sequential calls send no login
    exchange at all when a token is already cached (seeded from the
    environment, say), and they send two when the first login exchange
    fails. *)
Lemma fetchToken_login_count_counterexample :
  login_count example_cfg
    (sent (callZenTao example_cfg example_parse example_stringify login_then_lists
             (get_descriptor "projects" VUndefined)
             (callZenTao example_cfg example_parse example_stringify login_then_lists
                (get_descriptor "/departments" VUndefined) seeded_state).2).2)
  = 0%nat ∧
  login_count example_cfg
    (sent (callZenTao example_cfg example_parse example_stringify always_boom
             (get_descriptor "projects" VUndefined)
             (callZenTao example_cfg example_parse example_stringify always_boom
                (get_descriptor "/departments" VUndefined) fresh_state).2).2)
  = 2%nat.
Proof. split; vm_compute; reflexivity. Qed.

(** Two calls from a fresh state: one login exchange, then the two requests. *)
Lemma fetchToken_caches_witness :
  ∃ new,
    sent (callZenTao example_cfg example_parse example_stringify login_then_lists
            (get_descriptor "projects" VUndefined)
            (callZenTao example_cfg example_parse example_stringify login_then_lists
               (get_descriptor "/departments" VUndefined) fresh_state).2).2
    = sent fresh_state ++ token_request example_cfg example_stringify :: new ∧
    login_count example_cfg new = 0%nat ∧
    login_count example_cfg (token_request example_cfg example_stringify :: new) = 1%nat.
Proof.
  apply (proj1 (proj2 (fetchToken_caches example_cfg example_parse
                         example_stringify login_then_lists))
           fresh_state (get_descriptor "/departments" VUndefined)
           (get_descriptor "projects" VUndefined)
           {| status := 200; statusText := "OK"; body_text := login_body;
              resp_headers := [] |});
    reflexivity.
Defined.

Lemma callZenTao_caller_headers_win_witness :
  ∃ req,
    sent (callZenTao example_cfg example_parse example_stringify login_then_lists
            override_descriptor logged_in_state).2
    = sent logged_in_state ++ [req] ∧
    req_url req = "https://zentao.example/api.php/v1/projects" ∧
    lookup_prop "Token" (req_headers req) = Some (VStr "other") ∧
    lookup_prop "Content-Type" (req_headers req) = Some (VStr "application/json").
Proof.
  destruct (callZenTao_caller_headers_win example_cfg example_parse
              example_stringify login_then_lists override_descriptor
              logged_in_state (VStr "t-1") logged_in_state
              "https://zentao.example/api.php/v1/projects"
              [("Token", VStr "other"); ("X-Trace", VStr "1")]
              eq_refl eq_refl eq_refl eq_refl)
    as (req & Hsent & Hurl & _ & Htoken & _ & _ & Hct).
  exists req. split; [exact Hsent|]. split; [exact Hurl|].
  split; [exact (Htoken (VStr "other") eq_refl) | exact (Hct eq_refl)].
Defined.

Lemma callZenTao_http_failure_witness :
  ∃ msg,
    (callZenTao example_cfg example_parse example_stringify always_boom
       (get_descriptor "/departments" VUndefined) logged_in_state).1
    = Raise (JsError msg) ∧
    msg = "Request failed 500: boom" ∧ contains msg "500" ∧ contains msg "boom".
Proof.
  destruct (callZenTao_http_failure example_cfg example_parse example_stringify
              always_boom (get_descriptor "/departments" VUndefined)
              logged_in_state (VStr "t-1") logged_in_state
              "https://zentao.example/api.php/v1/departments"
              {| status := 500; statusText := "Internal Server Error";
                 body_text := "boom"; resp_headers := [] |}
              eq_refl eq_refl eq_refl eq_refl eq_refl)
    as (msg & Hres & _ & _ & _ & Hboom).
  exists msg. split; [exact Hres|]. exact (Hboom eq_refl eq_refl).
Defined.

(** ** Product resolution *)

Lemma is_object_get p k : is_object p = true -> get p k = Ok (prop p k).
Proof. by destruct p. Qed.

Lemma is_object_truthy p : is_object p = true -> truthy p = true.
Proof. by destruct p. Qed.

Lemma findR_first q before p after :
  Forall (fun c => is_object c = true) (before ++ p :: after) ->
  Forall (fun c => name_matches q c = false) before ->
  name_matches q p = true ->
  findR (fun p =>
           let? pname := get p "name" in
           let? q' := toLowerCase_of (VStr q) in
           Ok (Str.eqb (Str.toLowerCase (ToString (or_else pname (VStr EmptyString)))) q'))%result
        (before ++ p :: after) = Ok (Some p).
Proof.
  intros Hobj Hb Hp. induction Hb as [|c before Hc _ IH]; simpl.
  - apply Forall_cons in Hobj as [Ho _].
    rewrite (is_object_get _ _ Ho). simpl.
    unfold name_matches in Hp. by rewrite Hp.
  - apply Forall_cons in Hobj as [Ho Hobj].
    rewrite (is_object_get _ _ Ho). simpl.
    unfold name_matches in Hc. rewrite Hc. by apply IH.
Qed.

Lemma findR_none q candidates :
  Forall (fun c => is_object c = true) candidates ->
  Forall (fun c => name_matches q c = false) candidates ->
  findR (fun p =>
           let? pname := get p "name" in
           let? q' := toLowerCase_of (VStr q) in
           Ok (Str.eqb (Str.toLowerCase (ToString (or_else pname (VStr EmptyString)))) q'))%result
        candidates = Ok None.
Proof.
  intros Hobj Hn. induction Hn as [|c candidates Hc _ IH]; simpl; [done|].
  apply Forall_cons in Hobj as [Ho Hobj].
  rewrite (is_object_get _ _ Ho). simpl.
  unfold name_matches in Hc. rewrite Hc. by apply IH.
Qed.

Lemma mapR_id_and_name candidates :
  Forall (fun c => is_object c = true) candidates ->
  mapR (fun p =>
          let? id := get p "id" in
          let? name := get p "name" in
          Ok (ToString id +:+ ":" +:+ ToString name))%result candidates
  = Ok (map id_and_name candidates).
Proof.
  induction 1 as [|c candidates Ho _ IH]; simpl; [done|].
  rewrite !(is_object_get _ _ Ho). simpl. by rewrite IH.
Qed.

Lemma join_contains sep l x : x ∈ l -> contains (Str.join sep l) x.
Proof.
  induction l as [|y l IH]; [by intros ?%elem_of_nil|].
  intros [->|Hin]%elem_of_cons.
  - destruct l as [|z l].
    + exists EmptyString, EmptyString. simpl. by rewrite append_empty_r.
    + by exists EmptyString, (sep +:+ Str.join sep (z :: l)).
  - destruct l as [|z l]; [by apply elem_of_nil in Hin|].
    change (Str.join sep (y :: z :: l))
      with (y +:+ sep +:+ Str.join sep (z :: l)).
    do 2 apply contains_after. by apply IH.
Qed.

Lemma pretty_N_go_digits x s :
  all_digits s = true -> all_digits (pretty_N_go x s) = true.
Proof.
  revert s. induction (N.lt_wf_0 x) as [x _ IH]; intros s Hs.
  assert (x = 0 ∨ 0 < x)%N as [->|Hpos] by lia.
  - by rewrite pretty_N_go_0.
  - rewrite pretty_N_go_step by done. apply IH; [by apply N.div_lt|].
    simpl. rewrite Hs, andb_true_r.
    unfold pretty_N_char. by repeat case_match.
Qed.

Lemma pretty_nat_digits (i : nat) : all_digits (pretty i) = true.
Proof.
  unfold pretty, pretty_nat, pretty, pretty_N.
  case_decide; [done|]. by apply pretty_N_go_digits.
Qed.

Lemma lookup_indexed_not_index k l :
  all_digits k = false -> lookup_prop k (indexed l) = None.
Proof.
  intros Hk. unfold indexed.
  assert (∀ g : nat -> nat,
            lookup_prop k (imap (fun i x => (pretty (g i), x)) l) = None) as H.
  { induction l as [|x l IH]; intros g; simpl; [done|].
    unfold Str.eqb. rewrite bool_decide_eq_false_2.
    - apply (IH (g ∘ S)).
    - intros E. pose proof (pretty_nat_digits (g 0%nat)) as Hd.
      rewrite E in Hd. congruence. }
  apply (H id).
Qed.

Lemma prop_name_of_non_object p :
  is_object p = false -> nullish p = false -> prop p "name" = VUndefined.
Proof.
  destruct p as [| |b|n|s|l|props]; try done; intros _ _; simpl.
  - by rewrite lookup_indexed_not_index.
  - by rewrite lookup_indexed_not_index.
Qed.

Lemma filterR_Forall {A} (f : A -> result bool) (P : A -> Prop) l r :
  (∀ x, f x = Ok true -> P x) ->
  filterR f l = Ok r -> Forall P r.
Proof.
  intros Hf. revert r. induction l as [|x l IH]; intros r; simpl.
  - intros [= <-]. constructor.
  - destruct (f x) as [b|e] eqn:E; simpl; [|done].
    destruct (filterR f l) as [r'|e]; simpl; [|done].
    intros [= <-]. destruct b; [constructor|]; auto.
Qed.

Lemma toLowerCase_empty s : Str.toLowerCase s = EmptyString -> s = EmptyString.
Proof. by destruct s. Qed.

(** With a non-empty keyword, only objects pass the name filter of
    [listProducts]. *)
Lemma listProducts_objects cfg JSON_parse JSON_stringify remote q limit st candidates st' :
  q ≠ EmptyString ->
  listProducts cfg JSON_parse JSON_stringify remote (VStr q) limit st
    = (Ok candidates, st') ->
  Forall (fun c => is_object c = true) candidates.
Proof.
  intros Hq. unfold listProducts, bind.
  destruct (callZenTao _ _ _ _ _ st) as [[res|e] st1]; [|done].
  unfold lift, ret.
  assert (truthy (VStr q) = true) as -> by by destruct q.
  destruct (filterR _ _) as [filtered|e] eqn:E; [|done].
  intros [= <- _].
  assert (Forall (fun c => is_object c = true) filtered) as Hall.
  { eapply filterR_Forall; [|exact E].
    intros p. unfold get.
    destruct (nullish p) eqn:Hn; [done|]. simpl.
    destruct (is_object p) eqn:Ho; [done|].
    rewrite (prop_name_of_non_object p Ho Hn). simpl.
    destruct (Str.toLowerCase q) eqn:El; [by apply toLowerCase_empty in El|].
    done. }
  unfold slice_to. destruct (limit <? 0)%Z; by apply Forall_take.
Qed.

(** C2, as stated, fails on the code: with the candidates [Foo] and [Foobar]
    the query [Foo] is an exact match of the first, so resolution succeeds
    with it instead of failing; and with two exact matches resolution
    succeeds with the first of them. *)
Lemma resolveProduct_exact_counterexample :
  resolveProduct (VStr "Foo") [product_foo; product_foobar]
    = Ok (product_foo, [product_foo; product_foobar]) ∧
  truthy product_foo = true ∧
  (findProductByName example_cfg products_parse example_stringify products_remote
     (VStr "Foo") logged_in_state).1
    = Ok (product_foo, [product_foo; product_foobar]) ∧
  resolveProduct (VStr "Foo") [product_foo; product_foo_lower; product_foobar]
    = Ok (product_foo, [product_foo; product_foo_lower; product_foobar]).
Proof. repeat split; vm_compute; reflexivity. Qed.

Section Resolution.

Variable cfg : Config.
Variable JSON_parse : string -> option value.
Variable JSON_stringify : value -> string.
Variable JSON_stringify_indent : value -> string.
Variable remote : nat -> Request -> fetch_result.

Local Abbreviation findProductByName_ :=
  (findProductByName cfg JSON_parse JSON_stringify remote).
Local Abbreviation listProducts_ :=
  (listProducts cfg JSON_parse JSON_stringify remote).
Local Abbreviation tool_getMyBug_ :=
  (tool_getMyBug cfg JSON_parse JSON_stringify JSON_stringify_indent remote).

(** C2, amended.  For every list of keyword-filtered product candidates
    (objects, as every candidate that passes the keyword filter is) and every
    query name: resolution succeeds with the first
    candidate whose name equals the query case-insensitively, if there is
    one, and otherwise with the only candidate if there is exactly one
    candidate overall; in every other case the product is left undefined and
    [getMyBug] fails, with the not-found error when there is no candidate and
    otherwise with the disambiguation error that lists every candidate as
    [id:name].  In particular the single candidate [Foo] resolves for the
    query [Foo]; the candidates [Foo] and [Foobar] resolve to [Foo] for the
    query [Foo]; and for the query [fo] they fail with an error that reports
    both names. *)
Theorem resolveProduct_outcomes :
  (∀ q candidates,
     Forall (fun c => is_object c = true) candidates ->
     (∀ before p after,
        candidates = before ++ p :: after ->
        Forall (fun c => name_matches q c = false) before ->
        name_matches q p = true ->
        resolveProduct (VStr q) candidates = Ok (p, candidates) ∧ truthy p = true) ∧
     (Forall (fun c => name_matches q c = false) candidates ->
      ∀ p, candidates = [p] ->
        resolveProduct (VStr q) candidates = Ok (p, candidates) ∧ truthy p = true) ∧
     (Forall (fun c => name_matches q c = false) candidates ->
      length candidates ≠ 1%nat ->
      resolveProduct (VStr q) candidates = Ok (VUndefined, candidates) ∧
      ∃ msg,
        product_not_resolved (VStr q) candidates = Ok (JsError msg) ∧
        (candidates = [] -> msg = "No product matched " +:+ dq +:+ q +:+ dq) ∧
        (candidates ≠ [] ->
         msg = "Multiple products matched " +:+ dq +:+ q +:+ dq
               +:+ ", please specify one of: "
               +:+ Str.join ", " (map id_and_name candidates)) ∧
        (∀ p, p ∈ candidates -> contains msg (id_and_name p)))) ∧
  (∀ name candidates st st',
     truthy name = true ->
     listProducts_ name 50 st = (Ok candidates, st') ->
     findProductByName_ name st = (resolveProduct name candidates, st')) ∧
  (∀ q candidates st st',
     q ≠ EmptyString ->
     listProducts_ (VStr q) 50 st = (Ok candidates, st') ->
     Forall (fun c => is_object c = true) candidates) ∧
  (∀ productName keyword status allStatuses product matches e st st',
     findProductByName_ productName st = (Ok (product, matches), st') ->
     truthy product = false ->
     product_not_resolved productName matches = Ok e ->
     tool_getMyBug_ productName keyword status allStatuses st = (Raise e, st')) ∧
  resolveProduct (VStr "Foo") [product_foo] = Ok (product_foo, [product_foo]) ∧
  resolveProduct (VStr "Foo") [product_foo; product_foobar]
    = Ok (product_foo, [product_foo; product_foobar]) ∧
  resolveProduct (VStr "fo") [product_foo; product_foobar]
    = Ok (VUndefined, [product_foo; product_foobar]) ∧
  product_not_resolved (VStr "fo") [product_foo; product_foobar]
    = Ok (JsError ("Multiple products matched " +:+ dq +:+ "fo" +:+ dq
                     +:+ ", please specify one of: 1:Foo, 2:Foobar")).
Proof.
  split; [|split; [|split; [|split; [|repeat split; vm_compute; reflexivity]]]].
  - intros q candidates Hobj. split; [|split].
    + intros before p after -> Hb Hp. unfold resolveProduct.
      rewrite (findR_first q before p after Hobj Hb Hp). simpl.
      assert (truthy p = true) as Ht.
      { apply is_object_truthy.
        apply Forall_app in Hobj as [_ Hobj].
        by apply Forall_cons in Hobj as [? _]. }
      by rewrite Ht.
    + intros Hn p ->. unfold resolveProduct.
      rewrite (findR_none q [p] Hobj Hn). simpl.
      split; [done|]. apply is_object_truthy.
      by apply Forall_cons in Hobj as [? _].
    + intros Hn Hlen. unfold resolveProduct.
      rewrite (findR_none q candidates Hobj Hn). simpl.
      assert ((length candidates =? 1)%nat = false) as Hl
          by by apply Nat.eqb_neq.
      rewrite Hl. split; [done|].
      unfold product_not_resolved. rewrite (mapR_id_and_name _ Hobj). simpl.
      eexists. split; [reflexivity|]. split; [|split].
      * by intros ->.
      * intros Hne. by destruct candidates.
      * intros p Hp. destruct candidates as [|c candidates];
          [by apply elem_of_nil in Hp|].
        cbn [length Nat.eqb].
        do 5 apply contains_after. apply join_contains.
        by apply list_elem_of_fmap_2.
  - intros name candidates st st' Hname Hlist.
    unfold findProductByName. rewrite Hname. simpl.
    unfold bind. rewrite Hlist. reflexivity.
  - intros q candidates st st' Hq Hlist. by eapply listProducts_objects.
  - intros productName keyword status allStatuses product matches e st st'
      Hfind Hfalsy Hmsg.
    unfold tool_getMyBug, bind. rewrite Hfind. simpl.
    rewrite Hfalsy. simpl. unfold lift. by rewrite Hmsg.
Qed.

End Resolution.

(** The query [fo] against [Foo] and [Foobar]: no exact match, two
    candidates, both reported. *)
Lemma resolveProduct_outcomes_witness :
  resolveProduct (VStr "fo") [product_foo; product_foobar]
    = Ok (VUndefined, [product_foo; product_foobar]) ∧
  ∃ msg,
    product_not_resolved (VStr "fo") [product_foo; product_foobar]
      = Ok (JsError msg) ∧
    contains msg (id_and_name product_foo) ∧
    contains msg (id_and_name product_foobar).
Proof.
  destruct (proj1 (resolveProduct_outcomes example_cfg example_parse
                     example_stringify example_stringify login_then_lists)
              "fo" [product_foo; product_foobar])
    as (_ & _ & Hmany).
  { repeat constructor. }
  destruct Hmany as (Hres & msg & Hmsg & _ & _ & Hall).
  { repeat constructor. }
  { discriminate. }
  split; [exact Hres|]. exists msg. split; [exact Hmsg|].
  split; apply Hall; [apply list_elem_of_here | apply list_elem_of_further, list_elem_of_here].
Defined.

(** ** Bug queries *)

Lemma filterR_ext {A} (f g : A -> result bool) l :
  (∀ x, f x = g x) -> filterR f l = filterR g l.
Proof.
  intros Hfg. induction l as [|x l IH]; simpl; [done|].
  by rewrite Hfg, IH.
Qed.

Lemma bug_matches_without_status accountLower keyword a1 a2 bug :
  bug_matches accountLower keyword a1 None bug
  = bug_matches accountLower keyword a2 None bug.
Proof.
  unfold bug_matches. by destruct (truthy a1), (truthy a2).
Qed.

Section Bugs.

Variable cfg : Config.
Variable JSON_parse : string -> option value.
Variable JSON_stringify : value -> string.
Variable JSON_stringify_indent : value -> string.
Variable remote : nat -> Request -> fetch_result.

Local Abbreviation callZenTao_ := (callZenTao cfg JSON_parse JSON_stringify remote).
Local Abbreviation fetchToken_ := (fetchToken cfg JSON_parse JSON_stringify remote).
Local Abbreviation fetchBugsByProduct_ :=
  (fetchBugsByProduct cfg JSON_parse JSON_stringify remote).
Local Abbreviation getBugWithImages_ :=
  (getBugWithImages cfg JSON_parse JSON_stringify remote).
Local Abbreviation tool_getNextBug_ :=
  (tool_getNextBug cfg JSON_parse JSON_stringify JSON_stringify_indent remote).
Local Abbreviation getNextBug_loop_ :=
  (getNextBug_loop cfg JSON_parse JSON_stringify JSON_stringify_indent remote).
Local Abbreviation scan_pages_ :=
  (scan_pages cfg JSON_parse JSON_stringify remote).
Local Abbreviation finish_scan_ :=
  (finish_scan cfg JSON_parse JSON_stringify JSON_stringify_indent remote).
Local Abbreviation bug_detail_text_ :=
  (bug_detail_text cfg JSON_parse JSON_stringify JSON_stringify_indent remote).
Local Abbreviation not_found_text_ := (not_found_text cfg).

(** Without a status value, [fetchBugsByProduct] does not depend on
    [allStatuses]. *)
Lemma fetchBugsByProduct_without_status productId keyword a1 a2 limit page st :
  fetchBugsByProduct_
    {| q_productId := productId; q_keyword := keyword; q_allStatuses := a1;
       q_status := VUndefined; q_limit := limit; q_page := page |} st
  = fetchBugsByProduct_
      {| q_productId := productId; q_keyword := keyword; q_allStatuses := a2;
         q_status := VUndefined; q_limit := limit; q_page := page |} st.
Proof.
  unfold fetchBugsByProduct, bind. simpl.
  destruct (callZenTao_ _ st) as [[res|e] st']; [|done].
  unfold lift.
  by rewrite (filterR_ext _ _ _
                (bug_matches_without_status _ keyword
                   (default_arg a1 (VBool false)) (default_arg a2 (VBool false)))).
Qed.

(** C10. For every remote bugs payload (every remote service and every
    state), [getBugStats] gives the same outcome, and so the same [total] and
    [active] counts, whatever its [activeOnly] flag: the flag only sets the
    [allStatuses] argument of the bug filter, and with no status value the
    status predicate holds in both cases. *)
Theorem getBugStats_flag_irrelevant productId activeOnly1 activeOnly2 st :
  tool_getBugStats cfg JSON_parse JSON_stringify JSON_stringify_indent remote
    productId activeOnly1 st
  = tool_getBugStats cfg JSON_parse JSON_stringify JSON_stringify_indent remote
      productId activeOnly2 st.
Proof.
  unfold tool_getBugStats, bind.
  by rewrite (fetchBugsByProduct_without_status productId VUndefined
                (VBool (negb (truthy (default_arg activeOnly1 (VBool false)))))
                (VBool (negb (truthy (default_arg activeOnly2 (VBool false)))))).
Qed.

(** *** The page loop of [getNextBug] *)

Lemma getNextBug_loop_scan productId keyword status pages :
  ∀ fuel page st,
    (pages < fuel)%nat ->
    page = 11 - Z.of_nat pages ->
    (pages <= 10)%nat ->
    getNextBug_loop_ fuel productId keyword status page st
    = Some (finish_scan_ productId
              (scan_pages_ productId keyword status pages page st)).
Proof.
  induction pages as [|pages IH]; intros fuel page st Hfuel Hpage Hle.
  - destruct fuel as [|fuel]; [lia|]. simpl.
    assert ((page <=? 10) = false) as -> by lia. reflexivity.
  - destruct fuel as [|fuel]; [lia|]. simpl.
    assert ((page <=? 10) = true) as -> by lia.
    destruct (fetchBugsByProduct_ _ st) as [[[[|bug bugs] raw]|e] st']; [|done|done].
    apply IH; lia.
Qed.

(** *** How many requests an operation sends *)

Lemma grows_refl st k : grows st st k.
Proof. exists []. rewrite app_nil_r. split; [done | simpl; lia]. Qed.

Lemma grows_trans a b c k1 k2 :
  grows a b k1 -> grows b c k2 -> grows a c (k1 + k2).
Proof.
  intros (n1 & H1 & L1) (n2 & H2 & L2). exists (n1 ++ n2).
  rewrite H2, H1, <- app_assoc, length_app. split; [done | lia].
Qed.

Lemma grows_weaken a b k1 k2 : grows a b k1 -> (k1 <= k2)%nat -> grows a b k2.
Proof. intros (n & H & L) Hle. exists n. split; [done | lia]. Qed.

Lemma grows_with_request st req : grows st (with_request st req) 1.
Proof. exists [req]. split; [done | simpl; lia]. Qed.

Lemma fetchToken_grows forceRefresh st :
  truthy forceRefresh = false ->
  grows st (fetchToken_ forceRefresh st).2 (request_budget st - 1) ∧
  (∀ token, (fetchToken_ forceRefresh st).1 = Ok token ->
            truthy (cachedToken (fetchToken_ forceRefresh st).2) = true).
Proof.
  intros Hf. unfold request_budget.
  destruct (truthy (cachedToken st)) eqn:Hc.
  - rewrite fetchToken_cached_path by done. simpl.
    split; [apply grows_refl | done].
  - unfold fetchToken, bind, read_cachedToken, lift, fetch, throw, ret. simpl.
    rewrite Hc. simpl.
    destruct (assertConfig cfg); simpl; [|split; [apply grows_refl | done]].
    destruct (remote _ _) as [res|]; simpl;
      [|split; [apply (grows_with_request st) | done]].
    destruct (ok res); simpl; [|split; [apply (grows_with_request st) | done]].
    destruct (truthy (get_opt _ "token")) eqn:Ht; simpl;
      [|split; [apply (grows_with_request st) | done]].
    unfold get. unfold get_opt in Ht.
    destruct (nullish (safeJson JSON_parse (body_text res))); [done|]. simpl.
    split; [apply (grows_with_request st) | done].
Qed.

Lemma callZenTao_grows d st :
  truthy (default_arg (d_forceTokenRefresh d) (VBool false)) = false ->
  grows st (callZenTao_ d st).2 (request_budget st) ∧
  (∀ r, (callZenTao_ d st).1 = Ok r ->
        truthy (cachedToken (callZenTao_ d st).2) = true).
Proof.
  intros Hf. rewrite (callZenTao_run cfg JSON_parse JSON_stringify remote).
  destruct (assertConfig cfg); [|split; [apply grows_refl | done]].
  destruct (fetchToken_grows _ st Hf) as [Hg Ht].
  destruct (fetchToken_ _ st) as [[token|e] st1]; simpl in *;
    [|split; [eapply grows_weaken; [exact Hg | lia] | done]].
  specialize (Ht token eq_refl).
  assert (1 <= request_budget st)%nat as Hb
      by (unfold request_budget; destruct (truthy (cachedToken st)); lia).
  destruct (buildUrl cfg _ _) as [url|e];
    [|split; [eapply grows_weaken; [exact Hg | lia] | done]].
  assert (grows st (with_request st1 (api_request JSON_stringify d token url))
            (request_budget st)) as Hg2.
  { eapply grows_weaken; [exact (grows_trans _ _ _ _ _ Hg (grows_with_request _ _)) | lia]. }
  simpl. destruct (remote _ _) as [res|]; [destruct (ok res)|]; by split.
Qed.

Lemma fetchBugsByProduct_grows q st :
  grows st (fetchBugsByProduct_ q st).2 (request_budget st) ∧
  (∀ r, (fetchBugsByProduct_ q st).1 = Ok r ->
        truthy (cachedToken (fetchBugsByProduct_ q st).2) = true).
Proof.
  unfold fetchBugsByProduct, bind.
  match goal with
  | |- context [callZenTao_ ?d st] =>
      destruct (callZenTao_grows d st eq_refl) as [Hg Ht];
      destruct (callZenTao_ d st) as [[res|e] st']
  end; simpl in *; [|by split].
  specialize (Ht res eq_refl). unfold lift, ret.
  by destruct (filterR _ _).
Qed.

Lemma getBugWithImages_grows bugId st :
  grows st (getBugWithImages_ bugId st).2 (request_budget st).
Proof.
  unfold getBugWithImages, bind.
  match goal with
  | |- context [callZenTao_ ?d st] =>
      destruct (callZenTao_grows d st eq_refl) as [Hg _];
      destruct (callZenTao_ d st) as [[res|e] st']
  end; done.
Qed.

Lemma bug_detail_text_grows bug st :
  truthy (cachedToken st) = true ->
  grows st (bug_detail_text_ bug st).2 1.
Proof.
  intros Hc. unfold bug_detail_text_, bind, lift.
  destruct (get bug "id") as [id|e]; [|apply grows_refl].
  destruct (get bug "bugId") as [bugId|e]; [|apply grows_refl].
  pose proof (getBugWithImages_grows (or_else id bugId) st) as Hg.
  unfold request_budget in Hg. rewrite Hc in Hg.
  by destruct (getBugWithImages_ _ st) as [[detail|e] st'].
Qed.

Lemma scan_pages_grows productId keyword status pages :
  ∀ page st,
    grows st
      (finish_scan_ productId (scan_pages_ productId keyword status pages page st)).2
      (pages + request_budget st).
Proof.
  induction pages as [|pages IH]; intros page st; simpl; [apply grows_refl|].
  destruct (fetchBugsByProduct_grows (page_query productId keyword status page) st)
    as [Hg Ht].
  destruct (fetchBugsByProduct_ _ st) as [[[[|bug bugs] raw]|e] st']; simpl in *.
  - specialize (Ht _ eq_refl).
    specialize (IH (page + 1) st'). unfold request_budget in IH.
    rewrite Ht in IH.
    eapply grows_weaken; [exact (grows_trans _ _ _ _ _ Hg IH) | lia].
  - specialize (Ht _ eq_refl).
    eapply grows_weaken;
      [exact (grows_trans _ _ _ _ _ Hg (bug_detail_text_grows bug st' Ht)) | lia].
  - eapply grows_weaken; [exact Hg | lia].
Qed.

Lemma scan_pages_found_range productId keyword status pages :
  ∀ first st page bug st',
    scan_pages_ productId keyword status pages first st = FoundOn page bug st' ->
    first <= page < first + Z.of_nat pages.
Proof.
  induction pages as [|pages IH]; intros first st page bug st'; simpl; [done|].
  destruct (fetchBugsByProduct_ _ st) as [[[[|b bs] raw]|e] st1].
  - intros H%IH. lia.
  - intros [= -> _ _]. lia.
  - done.
Qed.

End Bugs.

(** *** What [getNextBug] returns, in terms of the responses *)

Lemma bug_matches_passes cfg keyword allStatuses status b r :
  bug_matches (Str.toLowerCase (Str.trim (account cfg))) keyword allStatuses
    (if truthy status
     then Some (Str.toLowerCase (Str.trim (ToString status))) else None) b
  = Ok r ->
  r = passes_filters cfg keyword allStatuses status b ∧ nullish b = false.
Proof.
  unfold bug_matches, passes_filters, assigned_to, title_includes, status_is, get.
  destruct (nullish b); [done|]. cbn [rbind].
  set (acc := Str.toLowerCase (Str.trim (account cfg))).
  set (sl := Str.toLowerCase (Str.trim (ToString status))).
  assert ((if negb (Str.is_empty acc)
           then bool_decide (acc ∈ normalizeAccount (prop b "assignedTo")
                               ++ normalizeAccount (prop b "assignedToName")
                               ++ normalizeAccount (prop b "assignedToRealname"))
           else true)
          = Str.is_empty acc
            || bool_decide (acc ∈ normalizeAccount (prop b "assignedTo")
                              ++ normalizeAccount (prop b "assignedToName")
                              ++ normalizeAccount (prop b "assignedToRealname")))
    as -> by by destruct (Str.is_empty acc).
  destruct keyword as [| |kb|kn|kw|kl|ko]; cbn [truthy toLowerCase_of rbind negb];
    try (destruct kb); try (destruct (negb (kn =? 0))); cbn [rbind];
    try done.
  all: try (destruct (Str.is_empty kw) eqn:Hkw; cbn [negb rbind orb]).
  all: destruct (truthy allStatuses); cbn [rbind orb];
    destruct (truthy status); cbn [negb orb];
    try (destruct (Str.is_empty sl) eqn:Hsl; cbn [negb orb rbind]);
    intros [= <-]; split; try done;
    rewrite ?andb_true_r; try done.
Qed.

Lemma filterR_filter {A} (f : A -> result bool) (g : A -> bool) l r :
  (∀ x b, f x = Ok b -> b = g x) ->
  filterR f l = Ok r -> r = filter (fun x => g x = true) l.
Proof.
  intros Hfg. revert r. induction l as [|x l IH]; intros r; simpl.
  - by intros [= <-].
  - destruct (f x) as [b|e] eqn:E; simpl; [|done].
    destruct (filterR f l) as [r'|e]; simpl; [|done].
    intros [= <-]. rewrite filter_cons, <- (Hfg x b E), (IH r' eq_refl).
    by destruct b.
Qed.

Lemma filter_first_match {A} (p : A -> bool) l x rest :
  filter (fun y => p y = true) l = x :: rest -> first_match p l x.
Proof.
  induction l as [|y l IH]; [done|]. rewrite filter_cons.
  destruct (decide (p y = true)) as [Hy|Hy].
  - intros [= -> _]. by exists [], l.
  - intros (before & after & -> & Hb & Hx)%IH.
    exists (y :: before), after. split; [done|]. split; [|done].
    constructor; [by destruct (p y) | done].
Qed.

Lemma filter_no_match {A} (p : A -> bool) l :
  filter (fun y => p y = true) l = [] -> Forall (fun y => p y = false) l.
Proof.
  induction l as [|y l IH]; [constructor|]. rewrite filter_cons.
  destruct (decide (p y = true)) as [Hy|Hy]; [done|].
  intros H. constructor; [by destruct (p y) | by apply IH].
Qed.

Section Pages.

Variable cfg : Config.
Variable JSON_parse : string -> option value.
Variable JSON_stringify : value -> string.
Variable JSON_stringify_indent : value -> string.
Variable remote : nat -> Request -> fetch_result.

(** What [fetchBugsByProduct] returns, in terms of the response to its
    request and of the filters. *)
Lemma fetchBugsByProduct_filtered q st bugs raw st' :
  fetchBugsByProduct cfg JSON_parse JSON_stringify remote q st
    = (Ok (bugs, raw), st') ->
  ∃ e,
    callZenTao cfg JSON_parse JSON_stringify remote
      (bugs_request (q_productId q) (q_keyword q)
         (default_arg (q_page q) (VNum 1)) (default_arg (q_limit q) (VNum 20))) st
      = (Ok e, st') ∧
    raw = env_data e ∧
    bugs = filter (fun b => passes_filters cfg (q_keyword q)
                              (default_arg (q_allStatuses q) (VBool false))
                              (q_status q) b = true)
             (extractArray (env_data e) ["bugs"]) ∧
    Forall (fun b => nullish b = false) bugs.
Proof.
  unfold fetchBugsByProduct, bind, lift, ret, bugs_request.
  destruct (callZenTao _ _ _ _ _ st) as [[e|err] st1]; [|done].
  destruct (filterR _ _) as [filtered|err] eqn:E; [|done].
  intros [= <- <- <-]. exists e. split; [done|]. split; [done|].
  split.
  - eapply filterR_filter; [|exact E].
    intros b r Hr. by apply bug_matches_passes in Hr as [-> _].
  - eapply filterR_Forall; [|exact E].
    intros b Hb. by apply bug_matches_passes in Hb as [_ Hn].
Qed.

(** The detail that [getBugWithImages] makes of the response. *)
Lemma getBugWithImages_detail bugId st :
  match callZenTao cfg JSON_parse JSON_stringify remote
          (get_descriptor ("bugs/" +:+ ToString bugId) VUndefined) st with
  | (Ok e, st') =>
      ∃ detail,
        getBugWithImages cfg JSON_parse JSON_stringify remote bugId st
        = (Ok detail, st') ∧ is_bug_detail (env_data e) detail
  | (Raise err, st') =>
      getBugWithImages cfg JSON_parse JSON_stringify remote bugId st
      = (Raise err, st')
  end.
Proof.
  unfold getBugWithImages, bind, ret.
  destruct (callZenTao _ _ _ _ _ st) as [[e|err] st1]; [|done].
  eexists. split; [reflexivity|]. eexists. split; [reflexivity|].
  cbv zeta. split; [|split].
  - rewrite !lookup_set_prop. reflexivity.
  - rewrite lookup_set_prop. reflexivity.
  - intros k Hk1 Hk2. rewrite !lookup_set_prop. unfold Str.eqb.
    rewrite !bool_decide_eq_false_2 by done.
    unfold spread_into. rewrite lookup_fold_set_prop. simpl.
    by destruct (last_write k _).
Qed.

(** What the tool returns for a bug found, in terms of the response to the
    request for its detail. *)
Lemma bug_detail_text_outcome bug st :
  nullish bug = false ->
  match callZenTao cfg JSON_parse JSON_stringify remote (detail_request bug) st with
  | (Ok e, st') =>
      ∃ detail,
        is_bug_detail (env_data e) detail ∧
        bug_detail_text cfg JSON_parse JSON_stringify JSON_stringify_indent remote
          bug st
        = (Ok (JSON_stringify_indent (VObj [("bug", detail)])), st')
  | (Raise err, st') =>
      bug_detail_text cfg JSON_parse JSON_stringify JSON_stringify_indent remote
        bug st
      = (Raise err, st')
  end.
Proof.
  intros Hn. unfold bug_detail_text, detail_request, bind, lift, ret, get.
  rewrite Hn.
  pose proof (getBugWithImages_detail
                (or_else (prop bug "id") (prop bug "bugId")) st) as H.
  destruct (callZenTao _ _ _ _ _ st) as [[e|err] st1].
  - destruct H as (detail & -> & Hd). by exists detail.
  - by rewrite H.
Qed.

Variable productId keyword status : value.

(** The scan of the pages, in terms of the responses and of the filters. *)
Lemma scan_pages_spec pages :
  ∀ first st,
    match scan_pages cfg JSON_parse JSON_stringify remote productId keyword status
            pages first st with
    | NoMatch stn =>
        pages_without_match cfg JSON_parse JSON_stringify remote productId keyword
          status first st (first + Z.of_nat pages) stn
    | FoundOn page bug st' =>
        ∃ stp e,
          pages_without_match cfg JSON_parse JSON_stringify remote productId
            keyword status first st page stp ∧
          callZenTao cfg JSON_parse JSON_stringify remote
            (bugs_request productId keyword (VNum page) (VNum 20)) stp
          = (Ok e, st') ∧
          first_match (passes_filters cfg keyword (VBool false) status)
            (extractArray (env_data e) ["bugs"]) bug ∧
          nullish bug = false
    | FailedOn page err st' =>
        ∃ stp,
          pages_without_match cfg JSON_parse JSON_stringify remote productId
            keyword status first st page stp ∧
          fetchBugsByProduct cfg JSON_parse JSON_stringify remote
            (page_query productId keyword status page) stp = (Raise err, st')
    end.
Proof.
  induction pages as [|pages IH]; intros first st; simpl.
  - rewrite Z.add_0_r. apply pages_none.
  - destruct (fetchBugsByProduct _ _ _ _ _ st) as [[[bugs raw]|err] st1] eqn:E.
    + apply fetchBugsByProduct_filtered in E as (e & Hcall & -> & Hbugs & Hnn).
      simpl in Hcall, Hbugs.
      destruct bugs as [|bug rest].
      * specialize (IH (first + 1) st1).
        symmetry in Hbugs. apply filter_no_match in Hbugs.
        destruct (scan_pages _ _ _ _ _ _ _ pages (first + 1) st1)
          as [page bug st'|page err st'|stn].
        -- destruct IH as (stp & e' & Hp & Hc & Hf & Hn).
           exists stp, e'.
           split; [eapply pages_next; [exact Hcall | exact Hbugs | exact Hp]|].
           done.
        -- destruct IH as (stp & Hp & Hf).
           exists stp.
           split; [eapply pages_next; [exact Hcall | exact Hbugs | exact Hp]|].
           done.
        -- replace (first + Z.of_nat (S pages))
             with (first + 1 + Z.of_nat pages) by lia.
           eapply pages_next; [exact Hcall | exact Hbugs | exact IH].
      * exists st, e. split; [apply pages_none|]. split; [done|].
        split; [by eapply filter_first_match|].
        by apply Forall_cons in Hnn as [Hn _].
    + exists st. split; [apply pages_none | done].
Qed.

End Pages.

Section NextBug.

Variable cfg : Config.
Variable JSON_parse : string -> option value.
Variable JSON_stringify : value -> string.
Variable JSON_stringify_indent : value -> string.
Variable remote : nat -> Request -> fetch_result.

Lemma scan_pages_failed_range productId keyword status pages :
  ∀ first st page err st',
    scan_pages cfg JSON_parse JSON_stringify remote productId keyword status
      pages first st = FailedOn page err st' ->
    first <= page < first + Z.of_nat pages.
Proof.
  induction pages as [|pages IH]; intros first st page err st'; simpl; [done|].
  destruct (fetchBugsByProduct _ _ _ _ _ st) as [[[[|b bs] raw]|e] st1].
  - intros H%IH. lia.
  - done.
  - intros [= -> _ _]. lia.
Qed.

(** C9. [getNextBug] always terminates: eleven rounds of fuel are enough
    for the loop and more fuel changes nothing.  It requests the pages 1, 2,
    ... of the bugs of the product in turn, 20 bugs a page and at most ten
    pages, and stops at the first page whose response holds a bug that passes
    the filters (assigned to the account, title with the keyword, status as
    asked for), or at the first failure.  On a match it requests the detail
    of the first bug of that page that passes the filters, by its [id], else
    its [bugId], and returns the text of the object that holds as [bug] the
    detail: the bug of that response, with [stepsHtml] and [stepsImages] set
    (or it fails as that request does).  When none of the ten pages holds a
    match it returns the not-found message, whatever lies beyond them.  In
    all it sends at most twelve requests (a login if needed, ten pages, one
    detail). *)
Theorem getNextBug_bounded productId keyword status st :
  (∀ fuel, (11 <= fuel)%nat ->
     tool_getNextBug cfg JSON_parse JSON_stringify JSON_stringify_indent remote
       fuel productId keyword status st
     = Some (finish_scan cfg JSON_parse JSON_stringify JSON_stringify_indent remote
               productId
               (scan_pages cfg JSON_parse JSON_stringify remote
                  productId keyword status 10 1 st))) ∧
  (∀ st10,
     scan_pages cfg JSON_parse JSON_stringify remote productId keyword status 10 1 st
     = NoMatch st10 ->
     pages_without_match cfg JSON_parse JSON_stringify remote productId keyword
       status 1 st 11 st10 ∧
     ∀ fuel, (11 <= fuel)%nat ->
       tool_getNextBug cfg JSON_parse JSON_stringify JSON_stringify_indent remote
         fuel productId keyword status st
       = Some (Ok (not_found_text cfg productId), st10)) ∧
  (∀ page bug st',
     scan_pages cfg JSON_parse JSON_stringify remote productId keyword status 10 1 st
     = FoundOn page bug st' ->
     1 <= page <= 10 ∧
     ∃ stp e,
       pages_without_match cfg JSON_parse JSON_stringify remote productId keyword
         status 1 st page stp ∧
       callZenTao cfg JSON_parse JSON_stringify remote
         (bugs_request productId keyword (VNum page) (VNum 20)) stp = (Ok e, st') ∧
       first_match (passes_filters cfg keyword (VBool false) status)
         (extractArray (env_data e) ["bugs"]) bug ∧
       ∀ fuel, (11 <= fuel)%nat ->
         match callZenTao cfg JSON_parse JSON_stringify remote
                 (detail_request bug) st' with
         | (Ok e2, st2) =>
             ∃ detail,
               is_bug_detail (env_data e2) detail ∧
               tool_getNextBug cfg JSON_parse JSON_stringify JSON_stringify_indent
                 remote fuel productId keyword status st
               = Some (Ok (JSON_stringify_indent (VObj [("bug", detail)])), st2)
         | (Raise err, st2) =>
             tool_getNextBug cfg JSON_parse JSON_stringify JSON_stringify_indent
               remote fuel productId keyword status st
             = Some (Raise err, st2)
         end) ∧
  (∀ page err st',
     scan_pages cfg JSON_parse JSON_stringify remote productId keyword status 10 1 st
     = FailedOn page err st' ->
     1 <= page <= 10 ∧
     ∃ stp,
       pages_without_match cfg JSON_parse JSON_stringify remote productId keyword
         status 1 st page stp ∧
       fetchBugsByProduct cfg JSON_parse JSON_stringify remote
         (page_query productId keyword status page) stp = (Raise err, st') ∧
       ∀ fuel, (11 <= fuel)%nat ->
         tool_getNextBug cfg JSON_parse JSON_stringify JSON_stringify_indent remote
           fuel productId keyword status st
         = Some (Raise err, st')) ∧
  grows st
    (finish_scan cfg JSON_parse JSON_stringify JSON_stringify_indent remote productId
       (scan_pages cfg JSON_parse JSON_stringify remote
          productId keyword status 10 1 st)).2 12.
Proof.
  assert (∀ fuel, (11 <= fuel)%nat ->
            tool_getNextBug cfg JSON_parse JSON_stringify JSON_stringify_indent
              remote fuel productId keyword status st
            = Some (finish_scan cfg JSON_parse JSON_stringify JSON_stringify_indent
                      remote productId
                      (scan_pages cfg JSON_parse JSON_stringify remote
                         productId keyword status 10 1 st))) as Hrun.
  { intros fuel Hfuel. unfold tool_getNextBug.
    apply getNextBug_loop_scan; lia. }
  pose proof (scan_pages_spec cfg JSON_parse JSON_stringify remote
                productId keyword status 10 1 st) as Hspec.
  split; [exact Hrun|]. split; [|split; [|split]].
  - intros st10 Hscan. rewrite Hscan in Hspec. split; [exact Hspec|].
    intros fuel Hfuel. by rewrite Hrun, Hscan.
  - intros page bug st' Hscan. rewrite Hscan in Hspec.
    destruct Hspec as (stp & e & Hpages & Hcall & Hfirst & Hn).
    split; [apply scan_pages_found_range in Hscan; lia|].
    exists stp, e. split; [done|]. split; [done|]. split; [done|].
    intros fuel Hfuel. rewrite (Hrun fuel Hfuel), Hscan. simpl.
    pose proof (bug_detail_text_outcome cfg JSON_parse JSON_stringify
                  JSON_stringify_indent remote bug st' Hn) as Hout.
    destruct (callZenTao _ _ _ _ (detail_request bug) st') as [[e2|err] st2].
    + destruct Hout as (detail & Hd & ->). by exists detail.
    + by rewrite Hout.
  - intros page err st' Hscan. rewrite Hscan in Hspec.
    destruct Hspec as (stp & Hpages & Hfail).
    split; [apply scan_pages_failed_range in Hscan; lia|].
    exists stp. split; [done|]. split; [done|].
    intros fuel Hfuel. by rewrite Hrun, Hscan.
  - eapply grows_weaken; [apply scan_pages_grows|].
    unfold request_budget. destruct (truthy (cachedToken st)); lia.
Qed.

End NextBug.

(** Ten empty pages and a bug of the account on the eleventh: the operation
    reports that there is none.  An empty page and then a page with a bug of
    the account: the operation requests the two pages and the detail of the
    bug, and returns it. *)
Lemma getNextBug_bounded_witness :
  (∃ st10,
     tool_getNextBug example_cfg late_parse example_stringify example_stringify
       ten_empty_pages 11 (VNum 7) VUndefined VUndefined logged_in_state
     = Some (Ok "No active bugs assigned to alice found under product 7", st10) ∧
     length (sent st10) = 10%nat ∧
     (fetchBugsByProduct example_cfg late_parse example_stringify ten_empty_pages
        (page_query (VNum 7) VUndefined VUndefined 11) st10).1
     = Ok ([late_bug], VObj [("bugs", VArr [late_bug])])) ∧
  (∃ detail st2,
     tool_getNextBug example_cfg late_parse example_stringify example_stringify
       second_page_remote 11 (VNum 7) VUndefined VUndefined logged_in_state
     = Some (Ok (example_stringify (VObj [("bug", detail)])), st2) ∧
     is_bug_detail (VObj [("bugs", VArr [late_bug])]) detail ∧
     map req_url (sent st2)
     = [ "https://zentao.example/api.php/v1/bugs?page=1&limit=20&product=7";
         "https://zentao.example/api.php/v1/bugs?page=2&limit=20&product=7";
         "https://zentao.example/api.php/v1/bugs/42" ]).
Proof.
  split.
  - eexists. split; [|split].
    + apply (proj1 (proj2 (getNextBug_bounded example_cfg late_parse
                             example_stringify example_stringify ten_empty_pages
                             (VNum 7) VUndefined VUndefined logged_in_state)));
        [vm_compute; reflexivity | lia].
    + reflexivity.
    + vm_compute. reflexivity.
  - set (found :=
           scan_pages example_cfg late_parse example_stringify second_page_remote
             (VNum 7) VUndefined VUndefined 10 1 logged_in_state).
    set (st' := match found with FoundOn _ _ s => s | _ => logged_in_state end).
    assert (found = FoundOn 2 late_bug st') as Hscan by (vm_compute; reflexivity).
    destruct (proj1 (proj2 (proj2 (getNextBug_bounded example_cfg late_parse
                                     example_stringify example_stringify
                                     second_page_remote (VNum 7) VUndefined
                                     VUndefined logged_in_state)))
                2 late_bug st' Hscan)
      as (_ & stp & e & _ & _ & _ & Hout).
    specialize (Hout 11%nat (le_n _)).
    set (run := callZenTao example_cfg late_parse example_stringify
                  second_page_remote (detail_request late_bug) st') in *.
    assert (run = (Ok {| env_status := 200; env_headers := [];
                         env_data := VObj [("bugs", VArr [late_bug])] |}, run.2))
      as Hdetail by (vm_compute; reflexivity).
    rewrite Hdetail in Hout. destruct Hout as (detail & Hd & Htool).
    exists detail, run.2. split; [exact Htool|]. split; [exact Hd|].
    vm_compute. reflexivity.
Defined.

(** * Further properties of the code

    Properties of the functions that the sections above leave out, and of
    the ones they cover in part. *)

(** ** The token cache: every outcome of [fetchToken] *)

Section TokenCache.

Variable cfg : Config.
Variable JSON_parse : string -> option value.
Variable JSON_stringify : value -> string.
Variable remote : nat -> Request -> fetch_result.


(** [fetchToken] sends nothing or the login exchange, whatever it returns. *)
Lemma fetchToken_trace forceRefresh st :
  (fetchToken cfg JSON_parse JSON_stringify remote forceRefresh st).2 = st ∨
  sent (fetchToken cfg JSON_parse JSON_stringify remote forceRefresh st).2
  = sent st ++ [token_request cfg JSON_stringify].
Proof.
  unfold fetchToken, bind, read_cachedToken, lift, fetch, throw, ret,
    write_cachedToken, with_request. simpl.
  destruct (truthy (cachedToken st) && negb (truthy forceRefresh)); [by left|].
  destruct (assertConfig cfg); [|by left]. simpl.
  destruct (remote _ _) as [res|]; [|by right]. simpl.
  destruct (ok res); simpl; [|by right].
  destruct (truthy (get_opt _ _)); simpl; [|by right].
  destruct (get _ _); by right.
Qed.


(** X2. A forced refresh whose login exchange succeeds sends the login
    exchange although a token is cached and replaces the cached token by the
    new one; the next call of the executor, whatever its path and query,
    sends one request, which carries the new token in its [Token] header, and
    keeps that token cached. *)
Theorem fetchToken_force_refresh forceRefresh st res :
  truthy forceRefresh = true ->
  assertConfig cfg = Ok tt ->
  remote (length (sent st)) (token_request cfg JSON_stringify) = Responds res ->
  ok res = true ->
  truthy (get_opt (safeJson JSON_parse (body_text res)) "token") = true ->
  ∃ token st1,
    token = prop (safeJson JSON_parse (body_text res)) "token" ∧
    fetchToken cfg JSON_parse JSON_stringify remote forceRefresh st = (Ok token, st1) ∧
    cachedToken st1 = token ∧
    sent st1 = sent st ++ [token_request cfg JSON_stringify] ∧
    ∀ path query,
      ∃ req,
        sent (callZenTao cfg JSON_parse JSON_stringify remote
                (get_descriptor path query) st1).2 = sent st1 ++ [req] ∧
        req_headers req
          = [("Content-Type", VStr "application/json"); ("Token", token)] ∧
        cachedToken (callZenTao cfg JSON_parse JSON_stringify remote
                       (get_descriptor path query) st1).2 = token.
Proof.
  intros Hf Hcfg Hrem Hok Htok.
  eexists _, _. split; [reflexivity|]. split.
  { apply fetchToken_login; try done. by rewrite Hf, andb_false_r. }
  split; [done|]. split; [done|].
  intros path query.
  assert (truthy (prop (safeJson JSON_parse (body_text res)) "token") = true) as Ht.
  { unfold get_opt in Htok.
    by destruct (nullish (safeJson JSON_parse (body_text res))). }
  rewrite callZenTao_run, Hcfg.
  rewrite fetchToken_cached_path by done.
  clear Hrem. simpl. eexists.
  destruct (remote _ _) as [r|]; [destruct (ok r)|]; simpl; done.
Qed.

End TokenCache.

(** A stale token is replaced by the token of the login exchange. *)
Lemma fetchToken_force_refresh_witness :
  ∃ st1,
    fetchToken example_cfg example_parse example_stringify login_then_lists
      (VBool true) stale_state = (Ok (VStr "t-1"), st1) ∧
    cachedToken st1 = VStr "t-1" ∧
    sent st1 = sent stale_state ++ [token_request example_cfg example_stringify].
Proof.
  destruct (fetchToken_force_refresh example_cfg example_parse example_stringify
              login_then_lists (VBool true) stale_state
              {| status := 200; statusText := "OK"; body_text := login_body;
                 resp_headers := [] |}
              eq_refl eq_refl eq_refl eq_refl eq_refl)
    as (token & st1 & Htok & Hrun & Hc & Hs & _).
  exists st1. rewrite Htok in Hrun, Hc.
  split; [exact Hrun|]. split; [exact Hc | exact Hs].
Defined.

(** ** The request executor: configuration, envelope and trace *)

Lemma set_entry_NoDup k v o :
  NoDup (map fst o) -> NoDup (map fst (set_entry k v o)).
Proof.
  induction o as [|[k' v'] o IH]; simpl; intros Hnd.
  - apply NoDup_singleton.
  - apply NoDup_cons in Hnd as [Hnotin Hnd].
    unfold Str.eqb. case_bool_decide as E; simpl.
    + by apply NoDup_cons.
    + apply NoDup_cons. split; [|by apply IH].
      intros Hin. apply Hnotin. clear -Hin E.
      induction o as [|[k2 v2] o IH]; simpl in *.
      * apply list_elem_of_singleton in Hin. congruence.
      * unfold Str.eqb in Hin. revert Hin. case_bool_decide as E2; simpl.
        -- done.
        -- intros [->|Hin]%elem_of_cons; [apply list_elem_of_here|].
           apply list_elem_of_further. by apply IH.
Qed.

Lemma set_entry_elem k v o n x :
  NoDup (map fst o) ->
  (n, x) ∈ set_entry k v o ↔ (n = k ∧ x = v) ∨ (n ≠ k ∧ (n, x) ∈ o).
Proof.
  induction o as [|[k' v'] o IH]; simpl; intros Hnd.
  - rewrite list_elem_of_singleton. split.
    + intros [= -> ->]. by left.
    + intros [[-> ->]|[_ H]]; [done | by apply elem_of_nil in H].
  - apply NoDup_cons in Hnd as [Hnotin Hnd].
    unfold Str.eqb. case_bool_decide as E; simpl.
    + subst k'. rewrite !elem_of_cons. split.
      * intros [[= -> ->]|Hin]; [by left|]. right. split; [|by right].
        intros ->. apply Hnotin.
        apply list_elem_of_fmap. by exists (k, x).
      * intros [[-> ->]|[Hne [[= ? ?]|Hin]]]; [by left | done | by right].
    + rewrite !elem_of_cons, (IH Hnd). split.
      * intros [[= -> ->]|[[-> ->]|[Hne Hin]]];
          [right; split; [done | by left] | by left | right; split; [done | by right]].
      * intros [[-> ->]|[Hne [[= -> ->]|Hin]]];
          [right; by left | by left | right; right; by split].
Qed.

(** [Object.fromEntries] keeps each name once, with the last value given. *)
Lemma Object_fromEntries_spec entries :
  NoDup (map fst (Object_fromEntries entries)) ∧
  ∀ name v, (name, v) ∈ Object_fromEntries entries
            ↔ last_entry name entries = Some v.
Proof.
  unfold Object_fromEntries.
  assert (∀ acc, NoDup (map fst acc) ->
            NoDup (map fst (fold_left (fun o kv => set_entry kv.1 kv.2 o)
                              entries acc)) ∧
            ∀ name v,
              (name, v) ∈ fold_left (fun o kv => set_entry kv.1 kv.2 o) entries acc
              ↔ match last_entry name entries with
                | Some y => v = y
                | None => (name, v) ∈ acc
                end) as Hgen.
  { induction entries as [|[k x] rest IH]; intros acc Hnd; simpl.
    - done.
    - destruct (IH (set_entry k x acc) (set_entry_NoDup k x acc Hnd)) as [Hn Hm].
      split; [exact Hn|]. intros name v. rewrite Hm.
      destruct (last_entry name rest) as [y|]; [done|].
      rewrite (set_entry_elem k x acc name v Hnd).
      unfold Str.eqb. case_bool_decide as E.
      + subst k. split; [intros [[_ ->]|[Hne _]]; done | intros ->; by left].
      + split; [intros [[-> _]|[_ Hin]]; done | intros Hin; right; by split]. }
  destruct (Hgen [] (NoDup_nil_2)) as [Hn Hm]. split; [exact Hn|].
  intros name v. rewrite Hm.
  destruct (last_entry name entries) as [y|].
  - split; [by intros -> | by intros [= ->]].
  - split; [by intros H%elem_of_nil | done].
Qed.

Section Exec.

Variable cfg : Config.
Variable JSON_parse : string -> option value.
Variable JSON_stringify : value -> string.
Variable JSON_stringify_indent : value -> string.
Variable remote : nat -> Request -> fetch_result.

(** X3. The executor checks the configuration before anything else, also
    when a token is cached: with the base URL, the account or the password
    missing it throws the error that names the first missing setting, in that
    order, and leaves the state as it was.  So whenever a call has sent a
    request, all three settings were present. *)
Theorem callZenTao_missing_config d st :
  (baseUrl cfg = EmptyString ->
   callZenTao cfg JSON_parse JSON_stringify remote d st
   = (Raise (JsError "Missing ZENTAO_BASE_URL"), st)) ∧
  (baseUrl cfg ≠ EmptyString -> account cfg = EmptyString ->
   callZenTao cfg JSON_parse JSON_stringify remote d st
   = (Raise (JsError "Missing ZENTAO_ACCOUNT"), st)) ∧
  (baseUrl cfg ≠ EmptyString -> account cfg ≠ EmptyString ->
   password cfg = EmptyString ->
   callZenTao cfg JSON_parse JSON_stringify remote d st
   = (Raise (JsError "Missing ZENTAO_PASSWORD"), st)) ∧
  (∀ r st', callZenTao cfg JSON_parse JSON_stringify remote d st = (r, st') ->
     sent st' ≠ sent st ->
     baseUrl cfg ≠ EmptyString ∧ account cfg ≠ EmptyString
     ∧ password cfg ≠ EmptyString).
Proof.
  rewrite callZenTao_run. unfold assertConfig.
  destruct (baseUrl cfg) as [|c1 b]; simpl.
  { split; [done|]. split; [done|]. split; [done|].
    intros r st' [= ? ?]; subst. done. }
  destruct (account cfg) as [|c2 a]; simpl.
  { split; [done|]. split; [done|]. split; [done|].
    intros r st' [= ? ?]; subst. done. }
  destruct (password cfg) as [|c3 p]; simpl.
  { split; [done|]. split; [done|]. split; [done|].
    intros r st' [= ? ?]; subst. done. }
  split; [done|]. split; [done|]. split; [done|]. done.
Qed.

(** X4. An envelope that the executor returns comes from the response to the
    last request sent: its status is in 200-299 and is the status of the
    response; its headers hold each header name of the response once, with
    the last value that the entries of the response give to it; and its data
    is the parsed body when the body is JSON other than [null], and the raw
    text of the body otherwise.  The data of an envelope is never [null] or
    [undefined]. *)
Theorem callZenTao_envelope d st e st' :
  callZenTao cfg JSON_parse JSON_stringify remote d st = (Ok e, st') ->
  200 <= env_status e <= 299 ∧
  nullish (env_data e) = false ∧
  ∃ before req res,
    sent st' = before ++ [req] ∧
    remote (length before) req = Responds res ∧
    env_status e = status res ∧
    NoDup (map fst (env_headers e)) ∧
    (∀ name v, (name, v) ∈ env_headers e
               ↔ last_entry name (resp_headers res) = Some v) ∧
    (∀ v, JSON_parse (body_text res) = Some v -> nullish v = false -> env_data e = v) ∧
    (JSON_parse (body_text res) = None ∨ JSON_parse (body_text res) = Some VNull
     ∨ JSON_parse (body_text res) = Some VUndefined ->
     env_data e = VStr (body_text res)).
Proof.
  rewrite callZenTao_run.
  destruct (assertConfig cfg); [|done].
  destruct (fetchToken _ _ _ _ _ st) as [[token|e0] st1]; [|done].
  destruct (buildUrl cfg _ _) as [url|e0]; [|done].
  simpl. destruct (remote _ _) as [res|] eqn:Hrem; [|done].
  destruct (ok res) eqn:Hok; [|done].
  intros [= ? ?]; subst. unfold ok in Hok.
  apply andb_true_iff in Hok as [H1 H2].
  split; [simpl; lia|]. split.
  { unfold envelope_of. simpl.
    by destruct (nullish (safeJson JSON_parse (body_text res))) eqn:E. }
  eexists _, _, res. split; [reflexivity|]. split; [exact Hrem|].
  split; [done|].
  destruct (Object_fromEntries_spec (resp_headers res)) as [Hnd Hlast].
  split; [exact Hnd|]. split; [exact Hlast|].
  unfold envelope_of, safeJson. simpl. split.
  - intros v -> Hv. by rewrite Hv.
  - intros [->|[->| ->]]; done.
Qed.

(** X5. The tool [call] refuses a falsy path (left out, [null], empty, zero)
    with the error "path is required" before it touches the state.  A truthy
    path that is not a string never reaches the remote as an API request: the
    call throws, having sent nothing or only the login exchange. *)
Theorem tool_call_path_guard path method query body forceTokenRefresh st :
  (truthy path = false ->
   tool_call cfg JSON_parse JSON_stringify JSON_stringify_indent remote
     path method query body forceTokenRefresh st
   = (Raise (JsError "path is required"), st)) ∧
  ((∀ s, path ≠ VStr s) ->
   ∃ e st',
     tool_call cfg JSON_parse JSON_stringify JSON_stringify_indent remote
       path method query body forceTokenRefresh st = (Raise e, st') ∧
     (sent st' = sent st
      ∨ sent st' = sent st ++ [token_request cfg JSON_stringify])).
Proof.
  split.
  - intros Hp. unfold tool_call. by rewrite Hp.
  - intros Hns. unfold tool_call.
    destruct (truthy path); simpl; [|eexists _, _; split; [done | by left]].
    unfold bind. rewrite callZenTao_run. simpl.
    destruct (assertConfig cfg); [|eexists _, _; split; [done | by left]].
    match goal with |- context [fetchToken _ _ _ _ ?f st] =>
      pose proof (fetchToken_trace cfg JSON_parse JSON_stringify remote f st) as Ht;
      destruct (fetchToken cfg JSON_parse JSON_stringify remote f st)
        as [[token|e0] st1] eqn:E end.
    + simpl in Ht.
      assert (buildUrl cfg path query = Raise JsTypeError) as ->.
      { destruct path; try done. by destruct (Hns s). }
      eexists _, _. split; [done|]. destruct Ht as [->|Ht]; auto.
    + simpl in Ht. eexists _, _. split; [done|]. destruct Ht as [->|Ht]; auto.
Qed.

(** What [callZenTao] sends: the login exchange if any, then at most one
    request, built from the descriptor. *)

Lemma callZenTao_trace d st :
  ∃ new,
    sent (callZenTao cfg JSON_parse JSON_stringify remote d st).2 = sent st ++ new ∧
    Forall (fun req =>
              req = token_request cfg JSON_stringify ∨
              ∃ token url,
                buildUrl cfg (d_path d) (d_query d) = Ok url ∧
                req = api_request JSON_stringify d token url) new.
Proof.
  rewrite callZenTao_run.
  destruct (assertConfig cfg); [|exists []; by rewrite app_nil_r].
  pose proof (fetchToken_trace cfg JSON_parse JSON_stringify remote
                (default_arg (d_forceTokenRefresh d) (VBool false)) st)
    as Ht.
  destruct (fetchToken _ _ _ _ _ st) as [[token|e] st1]; simpl in *.
  2: { destruct Ht as [->|Ht].
       - exists []. by rewrite app_nil_r.
       - exists [token_request cfg JSON_stringify]. split; [done|].
         constructor; [by left | constructor]. }
  destruct (buildUrl cfg _ _) as [url|e] eqn:Hurl.
  2: { destruct Ht as [->|Ht].
       - exists []. by rewrite app_nil_r.
       - exists [token_request cfg JSON_stringify]. split; [done|].
         constructor; [by left | constructor]. }
  simpl.
  assert (∃ new, sent (with_request st1 (api_request JSON_stringify d token url))
                 = sent st ++ new ∧
                 Forall (fun req =>
                   req = token_request cfg JSON_stringify ∨
                   ∃ token0 url0,
                     Ok url = Ok url0 ∧
                     req = api_request JSON_stringify d token0 url0) new) as Hnew.
  { unfold with_request. simpl. destruct Ht as [->|Ht].
    - eexists [_]. split; [done|]. constructor; [|constructor].
      right. by eexists _, _.
    - rewrite Ht, <- app_assoc. eexists. split; [done|].
      constructor; [by left|]. constructor; [|constructor].
      right. by eexists _, _. }
  destruct (remote _ _) as [res|]; [|exact Hnew].
  by destruct (ok res).
Qed.

End Exec.

(** A response with two [set-cookie] entries: the envelope holds the name
    once, with the last value. *)
Lemma callZenTao_envelope_witness :
  ∃ e st',
    callZenTao example_cfg example_parse example_stringify cookies_remote
      (get_descriptor "projects" VUndefined) logged_in_state = (Ok e, st') ∧
    env_status e = 200 ∧
    env_data e = VArr [] ∧
    env_headers e = [("content-type", "application/json"); ("set-cookie", "b=2")] ∧
    NoDup (map fst (env_headers e)) ∧
    (∀ v, ("set-cookie", v) ∈ env_headers e ↔ Some "b=2" = Some v).
Proof.
  exists {| env_status := 200;
            env_headers := [("content-type", "application/json");
                            ("set-cookie", "b=2")];
            env_data := VArr [] |},
    (callZenTao example_cfg example_parse example_stringify cookies_remote
       (get_descriptor "projects" VUndefined) logged_in_state).2.
  assert (callZenTao example_cfg example_parse example_stringify cookies_remote
            (get_descriptor "projects" VUndefined) logged_in_state
          = (Ok {| env_status := 200;
                   env_headers := [("content-type", "application/json");
                                   ("set-cookie", "b=2")];
                   env_data := VArr [] |},
             (callZenTao example_cfg example_parse example_stringify
                cookies_remote (get_descriptor "projects" VUndefined)
                logged_in_state).2)) as Hrun by (vm_compute; reflexivity).
  destruct (callZenTao_envelope example_cfg example_parse example_stringify
              cookies_remote (get_descriptor "projects" VUndefined)
              logged_in_state _ _ Hrun)
    as (_ & _ & before & req & res & Hsent & Hrem & _ & Hnd & Hlast & _).
  assert (res = cookies_response) as -> by (by injection Hrem).
  split; [exact Hrun|]. split; [reflexivity|]. split; [reflexivity|].
  split; [reflexivity|]. split; [exact Hnd|].
  intros v. exact (Hlast "set-cookie" v).
Defined.

(** ** Identity normalisation *)
Lemma lower_char_idem c : Str.lower_char (Str.lower_char c) = Str.lower_char c.
Proof. destruct c as [[] [] [] [] [] [] [] []]; reflexivity. Qed.

Lemma lower_char_space c : Str.is_space (Str.lower_char c) = Str.is_space c.
Proof. destruct c as [[] [] [] [] [] [] [] []]; reflexivity. Qed.

Lemma toLowerCase_idem s : Str.toLowerCase (Str.toLowerCase s) = Str.toLowerCase s.
Proof. induction s as [|c s IH]; simpl; [done|]. by rewrite lower_char_idem, IH. Qed.

Lemma trimStart_lower s :
  Str.trimStart (Str.toLowerCase s) = Str.toLowerCase (Str.trimStart s).
Proof.
  induction s as [|c s IH]; simpl; [done|].
  rewrite lower_char_space. by destruct (Str.is_space c).
Qed.

Lemma trimEnd_lower s :
  Str.trimEnd (Str.toLowerCase s) = Str.toLowerCase (Str.trimEnd s).
Proof.
  induction s as [|c s IH]; simpl; [done|].
  rewrite IH, lower_char_space.
  destruct (Str.trimEnd s); simpl; [by destruct (Str.is_space c)|done].
Qed.

Lemma trim_lower s : Str.trim (Str.toLowerCase s) = Str.toLowerCase (Str.trim s).
Proof. unfold Str.trim. by rewrite trimStart_lower, trimEnd_lower. Qed.

Lemma trimEnd_idem s : Str.trimEnd (Str.trimEnd s) = Str.trimEnd s.
Proof.
  induction s as [|c s IH]; simpl; [done|].
  destruct (Str.trimEnd s) as [|c' r] eqn:E.
  - destruct (Str.is_space c) eqn:Hc; simpl; [done|]. by rewrite Hc.
  - simpl. simpl in IH. by rewrite IH.
Qed.

Lemma trimStart_no_leading_space s : no_leading_space (Str.trimStart s).
Proof.
  induction s as [|c s IH]; simpl; [done|].
  by destruct (Str.is_space c) eqn:E.
Qed.

Lemma trimStart_fixed s : no_leading_space s -> Str.trimStart s = s.
Proof. destruct s as [|c s]; simpl; [done|]. by intros ->. Qed.

Lemma trimEnd_no_leading_space s :
  no_leading_space s -> no_leading_space (Str.trimEnd s).
Proof.
  destruct s as [|c s]; simpl; [done|]. intros Hc.
  destruct (Str.trimEnd s); simpl; [by rewrite Hc|done].
Qed.

Lemma trim_idem s : Str.trim (Str.trim s) = Str.trim s.
Proof.
  unfold Str.trim.
  rewrite (trimStart_fixed (Str.trimEnd (Str.trimStart s))).
  - apply trimEnd_idem.
  - apply trimEnd_no_leading_space, trimStart_no_leading_space.
Qed.

(** X6. Every identity that [normalizeAccount] returns is in normal form: it
    is not empty, it is not the text of a stringified object, it is in lower
    case and it has no white space around it.  A falsy value has no identity
    and any value has at most seven.  A name gives the same identities as the
    object that holds it as [account], and as the name itself once trimmed
    and lowered, so the comparison of identities ignores case and surrounding
    white space. *)
Theorem normalizeAccount_normal_form v :
  (∀ s, s ∈ normalizeAccount v ->
     s ≠ EmptyString ∧ s ≠ "[object object]" ∧
     Str.toLowerCase s = s ∧ Str.trim s = s) ∧
  (truthy v = false -> normalizeAccount v = []) ∧
  (length (normalizeAccount v) <= 7)%nat ∧
  (∀ s, normalizeAccount (VStr s)
        = normalizeAccount (VObj [("account", VStr s)])) ∧
  (∀ s, normalizeAccount (VStr (Str.toLowerCase (Str.trim s)))
        = normalizeAccount (VStr s)).
Proof.
  split; [|split; [|split; [|split]]].
  - intros s. unfold normalizeAccount.
    rewrite list_elem_of_filter, list_elem_of_fmap.
    intros [Hok (x & -> & _)].
    apply andb_prop_elim in Hok as [H1 H2].
    apply negb_prop_elim in H1, H2.
    split; [intros E; rewrite E in H1; by apply H1|].
    split; [intros E; rewrite E in H2; by apply H2|].
    split; [apply toLowerCase_idem|].
    by rewrite trim_lower, trim_idem.
  - intros Hv. unfold normalizeAccount. by rewrite Hv.
  - unfold normalizeAccount.
    etrans; [apply length_filter|]. rewrite length_map.
    destruct (truthy v); simpl; [|lia].
    destruct v; simpl; try lia.
    + etrans; [|reflexivity]. rewrite length_map.
      etrans; [apply length_filter|]. simpl. lia.
    + rewrite length_map. etrans; [apply length_filter|]. simpl. lia.
  - intros s. unfold normalizeAccount. simpl.
    destruct s; reflexivity.
  - intros s. unfold normalizeAccount.
    cbn [truthy ToString map].
    assert (Str.toLowerCase (Str.trim (Str.toLowerCase (Str.trim s)))
            = Str.toLowerCase (Str.trim s)) as Hn
      by by rewrite trim_lower, trim_idem, toLowerCase_idem.
    destruct (Str.toLowerCase (Str.trim s)) as [|c t] eqn:E.
    + destruct s; [done|]. cbn [Str.is_empty negb map]. by rewrite E.
    + destruct s; [done|]. cbn [Str.is_empty negb map]. by rewrite Hn, E.
Qed.

(** ** Patterns: the engine is sound for what a pattern means *)
Lemma star_loop_sound {R} g a step (k : string -> Regex.captures -> option R) :
  sound_for a step ->
  ∀ n s caps x, Regex.star_loop g step k n s caps = Some x ->
    ∃ s1 c1, matches (Regex.Star g a) s caps s1 c1 ∧ k s1 c1 = Some x.
Proof.
  intros Hstep. induction n as [|n IHn]; intros s caps x; simpl.
  - destruct g; [intros H; exists s, caps; split; [constructor | done]|].
    destruct (k s caps) eqn:E; [|done]. intros [= ->].
    exists s, caps. split; [constructor | done].
  - set (more := step s caps _).
    assert (more = Some x ->
            ∃ s1 c1, matches (Regex.Star g a) s caps s1 c1 ∧ k s1 c1 = Some x)
      as Hmore.
    { unfold more. intros E.
      apply Hstep in E as (s1 & c1 & M1 & H).
      destruct (Regex.shorter s1 s); [|done].
      apply IHn in H as (s2 & c2 & M2 & H).
      exists s2, c2. split; [by eapply matches_star_cons | done]. }
    destruct g.
    + destruct more as [y|]; [intros [= ->]; by apply Hmore|].
      intros H. exists s, caps. split; [constructor | done].
    + destruct (k s caps) as [y|] eqn:E;
        [intros [= ->]; exists s, caps; split; [constructor | done]|].
      exact Hmore.
Qed.

Lemma run_sound {R} (r : Regex.re) : sound_for (R:=R) r (Regex.run r).
Proof.
  induction r as [p| |a IHa b IHb|a IHa|g a IHa|i a IHa|];
    intros s caps k x; cbn [Regex.run].
  - destruct s as [|c s]; [done|]. destruct (p c) eqn:Hp; [|done].
    intros H. exists s, caps. split; [by constructor | done].
  - intros H. exists s, caps. split; [constructor | done].
  - intros H. apply IHa in H as (s1 & c1 & M1 & H).
    apply IHb in H as (s2 & c2 & M2 & H).
    exists s2, c2. split; [by econstructor | done].
  - destruct (Regex.run a s caps _) as [y|] eqn:E.
    + intros [= ->]. apply IHa in E as (s1 & c1 & M1 & H).
      destruct (Regex.shorter s1 s); [|done].
      exists s1, c1. split; [by apply matches_opt_some | done].
    + intros H. exists s, caps. split; [apply matches_opt_none | done].
  - by apply (star_loop_sound g a (Regex.run a) k IHa).
  - intros H. apply IHa in H as (s1 & c1 & M1 & H).
    eexists _, _. split; [by constructor | exact H].
  - destruct s; [|done]. intros H.
    exists EmptyString, caps. split; [constructor | done].
Qed.

Lemma matches_star_chr g p s caps s1 c1 :
  matches (Regex.Star g (Regex.Chr p)) s caps s1 c1 ->
  c1 = caps ∧ ∃ w, s = w +:+ s1 ∧ all_chars p w = true.
Proof.
  remember (Regex.Star g (Regex.Chr p)) as r eqn:Hr.
  induction 1 as [| | | | | |g' a s caps s1 c1 s2 c2 M1 _ M2 IH| |]; try done.
  - split; [done|]. by exists EmptyString.
  - injection Hr as -> ->. inversion M1; subst.
    destruct (IH eq_refl) as (-> & w & -> & Hw).
    split; [done|]. exists (String c w). split; [done|]. simpl.
    by apply andb_true_iff.
Qed.

Lemma matches_seq_inv a b s caps s2 c2 :
  matches (Regex.Seq a b) s caps s2 c2 ->
  ∃ s1 c1, matches a s caps s1 c1 ∧ matches b s1 c1 s2 c2.
Proof. inversion 1; subst. eauto. Qed.

Lemma matches_opt_inv a s caps s1 c1 :
  matches (Regex.Opt a) s caps s1 c1 ->
  matches a s caps s1 c1 ∨ (s1 = s ∧ c1 = caps).
Proof. inversion 1; subst; auto. Qed.

Lemma matches_group_inv i a s caps s1 c1 :
  matches (Regex.Group i a) s caps s1 c1 ->
  ∃ c0, matches a s caps s1 c0 ∧ c1 = <[i := Regex.consumed s s1]> c0.
Proof. inversion 1; subst. eauto. Qed.

Lemma matches_chr_inv p s caps s1 c1 :
  matches (Regex.Chr p) s caps s1 c1 ->
  c1 = caps ∧ ∃ c, s = String c s1 ∧ p c = true.
Proof. inversion 1; subst. eauto. Qed.

Lemma matches_eol_inv s caps s1 c1 :
  matches Regex.Eol s caps s1 c1 -> s = EmptyString ∧ s1 = EmptyString ∧ c1 = caps.
Proof. by inversion 1. Qed.

Lemma matches_plus_chr g p s caps s1 c1 :
  matches (Regex.Plus g (Regex.Chr p)) s caps s1 c1 ->
  c1 = caps ∧ ∃ c w, s = String c w +:+ s1 ∧ p c = true ∧ all_chars p w = true.
Proof.
  intros (s0 & c0 & (-> & c & -> & Hc)%matches_chr_inv
            & (-> & w & -> & Hw)%matches_star_chr)%matches_seq_inv.
  split; [done|]. by exists c, w.
Qed.

(** An exact literal consumes itself. *)
Lemma matches_lit_exact w s caps s1 c1 :
  matches (Regex.lit false w) s caps s1 c1 -> c1 = caps ∧ s = w +:+ s1.
Proof.
  revert s caps. induction w as [|c w IH]; intros s caps; simpl.
  - by inversion 1.
  - intros (s0 & c0 & (-> & x & -> & Hx)%matches_chr_inv & M)%matches_seq_inv.
    apply IH in M as (-> & ->). apply Ascii.eqb_eq in Hx as ->. done.
Qed.

(** A literal up to case consumes a text that equals it up to case. *)
Lemma matches_lit_nocase w s caps s1 c1 :
  matches (Regex.lit true w) s caps s1 c1 ->
  c1 = caps ∧ ∃ w', s = w' +:+ s1 ∧ Str.toLowerCase w' = Str.toLowerCase w.
Proof.
  revert s caps. induction w as [|c w IH]; intros s caps; simpl.
  - inversion 1; subst. split; [done|]. by exists EmptyString.
  - intros (s0 & c0 & (-> & x & -> & Hx)%matches_chr_inv & M)%matches_seq_inv.
    apply IH in M as (-> & w' & -> & Hw). split; [done|].
    exists (String x w'). split; [done|]. simpl.
    apply Ascii.eqb_eq in Hx. by rewrite Hx, Hw.
Qed.

Lemma matches_opt_quote s caps s1 c1 :
  matches (Regex.Opt (Regex.Chr Regex.is_quote)) s caps s1 c1 ->
  c1 = caps ∧ ∃ q, s = q +:+ s1 ∧
    (q = EmptyString ∨ ∃ c, q = String c EmptyString ∧ Regex.is_quote c = true).
Proof.
  intros [(-> & c & -> & Hc)%matches_chr_inv | [-> ->]]%matches_opt_inv.
  - split; [done|]. exists (String c EmptyString). split; [done|]. right. eauto.
  - split; [done|]. exists EmptyString. auto.
Qed.

Lemma length_append a b :
  String.length (a +:+ b) = (String.length a + String.length b)%nat.
Proof. induction a as [|c a IH]; [done|]. rewrite append_cons. simpl. by rewrite IH. Qed.

Lemma substring_prefix pre s :
  String.substring 0 (String.length pre) (pre +:+ s) = pre.
Proof.
  induction pre as [|c pre IH].
  - by destruct s.
  - rewrite append_cons. simpl. by rewrite IH.
Qed.

Lemma consumed_prefix pre s : Regex.consumed (pre +:+ s) s = pre.
Proof.
  unfold Regex.consumed. rewrite length_append.
  replace (String.length pre + String.length s - String.length s)%nat
    with (String.length pre) by lia.
  apply substring_prefix.
Qed.

Lemma search_sound r s caps rest :
  Regex.search r s = Some (caps, rest) ->
  ∃ pre s0, s = pre +:+ s0 ∧ matches r s0 ∅ rest caps.
Proof.
  induction s as [|c s IH]; cbn [Regex.search];
    destruct (Regex.match_here r _) as [[c0 r0]|] eqn:E.
  - intros [= -> ->]. apply run_sound in E as (s1 & c1 & M & [= <- <-]).
    by exists EmptyString, EmptyString.
  - done.
  - intros [= -> ->]. apply run_sound in E as (s1 & c1 & M & [= <- <-]).
    by exists EmptyString, (String c s).
  - intros (pre & s0 & -> & M)%IH. by exists (String c pre), s0.
Qed.

(** ** The lines of a configuration file *)

(** The shape of a line that the pattern of [loadEnvFallback] matches. *)
Lemma envRegex_exec_shape line caps :
  envRegex_exec line = Some caps ->
  ∃ lead key mid value trail,
    line = lead +:+ key +:+ mid +:+ value +:+ trail ∧
    caps !! 1%nat = Some key ∧ caps !! 2%nat = Some value ∧
    is_lead lead ∧ is_identifier key = true ∧ is_separator mid ∧
    all_chars Regex.is_dot value = true ∧ is_trail trail.
Proof.
  unfold envRegex_exec. intros H.
  apply run_sound in H as (s' & c' & M & [= ->]). unfold envRegex in M.
  apply matches_seq_inv in M as (s1 & c1 & (-> & a & -> & Ha)%matches_star_chr & M).
  apply matches_seq_inv in M as (s2 & c2 & Mexp & M).
  assert (c2 = ∅ ∧ ∃ e, s1 = e +:+ s2 ∧
          (e = EmptyString ∨
           ∃ c w, e = "export" +:+ String c w ∧ Str.is_space c = true
                  ∧ all_chars Str.is_space w = true)) as (-> & e & -> & He).
  { apply matches_opt_inv in Mexp as [Mexp|[-> ->]].
    - apply matches_seq_inv in Mexp
        as (s0 & c0 & (-> & ->)%matches_lit_exact
              & (-> & c & w & -> & Hc & Hw)%matches_plus_chr).
      split; [done|]. exists ("export" +:+ String c w). split.
      + by rewrite <- append_assoc.
      + right. by exists c, w.
    - split; [done|]. exists EmptyString. auto. }
  apply matches_seq_inv in M as (s3 & c3 & Mkey & M).
  apply matches_group_inv in Mkey as (c0 & Mkey & ->).
  apply matches_seq_inv in Mkey
    as (s0 & ck & (-> & k0 & -> & Hk0)%matches_chr_inv
          & (-> & kw & -> & Hkw)%matches_star_chr).
  change (String k0 (kw +:+ s3)) with (String k0 kw +:+ s3) in *.
  rewrite consumed_prefix in M.
  apply matches_seq_inv in M as (s4 & c4 & (-> & b1 & -> & Hb1)%matches_star_chr & M).
  apply matches_seq_inv in M as (s5 & c5 & (-> & eq & -> & Heq)%matches_chr_inv & M).
  apply Ascii.eqb_eq in Heq as <-.
  apply matches_seq_inv in M as (s6 & c6 & (-> & b2 & -> & Hb2)%matches_star_chr & M).
  apply matches_seq_inv in M as (s7 & c7 & (-> & q1 & -> & Hq1)%matches_opt_quote & M).
  apply matches_seq_inv in M as (s8 & c8 & Mval & M).
  apply matches_group_inv in Mval as (c0 & (-> & v & -> & Hv)%matches_star_chr & ->).
  rewrite consumed_prefix in M.
  apply matches_seq_inv in M as (s9 & c9 & (-> & q2 & -> & Hq2)%matches_opt_quote & M).
  apply matches_seq_inv in M
    as (s10 & c10 & (-> & b3 & -> & Hb3)%matches_star_chr
          & (-> & _ & ->)%matches_eol_inv).
  exists (a +:+ e), (String k0 kw), (b1 +:+ "=" +:+ b2 +:+ q1), v, (q2 +:+ b3).
  unfold Regex.captures in *.
  split; [|split; [|split; [|split; [|split; [|split; [|split]]]]]].
  - rewrite append_empty_r. by rewrite !append_assoc.
  - rewrite lookup_insert_ne by done. by rewrite lookup_insert_eq.
  - by rewrite lookup_insert_eq.
  - by exists a, e.
  - simpl. by rewrite Hk0, Hkw.
  - by exists b1, b2, q1.
  - done.
  - by exists q2, b3.
Qed.

Lemma trimStart_blank a s :
  all_chars Str.is_space a = true -> Str.trimStart (a +:+ s) = Str.trimStart s.
Proof.
  induction a as [|c a IH]; [done|]. rewrite append_cons. simpl.
  intros [Hc Ha]%andb_true_iff. rewrite Hc. auto.
Qed.

Lemma identifier_start key :
  is_identifier key = true ->
  ∃ c rest, key = String c rest ∧ Str.is_space c = false ∧ c ≠ "#"%char.
Proof.
  destruct key as [|c rest]; [done|]. simpl.
  intros [Hc _]%andb_true_iff. exists c, rest. split; [done|].
  destruct c as [[] [] [] [] [] [] [] []]; try done; by split.
Qed.

(** X7. One line of a configuration file either leaves the environment as it
    was, or it has the shape of an assignment (a lead of white space and an
    optional [export], a key that is an identifier, the sign [=], a value
    without line terminator, an optional quote and trailing white space), its
    key is unset or empty, and the key gets the trimmed value.  So a line
    without the sign [=] and a comment line, whose first character after
    white space is [#], assign nothing; and no line assigns a key that is not
    an identifier. *)
Theorem loadEnvLine_assigns env line :
  (loadEnvLine env line = env ∨
   ∃ lead key mid value trail,
     line = lead +:+ key +:+ mid +:+ value +:+ trail ∧
     is_lead lead ∧ is_identifier key = true ∧ is_separator mid ∧
     all_chars Regex.is_dot value = true ∧ is_trail trail ∧
     env_unset env key = true ∧
     loadEnvLine env line = <[key := Str.trim value]> env) ∧
  (UrlSpec.has_char "=" line = false -> loadEnvLine env line = env) ∧
  (∀ rest, Str.trimStart line = String "#" rest -> loadEnvLine env line = env) ∧
  (∀ key, is_identifier key = false -> loadEnvLine env line !! key = env !! key).
Proof.
  unfold loadEnvLine.
  destruct (envRegex_exec line) as [caps|] eqn:E; [|by repeat split; auto].
  apply envRegex_exec_shape in E
    as (lead & key & mid & value & trail & Hline & -> & -> & Hlead & Hkey
          & Hmid & Hval & Htrail).
  simpl. split; [|split; [|split]].
  - destruct (env_unset env key) eqn:Hu; [|by left].
    right. by exists lead, key, mid, value, trail.
  - intros Hno. exfalso.
    destruct Hmid as (a & b & q & -> & _). subst line.
    rewrite !has_char_app in Hno. simpl in Hno.
    by rewrite !orb_true_r in Hno.
  - intros rest Hrest. exfalso.
    destruct Hlead as (a & e & -> & Ha & He). subst line.
    destruct He as [->|(c & w & -> & _)].
    + rewrite append_empty_r, trimStart_blank in Hrest by done.
      destruct (identifier_start key Hkey) as (c & r & -> & Hc & Hne).
      rewrite append_cons in Hrest. simpl in Hrest.
      rewrite Hc in Hrest. by injection Hrest.
    + rewrite append_assoc, trimStart_blank in Hrest by done.
      rewrite append_assoc in Hrest. done.
  - intros k Hk. destruct (env_unset env key); [|done].
    rewrite lookup_insert_ne; [done|]. intros ->. congruence.
Qed.

(** ** Image sources *)

Lemma suffix_of_refl s : suffix_of s s.
Proof. by exists EmptyString. Qed.

Lemma lower_char_eqb c d :
  Ascii.eqb (Str.lower_char c) d = true -> Str.lower_char c = d.
Proof. by intros H%Ascii.eqb_eq. Qed.

Lemma shorter_tail c s : Regex.shorter s (String c s) = true.
Proof. unfold Regex.shorter. simpl. apply Nat.ltb_lt. lia. Qed.

Lemma httpRegex_test url :
  is_Some (Regex.match_here httpRegex url) -> is_http_url url.
Proof.
  unfold Regex.match_here, httpRegex, is_http_url.
  cbn [Regex.lit Regex.run].
  destruct url as [|c1 [|c2 [|c3 [|c4 url]]]];
    try (intros [? H]; simpl in H; repeat case_match; done).
  destruct (Ascii.eqb (Str.lower_char c1) _) eqn:E1; [|by intros [? ?]].
  destruct (Ascii.eqb (Str.lower_char c2) _) eqn:E2; [|by intros [? ?]].
  destruct (Ascii.eqb (Str.lower_char c3) _) eqn:E3; [|by intros [? ?]].
  destruct (Ascii.eqb (Str.lower_char c4) _) eqn:E4; [|by intros [? ?]].
  apply lower_char_eqb in E1, E2, E3, E4.
  cbn [Str.toLowerCase]. rewrite E1, E2, E3, E4. clear E1 E2 E3 E4.
  destruct url as [|a u]; [by intros [? ?]|].
  rewrite shorter_tail.
  destruct u as [|b [|c [|d r]]]; cbn [Str.toLowerCase];
    repeat match goal with
           | |- context [Ascii.eqb (Str.lower_char ?x) ?y] =>
               let E := fresh "E" in
               destruct (Ascii.eqb (Str.lower_char x) y) eqn:E;
               [apply lower_char_eqb in E; try rewrite E|]
           end;
    try (by intros [? ?]); intros _;
    try (by eexists; left); try (by eexists; right).
Qed.

Lemma imgRegex_needs_lt c s :
  Ascii.eqb c "<" = false -> Regex.match_here imgRegex (String c s) = None.
Proof.
  intros Hc. unfold Regex.match_here, imgRegex. cbn [Regex.lit Regex.run].
  assert (Ascii.eqb (Str.lower_char c) (Str.lower_char "<") = false) as ->; [|done].
  destruct c as [[] [] [] [] [] [] [] []]; try reflexivity; discriminate.
Qed.

Lemma search_imgRegex_no_lt s :
  UrlSpec.has_char "<" s = false -> Regex.search imgRegex s = None.
Proof.
  induction s as [|c s IH]; [done|]. simpl UrlSpec.has_char.
  intros [Hc Hs]%orb_false_iff. cbn [Regex.search].
  by rewrite imgRegex_needs_lt, IH.
Qed.

Lemma imgRegex_shape s0 rest caps :
  matches imgRegex s0 ∅ rest caps ->
  ∃ tag url,
    s0 = tag +:+ rest ∧ caps !! 1%nat = Some url ∧ url ≠ EmptyString ∧
    all_chars is_src_char url = true ∧ is_img_run tag url.
Proof.
  unfold imgRegex. intros M.
  apply matches_seq_inv in M
    as (s1 & c1 & (-> & w1 & -> & Hw1)%matches_lit_nocase & M).
  apply matches_seq_inv in M
    as (s2 & c2 & (-> & a0 & a & -> & Ha0 & Ha)%matches_plus_chr & M).
  apply matches_seq_inv in M
    as (s3 & c3 & (-> & w2 & -> & Hw2)%matches_lit_nocase & M).
  apply matches_seq_inv in M
    as (s4 & c4 & (-> & q1 & -> & Hq1)%matches_opt_quote & M).
  apply matches_seq_inv in M as (s5 & c5 & Murl & M).
  apply matches_group_inv in Murl
    as (c0 & (-> & u0 & u & -> & Hu0 & Hu)%matches_plus_chr & ->).
  rewrite consumed_prefix in M.
  apply matches_seq_inv in M
    as (s6 & c6 & (-> & q2 & -> & Hq2)%matches_opt_quote & M).
  apply matches_seq_inv in M
    as (s7 & c7 & (-> & more & -> & Hmore)%matches_star_chr
          & (-> & gt & -> & Hgt)%matches_chr_inv).
  apply Ascii.eqb_eq in Hgt as <-.
  exists (w1 +:+ String a0 a +:+ w2 +:+ q1 +:+ String u0 u +:+ q2 +:+ more +:+ ">"),
    (String u0 u).
  unfold Regex.captures in *.
  split; [by rewrite !append_assoc|].
  split; [by rewrite lookup_insert_eq|]. split; [done|].
  split; [cbn [all_chars]; apply andb_true_iff; split; [exact Hu0 | exact Hu]|].
  exists w1, (String a0 a), w2, q1, q2, more.
  split; [done|]. split; [done|]. split; [done|].
  split; [cbn [all_chars]; apply andb_true_iff; split; [exact Ha0 | exact Ha]|].
  done.
Qed.

Lemma parseImageSources_loop_tags text fuel :
  ∀ s urls,
    suffix_of s text ->
    Forall (image_source_of text) urls ->
    Forall (image_source_of text) (parseImageSources_loop fuel s urls).
Proof.
  induction fuel as [|fuel IH]; intros s urls Hs Hu; simpl; [done|].
  destruct (Regex.search imgRegex s) as [[caps rest]|] eqn:E; [|done].
  apply search_sound in E as (pre & s0 & -> & M).
  apply imgRegex_shape in M as (tag & url & -> & Hcap & Hne & Hchars & Htag).
  destruct Hs as [p ->].
  apply IH.
  { exists (p +:+ pre +:+ tag). by rewrite !append_assoc. }
  rewrite Hcap. simpl.
  destruct (Str.is_empty url) eqn:He; simpl; [done|].
  case_bool_decide as Hhttp; [|done].
  apply Forall_app. split; [done|]. constructor; [|done].
  split; [done|]. split; [by apply httpRegex_test|]. split; [done|].
  exists (p +:+ pre), tag, rest. split; [by rewrite !append_assoc | done].
Qed.

(** X8. Every source that [parseImageSources] returns is not empty, begins
    with [http://] or [https://] in any case, holds no quote, no [>] and no
    white space, and stands in the text in a run that the pattern accepts:
    after the characters [<img], at least one character other than [>] and
    the characters [src=], with optional quotes around it, before the next
    [>].  A text without [<] has no image source.  The pattern does not
    check that the tag is an [img] tag or that the attribute is [src]: the
    tag [imgx] with the attribute [data-src] yields its value. *)
Theorem parseImageSources_sound html :
  Forall (image_source_of (ToString (default_arg html (VStr EmptyString))))
    (parseImageSources html) ∧
  (UrlSpec.has_char "<" (ToString (default_arg html (VStr EmptyString))) = false ->
   parseImageSources html = []) ∧
  parseImageSources (VStr loose_tag) = ["http://a/1.png"].
Proof.
  split; [|split].
  - unfold parseImageSources. apply parseImageSources_loop_tags.
    + apply suffix_of_refl.
    + constructor.
  - intros Hno. unfold parseImageSources. simpl.
    by rewrite search_imgRegex_no_lt.
  - vm_compute. reflexivity.
Qed.

(** The steps of the example bug hold one image. *)
Lemma parseImageSources_bug_steps :
  parseImageSources (VStr bug_steps) = ["https://files.example/a.png"].
Proof. vm_compute. reflexivity. Qed.

(** ** Listings *)
Lemma filterR_sublist {A} (f : A -> result bool) l r :
  filterR f l = Ok r -> r `sublist_of` l.
Proof.
  revert r. induction l as [|x l IH]; intros r; simpl.
  - intros [= <-]. constructor.
  - destruct (f x) as [b|e]; simpl; [|done].
    destruct (filterR f l) as [r'|e]; simpl; [|done].
    intros [= <-]. destruct b; [apply sublist_skip | apply sublist_cons]; auto.
Qed.

Lemma filterR_complete {A} (f : A -> result bool) l r x :
  filterR f l = Ok r -> x ∈ l -> f x = Ok true -> x ∈ r.
Proof.
  revert r. induction l as [|y l IH]; intros r; simpl.
  - intros _ Hx. by apply elem_of_nil in Hx.
  - destruct (f y) as [b|e] eqn:Ey; simpl; [|done].
    destruct (filterR f l) as [r'|e]; simpl; [|done].
    intros [= <-] [->|Hin]%elem_of_cons Hx.
    + rewrite Hx in Ey. injection Ey as <-. apply list_elem_of_here.
    + destruct b; [apply list_elem_of_further|]; by apply IH.
Qed.

Lemma someR_true {A} (f : A -> result bool) l :
  someR f l = Ok true -> ∃ x, x ∈ l ∧ f x = Ok true.
Proof.
  induction l as [|y l IH]; simpl; [done|].
  destruct (f y) as [[]|e] eqn:Ey; simpl; [| |done].
  - intros _. exists y. split; [apply list_elem_of_here | done].
  - intros (x & Hx & Hfx)%IH. exists x. split; [by apply list_elem_of_further | done].
Qed.

Lemma slice_to_sublist {A} limit (l : list A) : slice_to limit l `sublist_of` l.
Proof. unfold slice_to. destruct (limit <? 0); apply sublist_take. Qed.

Lemma slice_to_length {A} limit (l : list A) :
  0 <= limit -> (length (slice_to limit l) <= Z.to_nat limit)%nat.
Proof.
  intros H. unfold slice_to.
  assert ((limit <? 0) = false) as -> by lia.
  rewrite length_take. lia.
Qed.

Lemma last_write_unique k kvs :
  NoDup (map fst kvs) -> last_write k kvs = lookup_prop k kvs.
Proof.
  unfold last_write. induction kvs as [|[k' v] kvs IH]; [done|].
  simpl. intros Hnd. apply NoDup_cons in Hnd as [Hnotin Hnd].
  assert (∀ l, lookup_prop k (l ++ [(k', v)])
               = match lookup_prop k l with
                 | Some x => Some x
                 | None => if Str.eqb k' k then Some v else None
                 end) as ->.
  { induction l as [|[k2 v2] l IHl]; simpl; [done|].
    by destruct (Str.eqb k2 k). }
  rewrite (IH Hnd). unfold Str.eqb.
  case_bool_decide as E; [subst k'|].
  - assert (lookup_prop k kvs = None) as ->; [|done].
    clear -Hnotin. induction kvs as [|[k2 v2] kvs IH]; [done|]. simpl.
    unfold Str.eqb. rewrite bool_decide_eq_false_2.
    + apply IH. intros H. apply Hnotin. simpl. by apply list_elem_of_further.
    + intros ->. apply Hnotin. simpl. apply list_elem_of_here.
  - by destruct (lookup_prop k kvs).
Qed.


Section Listings.

Variable cfg : Config.
Variable JSON_parse : string -> option value.
Variable JSON_stringify : value -> string.
Variable remote : nat -> Request -> fetch_result.

(** X9. The detail that [getBugWithImages] returns for a bug is the bug of
    the response to [bugs/<id>] with two fields set: [stepsHtml] is the
    [steps] of the bug, else its [stepsHtml], else the empty text, and
    [stepsImages] is the list of the image sources of that text.  Every other
    field is the one of the bug (the last one written, when the payload
    repeats a key). *)
Theorem getBugWithImages_keeps_fields bugId st detail st' :
  getBugWithImages cfg JSON_parse JSON_stringify remote bugId st = (Ok detail, st') ->
  ∃ e props html,
    callZenTao cfg JSON_parse JSON_stringify remote
      (get_descriptor ("bugs/" +:+ ToString bugId) VUndefined) st = (Ok e, st') ∧
    detail = VObj props ∧
    lookup_prop "stepsHtml" props = Some html ∧
    lookup_prop "stepsImages" props = Some (VArr (map VStr (parseImageSources html))) ∧
    (∀ bprops, env_data e = VObj bprops ->
       html = or_else (prop (VObj bprops) "steps")
                (or_else (prop (VObj bprops) "stepsHtml") (VStr EmptyString)) ∧
       ∀ k, k ≠ "stepsHtml" -> k ≠ "stepsImages" ->
         lookup_prop k props = last_write k bprops ∧
         (NoDup (map fst bprops) -> lookup_prop k props = lookup_prop k bprops)).
Proof.
  unfold getBugWithImages, bind, ret.
  destruct (callZenTao _ _ _ _ _ st) as [[e|err] st1]; [|done].
  intros [= <- <-]. eexists e, _, _. split; [done|]. split; [reflexivity|].
  split; [|split].
  - rewrite !lookup_set_prop. reflexivity.
  - rewrite lookup_set_prop. reflexivity.
  - intros bprops Hd. rewrite Hd. simpl. split; [done|].
    intros k Hk1 Hk2.
    match goal with
    | |- ?lhs = _ ∧ _ => assert (lhs = last_write k bprops) as Hl
    end.
    { rewrite !lookup_set_prop. unfold Str.eqb.
      rewrite !bool_decide_eq_false_2 by done.
      unfold spread_into. simpl. rewrite lookup_fold_set_prop.
      by destruct (last_write k bprops). }
    split; [exact Hl|]. intros Hnd. by rewrite Hl, last_write_unique.
Qed.

(** X10. What [listProducts] returns is a part of the product list of the
    response, in its order, and never more than [limit] products (for a
    limit that is not negative).  Without a keyword it is the first [limit]
    products; with a keyword that is a non-empty string, every product
    returned is an object whose name includes the keyword,
    case-insensitively. *)
Theorem listProducts_result keyword limit st products st' :
  listProducts cfg JSON_parse JSON_stringify remote keyword limit st
    = (Ok products, st') ->
  ∃ e,
    callZenTao cfg JSON_parse JSON_stringify remote
      (get_descriptor "products"
         (VObj [("page", VNum 1); ("limit", VNum limit); ("keywords", keyword)])) st
      = (Ok e, st') ∧
    products `sublist_of` extractArray (env_data e) ["products"] ∧
    (0 <= limit -> (length products <= Z.to_nat limit)%nat) ∧
    (truthy keyword = false ->
     products = slice_to limit (extractArray (env_data e) ["products"])) ∧
    (∀ q, keyword = VStr q -> q ≠ EmptyString ->
       Forall (fun p =>
                 is_object p = true ∧
                 Str.includes (Str.toLowerCase (ToString (prop p "name")))
                   (Str.toLowerCase q) = true) products).
Proof.
  unfold listProducts, bind, lift, ret.
  destruct (callZenTao _ _ _ _ _ st) as [[e|err] st1]; [|done].
  destruct (if truthy keyword then _ else _) as [filtered|err] eqn:E; [|done].
  intros [= <- <-]. exists e. split; [done|].
  split; [|split; [|split]].
  - etrans; [apply slice_to_sublist|].
    destruct (truthy keyword); [by eapply filterR_sublist | by injection E as <-].
  - apply slice_to_length.
  - intros Hk. rewrite Hk in E. by injection E as <-.
  - intros q -> Hq.
    assert (truthy (VStr q) = true) as Ht by by destruct q.
    rewrite Ht in E.
    assert (Forall (fun p =>
                 is_object p = true ∧
                 Str.includes (Str.toLowerCase (ToString (prop p "name")))
                   (Str.toLowerCase q) = true) filtered) as Hall.
    { eapply filterR_Forall; [|exact E].
      intros p. unfold get. destruct (nullish p) eqn:Hn; [done|]. simpl.
      destruct (is_object p) eqn:Ho.
      - destruct (truthy (prop p "name")) eqn:Hname.
        + unfold or_else. rewrite Hname. by intros [= ->].
        + unfold or_else. rewrite Hname. simpl.
          destruct (Str.toLowerCase q) eqn:El; [by apply toLowerCase_empty in El|].
          done.
      - rewrite (prop_name_of_non_object p Ho Hn). simpl.
        destruct (Str.toLowerCase q) eqn:El; [by apply toLowerCase_empty in El|].
        done. }
    unfold slice_to. destruct (limit <? 0); by apply Forall_take.
Qed.

(** X11. The bugs that [fetchBugsByProduct] returns are the bugs of the
    response to its request (the page, 20 bugs a page unless a limit is
    given, of the bugs of the product) that pass the three filters, in the
    order of the response and with none left out: there is no local limit;
    [raw] is the payload of that response.  So, when the account is
    configured, every bug returned names it among the identities of its
    assignee; with a keyword, the title (else the name) of every bug returned
    includes it, case-insensitively; and with a status and without
    [allStatuses], the status (else the state) of every bug returned equals
    it up to case and surrounding white space. *)
Theorem fetchBugsByProduct_result q st bugs raw st' :
  fetchBugsByProduct cfg JSON_parse JSON_stringify remote q st
    = (Ok (bugs, raw), st') ->
  let accountLower := Str.toLowerCase (Str.trim (account cfg)) in
  let statusLower := Str.toLowerCase (Str.trim (ToString (q_status q))) in
  let allStatuses := default_arg (q_allStatuses q) (VBool false) in
  ∃ e,
    callZenTao cfg JSON_parse JSON_stringify remote
      (bugs_request (q_productId q) (q_keyword q)
         (default_arg (q_page q) (VNum 1)) (default_arg (q_limit q) (VNum 20))) st
      = (Ok e, st') ∧
    raw = env_data e ∧
    bugs = filter (fun b => passes_filters cfg (q_keyword q) allStatuses
                              (q_status q) b = true)
             (extractArray (env_data e) ["bugs"]) ∧
    bugs `sublist_of` extractArray (env_data e) ["bugs"] ∧
    (Str.trim (account cfg) ≠ EmptyString ->
     Forall (fun b =>
               accountLower ∈
                 normalizeAccount (prop b "assignedTo")
                 ++ normalizeAccount (prop b "assignedToName")
                 ++ normalizeAccount (prop b "assignedToRealname")) bugs) ∧
    (∀ kw, q_keyword q = VStr kw -> kw ≠ EmptyString ->
       Forall (fun b =>
                 Str.includes
                   (Str.toLowerCase
                      (ToString (or_else (prop b "title")
                                   (or_else (prop b "name") (VStr EmptyString)))))
                   (Str.toLowerCase kw) = true) bugs) ∧
    (truthy allStatuses = false ->
     truthy (q_status q) = true -> statusLower ≠ EmptyString ->
     Forall (fun b =>
               Str.toLowerCase
                 (Str.trim
                    (ToString (or_else (prop b "status")
                                 (or_else (prop b "state") (VStr EmptyString)))))
               = statusLower) bugs).
Proof.
  intros Hrun. cbv zeta.
  destruct (fetchBugsByProduct_filtered cfg JSON_parse JSON_stringify remote
              q st bugs raw st' Hrun) as (e & Hcall & -> & Hbugs & _).
  exists e. split; [exact Hcall|]. split; [reflexivity|]. split; [exact Hbugs|].
  assert (Forall (fun b => passes_filters cfg (q_keyword q)
                             (default_arg (q_allStatuses q) (VBool false))
                             (q_status q) b = true) bugs) as Hall.
  { rewrite Hbugs. apply Forall_forall. intros b Hb.
    by apply list_elem_of_filter in Hb as [Hp _]. }
  split; [rewrite Hbugs; apply sublist_filter|].
  split; [|split].
  - intros Hacc. eapply Forall_impl; [exact Hall|]. intros b Hp.
    unfold passes_filters, assigned_to in Hp.
    apply andb_true_iff in Hp as [Hp _]. apply andb_true_iff in Hp as [Hp _].
    apply orb_true_iff in Hp as [He|Hin]; [|by apply bool_decide_eq_true in Hin].
    destruct (Str.toLowerCase (Str.trim (account cfg))) eqn:El; [|done].
    by apply toLowerCase_empty in El.
  - intros kw Hkw Hne. eapply Forall_impl; [exact Hall|]. intros b Hp.
    unfold passes_filters, title_includes in Hp. rewrite Hkw in Hp.
    apply andb_true_iff in Hp as [Hp _]. apply andb_true_iff in Hp as [_ Hp].
    apply orb_true_iff in Hp as [He|Hin]; [by destruct kw | done].
  - intros Hno Hst Hne. eapply Forall_impl; [exact Hall|]. intros b Hp.
    unfold passes_filters, status_is in Hp. rewrite Hno, Hst in Hp.
    apply andb_true_iff in Hp as [_ Hp]. simpl in Hp.
    apply orb_true_iff in Hp as [He|Heq].
    + by destruct (Str.toLowerCase (Str.trim (ToString (q_status q)))).
    + unfold Str.eqb in Heq. by apply bool_decide_eq_true in Heq.
Qed.

End Listings.

(** The detail of the example bug. *)
Lemma getBugWithImages_keeps_fields_witness :
  ∃ props html,
    bug_42_detail = VObj props ∧
    lookup_prop "stepsHtml" props = Some html ∧
    lookup_prop "stepsImages" props
    = Some (VArr (map VStr (parseImageSources html))).
Proof.
  assert (getBugWithImages example_cfg bug_parse example_stringify bug_remote
            (VNum 42) logged_in_state
          = (Ok bug_42_detail,
             (getBugWithImages example_cfg bug_parse example_stringify bug_remote
                (VNum 42) logged_in_state).2)) as Hrun by (vm_compute; reflexivity).
  destruct (getBugWithImages_keeps_fields example_cfg bug_parse example_stringify
              bug_remote (VNum 42) logged_in_state _ _ Hrun)
    as (e & props & html & _ & Hdetail & Hhtml & Himages & _).
  exists props, html. split; [exact Hdetail|]. split; [exact Hhtml | exact Himages].
Defined.

(** The products that match [Foo]. *)
Lemma listProducts_result_witness :
  ∃ products st',
    listProducts example_cfg products_parse example_stringify products_remote
      (VStr "Foo") 50 logged_in_state = (Ok products, st') ∧
    (length products <= 50)%nat ∧
    Forall (fun p =>
              is_object p = true ∧
              Str.includes (Str.toLowerCase (ToString (prop p "name"))) "foo"
              = true) products.
Proof.
  exists [product_foo; product_foobar],
    (listProducts example_cfg products_parse example_stringify products_remote
       (VStr "Foo") 50 logged_in_state).2.
  assert (listProducts example_cfg products_parse example_stringify products_remote
            (VStr "Foo") 50 logged_in_state
          = (Ok [product_foo; product_foobar],
             (listProducts example_cfg products_parse example_stringify
                products_remote (VStr "Foo") 50 logged_in_state).2)) as Hrun
    by (vm_compute; reflexivity).
  destruct (listProducts_result example_cfg products_parse example_stringify
              products_remote (VStr "Foo") 50 logged_in_state _ _ Hrun)
    as (e & _ & _ & Hlen & _ & Hall).
  split; [exact Hrun|]. split.
  - apply Hlen. lia.
  - apply (Hall "Foo"); [reflexivity | discriminate].
Defined.

(** A page with one bug of the account. *)
Lemma fetchBugsByProduct_result_witness :
  ∃ st',
    fetchBugsByProduct example_cfg late_parse example_stringify bugs_remote
      (page_query (VNum 7) VUndefined VUndefined 1) logged_in_state
    = (Ok ([late_bug], VObj [("bugs", VArr [late_bug])]), st') ∧
    [late_bug]
    = filter (fun b => passes_filters example_cfg VUndefined (VBool false)
                         VUndefined b = true) [late_bug] ∧
    Forall (fun b =>
              "alice" ∈ normalizeAccount (prop b "assignedTo")
                        ++ normalizeAccount (prop b "assignedToName")
                        ++ normalizeAccount (prop b "assignedToRealname"))
      [late_bug].
Proof.
  exists (fetchBugsByProduct example_cfg late_parse example_stringify bugs_remote
            (page_query (VNum 7) VUndefined VUndefined 1) logged_in_state).2.
  assert (fetchBugsByProduct example_cfg late_parse example_stringify bugs_remote
            (page_query (VNum 7) VUndefined VUndefined 1) logged_in_state
          = (Ok ([late_bug], VObj [("bugs", VArr [late_bug])]),
             (fetchBugsByProduct example_cfg late_parse example_stringify
                bugs_remote (page_query (VNum 7) VUndefined VUndefined 1)
                logged_in_state).2)) as Hrun by (vm_compute; reflexivity).
  pose proof (fetchBugsByProduct_result example_cfg late_parse example_stringify
                bugs_remote (page_query (VNum 7) VUndefined VUndefined 1)
                logged_in_state _ _ _ Hrun) as H.
  cbv zeta in H. destruct H as (e & Hcall & Hraw & Hbugs & _ & Hacc & _).
  rewrite <- Hraw in Hbugs.
  split; [exact Hrun|]. split; [exact Hbugs|]. apply Hacc. discriminate.
Defined.

Section Projects.

Variable cfg : Config.
Variable JSON_parse : string -> option value.
Variable JSON_stringify : value -> string.
Variable remote : nat -> Request -> fetch_result.

(** X12. What [listProjectsForAccount] returns is a part of the project list
    of the response, in its order, and never more than [limit] projects,
    50 when no limit is given.  When the account is configured, every
    project returned involves it: one of the role fields of the project, or
    the account (else the name) of a member of its team, equals the account
    up to case. *)
Theorem listProjectsForAccount_result keyword limit st projects st' :
  listProjectsForAccount cfg JSON_parse JSON_stringify remote keyword limit st
    = (Ok projects, st') ->
  ∃ e,
    callZenTao cfg JSON_parse JSON_stringify remote
      (get_descriptor "projects"
         (VObj [("page", VNum 1); ("limit", VNum (default 50%Z limit))])) st
      = (Ok e, st') ∧
    projects `sublist_of` extractArray (env_data e) ["projects"] ∧
    (0 <= default 50%Z limit -> (length projects <= Z.to_nat (default 50%Z limit))%nat) ∧
    (Str.trim (account cfg) ≠ EmptyString ->
     Forall (involves (Str.toLowerCase (Str.trim (account cfg)))) projects).
Proof.
  unfold listProjectsForAccount, bind, lift, ret.
  destruct (callZenTao _ _ _ _ _ st) as [[e|err] st1]; [|done].
  destruct (filterR _ _) as [filtered|err] eqn:E; [|done].
  intros [= <- <-]. exists e. split; [done|].
  split; [|split].
  - etrans; [apply slice_to_sublist | by eapply filterR_sublist].
  - apply slice_to_length.
  - intros Hacc.
    assert (Forall (involves (Str.toLowerCase (Str.trim (account cfg)))) filtered)
      as Hall.
    { eapply filterR_Forall; [|exact E].
      intros p. unfold project_matches, get.
      destruct (nullish p); [done|]. simpl.
      destruct (if truthy keyword then _ else _) as [mk|err]; [|done]. simpl.
      destruct (Str.is_empty _) eqn:He.
      { destruct (Str.toLowerCase (Str.trim (account cfg))) eqn:El; [|done].
        by apply toLowerCase_empty in El. }
      destruct (someR _ _) as [teamMatch|err] eqn:Hsome; [|done]. simpl.
      intros [= Hm]. apply andb_true_iff in Hm as [_ Hm].
      apply orb_true_iff in Hm as [->|Hf].
      - right. apply someR_true in Hsome as (m & Hin & Hm).
        destruct (prop p "teamMembers") as [| | | | |team|] eqn:Ht;
          try by apply elem_of_nil in Hin.
        exists team, m. split; [done|]. split; [done|].
        unfold member_matches, get in Hm.
        destruct (nullish m); [done|]. simpl in Hm.
        injection Hm as Hm. unfold Str.eqb in Hm.
        by apply bool_decide_eq_true in Hm.
      - left. apply bool_decide_eq_true in Hf.
        apply list_elem_of_fmap in Hf as (v & Hv & Hin).
        apply list_elem_of_filter in Hin as [Htr Hin].
        change (v ∈ prop p <$> role_fields) in Hin.
        apply list_elem_of_fmap in Hin as (field & -> & Hfield).
        exists field. done. }
    unfold slice_to. destruct (default 50%Z limit <? 0); by apply Forall_take.
Qed.

End Projects.

(** Of the two projects of the example, only the one that [Alice] manages
    is listed for [alice]. *)
Lemma listProjectsForAccount_result_witness :
  ∃ st',
    listProjectsForAccount example_cfg projects_parse example_stringify
      projects_remote VUndefined None logged_in_state
    = (Ok [project_apollo], st') ∧
    [project_apollo] `sublist_of` [project_apollo; project_zeus] ∧
    Forall (involves "alice") [project_apollo].
Proof.
  exists (listProjectsForAccount example_cfg projects_parse example_stringify
            projects_remote VUndefined None logged_in_state).2.
  assert (listProjectsForAccount example_cfg projects_parse example_stringify
            projects_remote VUndefined None logged_in_state
          = (Ok [project_apollo],
             (listProjectsForAccount example_cfg projects_parse example_stringify
                projects_remote VUndefined None logged_in_state).2)) as Hrun
    by (vm_compute; reflexivity).
  destruct (listProjectsForAccount_result example_cfg projects_parse
              example_stringify projects_remote VUndefined None logged_in_state
              _ _ Hrun) as (e & Hcall & Hsub & _ & Hall).
  assert (e = {| env_status := 200; env_headers := [];
                 env_data := VObj [("projects",
                                    VArr [project_apollo; project_zeus])] |})
    as He.
  { vm_compute in Hcall. by injection Hcall as <-. }
  rewrite He in Hsub.
  split; [exact Hrun|]. split; [exact Hsub|]. apply Hall. discriminate.
Defined.

(** ** The configuration read at start-up *)
Lemma strip_trailing_slash_slash s : strip_trailing_slash (s +:+ "/") = s.
Proof.
  induction s as [|c s IH]; [done|].
  rewrite append_cons. simpl. rewrite IH.
  destruct s; [done|]. by rewrite append_cons.
Qed.

Lemma strip_trailing_slash_other s :
  (∀ b, s ≠ b +:+ "/") -> strip_trailing_slash s = s.
Proof.
  induction s as [|c s IH]; [done|]. intros Hs. simpl.
  destruct s as [|c' s].
  - destruct (Ascii.eqb_spec c "/"%char) as [->|]; [|done].
    by destruct (Hs EmptyString).
  - change (String c (strip_trailing_slash (String c' s)) = String c (String c' s)).
    f_equal. apply IH. intros b Hb. apply (Hs (String c b)).
    by rewrite append_cons, Hb.
Qed.

(** X14. The base URL is the variable [ZENTAO_BASE_URL] without one trailing
    slash: a value that ends in a slash loses it, so that a relative path is
    joined to it with exactly one slash before [api.php]; a value that does
    not end in a slash is taken as it is; of two trailing slashes one is
    left.  An unset or empty variable makes every call fail with "Missing
    ZENTAO_BASE_URL". *)
Theorem config_of_env_base_url env :
  (∀ b, env !! "ZENTAO_BASE_URL" = Some (b +:+ "/") ->
     baseUrl (config_of_env env) = b ∧
     ∀ path,
       Str.startsWith path "http" = false ->
       buildUrl_str (config_of_env env) path VUndefined
       = b +:+ "/api.php/v1/" +:+ strip_leading_slash path) ∧
  (∀ b, env !! "ZENTAO_BASE_URL" = Some b -> (∀ b', b ≠ b' +:+ "/") ->
     baseUrl (config_of_env env) = b) ∧
  (env_unset env "ZENTAO_BASE_URL" = true ->
   assertConfig (config_of_env env) = Raise (JsError "Missing ZENTAO_BASE_URL")) ∧
  (∀ b, env !! "ZENTAO_BASE_URL" = Some (b +:+ "//") ->
     baseUrl (config_of_env env) = b +:+ "/").
Proof.
  unfold config_of_env. split; [|split; [|split]].
  - intros b Hb. simpl. rewrite Hb. simpl. rewrite strip_trailing_slash_slash.
    split; [done|]. intros path Hp. unfold buildUrl_str. simpl.
    rewrite Hp. simpl. by rewrite ?strip_trailing_slash_slash.
  - intros b Hb Hns. simpl. rewrite Hb. simpl.
    by apply strip_trailing_slash_other.
  - unfold env_unset, assertConfig. simpl.
    destruct (env !! "ZENTAO_BASE_URL") as [v|]; [|done].
    by destruct v.
  - intros b Hb. simpl. rewrite Hb. simpl.
    replace (b +:+ "//") with ((b +:+ "/") +:+ "/")
      by (by rewrite append_assoc).
    apply strip_trailing_slash_slash.
Qed.

Section Start.

Variable JSON_parse : string -> option value.
Variable JSON_stringify : value -> string.
Variable remote : nat -> Request -> fetch_result.

(** X15. With a token in the variable [ZENTAO_TOKEN] and the configuration
    complete, the first call of the executor after start-up sends exactly one
    request, the API request with that token, and no login exchange; the
    token stays cached. *)
Theorem environment_token_skips_login env t d p :
  env !! "ZENTAO_TOKEN" = Some t -> t ≠ EmptyString ->
  assertConfig (config_of_env env) = Ok tt ->
  truthy (default_arg (d_forceTokenRefresh d) (VBool false)) = false ->
  d_path d = VStr p ->
  let st := {| cachedToken := initial_token env; sent := [] |} in
  let run := callZenTao (config_of_env env) JSON_parse JSON_stringify remote d st in
  sent run.2
  = [api_request JSON_stringify d (VStr t)
       (buildUrl_str (config_of_env env) p (d_query d))] ∧
  cachedToken run.2 = VStr t ∧
  login_count (config_of_env env) (sent run.2) = 0%nat.
Proof.
  intros Ht Hne Hcfg Hf Hp st run. subst run.
  assert (cachedToken st = VStr t) as Hct.
  { unfold st, initial_token, env_or_empty. simpl. by rewrite Ht. }
  assert (truthy (cachedToken st) = true) as Hc.
  { rewrite Hct. by destruct t. }
  assert (sent st = []) as Hs by done.
  assert (login_count (config_of_env env)
            [api_request JSON_stringify d (VStr t)
               (buildUrl_str (config_of_env env) p (d_query d))] = 0%nat) as Hl.
  { unfold login_count. rewrite filter_cons.
    by rewrite api_request_not_login. }
  clearbody st.
  rewrite callZenTao_run, Hcfg, fetchToken_cached_path by done.
  rewrite Hp, Hct. unfold buildUrl.
  destruct (remote _ _) as [res|]; [destruct (ok res)|];
    unfold with_request; simpl; by rewrite Hs, Hct.
Qed.

End Start.

(** The first call with the token [t-1] in the environment. *)
Lemma environment_token_skips_login_witness :
  sent (callZenTao (config_of_env seeded_env) example_parse example_stringify
          login_then_lists (get_descriptor "projects" VUndefined)
          {| cachedToken := initial_token seeded_env; sent := [] |}).2
  = [api_request example_stringify (get_descriptor "projects" VUndefined)
       (VStr "t-1")
       (buildUrl_str (config_of_env seeded_env) "projects" VUndefined)].
Proof.
  pose proof (environment_token_skips_login example_parse example_stringify
                login_then_lists seeded_env "t-1"
                (get_descriptor "projects" VUndefined) "projects") as H.
  cbv zeta in H. apply H; [reflexivity | discriminate | reflexivity..].
Defined.


Section Reports.

Variable cfg : Config.
Variable JSON_parse : string -> option value.
Variable JSON_stringify : value -> string.
Variable JSON_stringify_indent : value -> string.
Variable remote : nat -> Request -> fetch_result.
Variable endpointIndex : string.


(** X17. Reading the resource [zentao://config] sends no request, leaves the
    state as it was and never fails; its text depends only on which settings
    are present and on whether a token is cached, not on their values: two
    configurations and tokens that agree on that give the same text.  The
    text holds no line feed (the source joins the lines with a backslash
    and the letter [n]). *)
Theorem read_resource_config_hides_values cfg' remote' st st2 :
  Str.is_empty (baseUrl cfg) = Str.is_empty (baseUrl cfg') ->
  Str.is_empty (account cfg) = Str.is_empty (account cfg') ->
  Str.is_empty (password cfg) = Str.is_empty (password cfg') ->
  truthy (cachedToken st) = truthy (cachedToken st2) ->
  ∃ text,
    read_resource cfg JSON_parse JSON_stringify JSON_stringify_indent remote
      endpointIndex "zentao://config" st = (Ok text, st) ∧
    read_resource cfg' JSON_parse JSON_stringify JSON_stringify_indent remote'
      endpointIndex "zentao://config" st2 = (Ok text, st2) ∧
    UrlSpec.has_char "010" text = false.
Proof.
  intros H1 H2 H3 H4. eexists. split; [reflexivity|].
  unfold read_resource, bind, read_cachedToken, ret, config_report. simpl.
  rewrite <- H1, <- H2, <- H3, <- H4. split; [done|].
  destruct (Str.is_empty (baseUrl cfg)), (Str.is_empty (account cfg)),
    (Str.is_empty (password cfg)), (truthy (cachedToken st)); reflexivity.
Qed.

End Reports.

(** Two configurations with every setting present read the same. *)
Lemma read_resource_config_hides_values_witness :
  ∃ text,
    read_resource example_cfg example_parse example_stringify example_stringify
      login_then_lists "index" "zentao://config" logged_in_state
    = (Ok text, logged_in_state) ∧
    read_resource other_cfg example_parse example_stringify example_stringify
      always_boom "index" "zentao://config" other_state
    = (Ok text, other_state) ∧
    UrlSpec.has_char "010" text = false.
Proof.
  exact (read_resource_config_hides_values example_cfg example_parse
           example_stringify example_stringify login_then_lists "index"
           other_cfg always_boom logged_in_state other_state
           eq_refl eq_refl eq_refl eq_refl).
Defined.

(** ** Login exchanges per operation *)

Lemma login_count_app cfg a b :
  login_count cfg (a ++ b) = (login_count cfg a + login_count cfg b)%nat.
Proof. unfold login_count. by rewrite filter_app, length_app. Qed.

Section Logins.

Variable cfg : Config.
Variable JSON_parse : string -> option value.
Variable JSON_stringify : value -> string.
Variable JSON_stringify_indent : value -> string.
Variable remote : nat -> Request -> fetch_result.
Variable endpointIndex : string.

Lemma login_count_api d token url :
  login_count cfg [api_request JSON_stringify d token url] = 0%nat.
Proof.
  unfold login_count. rewrite filter_cons.
  by rewrite api_request_not_login.
Qed.

Lemma login_count_one req : (login_count cfg [req] <= 1)%nat.
Proof.
  unfold login_count. etrans; [apply length_filter|]. done.
Qed.

Lemma one_login_none (st : State) :
  ∃ new, sent st = sent st ++ new ∧ (login_count cfg new <= 1)%nat.
Proof.
  exists []. rewrite app_nil_r. split; [done|]. unfold login_count. simpl. lia.
Qed.

(** The executor performs at most one login exchange, whatever it is asked. *)
Lemma callZenTao_one_login d st :
  ∃ new,
    sent (callZenTao cfg JSON_parse JSON_stringify remote d st).2 = sent st ++ new ∧
    (login_count cfg new <= 1)%nat.
Proof.
  rewrite callZenTao_run.
  destruct (assertConfig cfg); [|apply one_login_none].
  pose proof (fetchToken_trace cfg JSON_parse JSON_stringify remote
                (default_arg (d_forceTokenRefresh d) (VBool false)) st) as Ht.
  destruct (fetchToken _ _ _ _ _ st) as [[token|e] st1]; simpl in *.
  2: { destruct Ht as [->|Ht].
       - apply one_login_none.
       - eexists. split; [exact Ht | apply login_count_one]. }
  destruct (buildUrl cfg _ _) as [url|e].
  2: { destruct Ht as [->|Ht].
       - apply one_login_none.
       - eexists. split; [exact Ht | apply login_count_one]. }
  simpl.
  assert (∃ new, sent (with_request st1 (api_request JSON_stringify d token url))
                 = sent st ++ new ∧ (login_count cfg new <= 1)%nat) as Hnew.
  { unfold with_request. simpl. destruct Ht as [->|Ht].
    - eexists [_]. split; [done|]. rewrite login_count_api. lia.
    - rewrite Ht, <- app_assoc. eexists. split; [done|].
      rewrite login_count_app, login_count_api.
      pose proof (login_count_one (token_request cfg JSON_stringify)). lia. }
  destruct (remote _ _) as [res|]; [|exact Hnew].
  by destruct (ok res).
Qed.

Lemma once_pure {A} (m : M A) :
  (∀ st, (m st).2 = st) -> logs_in_at_most_once cfg m.
Proof.
  intros Hm st. exists []. rewrite Hm, app_nil_r.
  split; [done|]. split; [unfold login_count; simpl; lia|].
  split; [done|]. intros a _ Hl. unfold login_count in Hl. simpl in Hl. lia.
Qed.

Lemma once_ret {A} (a : A) : logs_in_at_most_once cfg (ret a).
Proof. by apply once_pure. Qed.

Lemma once_throw {A} e : logs_in_at_most_once cfg (throw (A:=A) e).
Proof. by apply once_pure. Qed.

Lemma once_lift {A} (r : result A) : logs_in_at_most_once cfg (lift r).
Proof. by apply once_pure. Qed.

Lemma once_bind {A B} (m : M A) (k : A -> M B) :
  logs_in_at_most_once cfg m ->
  (∀ a, logs_in_at_most_once cfg (k a)) ->
  logs_in_at_most_once cfg (bind m k).
Proof.
  intros Hm Hk st. unfold bind.
  destruct (Hm st) as (n1 & H1 & L1 & C1 & O1).
  destruct (m st) as [[a|e] st1]; simpl in *.
  2: { exists n1. split; [done|]. split; [done|]. split; [done|]. done. }
  destruct (Hk a st1) as (n2 & H2 & L2 & C2 & O2).
  exists (n1 ++ n2). rewrite H2, H1, <- app_assoc, login_count_app.
  split; [done|].
  assert (login_count cfg n1 = 1%nat -> login_count cfg n2 = 0%nat) as Hone.
  { intros E. by apply C2, (O1 a). }
  split; [lia|]. split.
  - intros Hc. destruct (C1 Hc) as [E1 Hc1]. destruct (C2 Hc1) as [E2 Hc2].
    split; [lia | done].
  - intros b Hb Hcount.
    destruct (decide (login_count cfg n1 = 1%nat)) as [E|E].
    + by apply C2, (O1 a).
    + apply (O2 b Hb). lia.
Qed.

Lemma once_callZenTao d :
  truthy (default_arg (d_forceTokenRefresh d) (VBool false)) = false ->
  logs_in_at_most_once cfg (callZenTao cfg JSON_parse JSON_stringify remote d).
Proof.
  intros Hf st.
  destruct (callZenTao_one_login d st) as (new & Hs & Hl).
  exists new. split; [done|]. split; [done|]. split.
  - intros Hc.
    destruct (callZenTao_cached cfg JSON_parse JSON_stringify remote d st Hc Hf)
      as (new' & Hs' & Hl' & Hc').
    rewrite Hs' in Hs. apply app_inv_head in Hs. subst new'.
    split; [done|]. by rewrite Hc'.
  - intros a Ha _.
    by apply (proj2 (callZenTao_grows cfg JSON_parse JSON_stringify remote d st Hf) a).
Qed.

Lemma once_listProducts keyword limit :
  logs_in_at_most_once cfg
    (listProducts cfg JSON_parse JSON_stringify remote keyword limit).
Proof.
  unfold listProducts. apply once_bind; [by apply once_callZenTao|].
  intros e. apply once_bind; [apply once_lift|]. intros f. apply once_ret.
Qed.

Lemma once_fetchBugsByProduct q :
  logs_in_at_most_once cfg
    (fetchBugsByProduct cfg JSON_parse JSON_stringify remote q).
Proof.
  unfold fetchBugsByProduct. apply once_bind; [by apply once_callZenTao|].
  intros e. apply once_bind; [apply once_lift|]. intros f. apply once_ret.
Qed.

Lemma once_getBugWithImages bugId :
  logs_in_at_most_once cfg
    (getBugWithImages cfg JSON_parse JSON_stringify remote bugId).
Proof.
  unfold getBugWithImages. apply once_bind; [by apply once_callZenTao|].
  intros e. apply once_ret.
Qed.

Lemma once_listProjectsForAccount keyword limit :
  logs_in_at_most_once cfg
    (listProjectsForAccount cfg JSON_parse JSON_stringify remote keyword limit).
Proof.
  unfold listProjectsForAccount. apply once_bind; [by apply once_callZenTao|].
  intros e. apply once_bind; [apply once_lift|]. intros f. apply once_ret.
Qed.

Lemma once_bug_detail_text bug :
  logs_in_at_most_once cfg
    (bug_detail_text cfg JSON_parse JSON_stringify JSON_stringify_indent remote bug).
Proof.
  unfold bug_detail_text.
  apply once_bind; [apply once_lift|]. intros id.
  apply once_bind; [apply once_lift|]. intros bugId.
  apply once_bind; [apply once_getBugWithImages|]. intros detail.
  apply once_ret.
Qed.

Lemma once_getNextBug_loop fuel productId keyword status page st r st' :
  getNextBug_loop cfg JSON_parse JSON_stringify JSON_stringify_indent remote
    fuel productId keyword status page st = Some (r, st') ->
  ∃ new,
    sent st' = sent st ++ new ∧
    (login_count cfg new <= 1)%nat ∧
    (truthy (cachedToken st) = true ->
     login_count cfg new = 0%nat ∧ truthy (cachedToken st') = true) ∧
    (∀ text, r = Ok text -> login_count cfg new = 1%nat ->
             truthy (cachedToken st') = true).
Proof.
  revert page st. induction fuel as [|fuel IH]; intros page st; simpl; [done|].
  destruct (page <=? 10).
  2: { intros [= <- <-]. exists []. rewrite app_nil_r.
       split; [done|]. split; [unfold login_count; simpl; lia|].
       split; [done|]. intros text _ Hl. unfold login_count in Hl.
       simpl in Hl. lia. }
  destruct (once_fetchBugsByProduct (page_query productId keyword status page) st)
    as (n1 & H1 & L1 & C1 & O1).
  destruct (fetchBugsByProduct _ _ _ _ _ st) as [[[bugs raw]|e] st1]; simpl in *.
  2: { intros [= <- <-]. exists n1. split; [done|]. split; [done|].
       split; [done|]. done. }
  assert (∀ n2,
            sent st' = sent st1 ++ n2 ->
            (login_count cfg n2 <= 1)%nat ->
            (truthy (cachedToken st1) = true ->
             login_count cfg n2 = 0%nat ∧ truthy (cachedToken st') = true) ->
            (∀ text, r = Ok text -> login_count cfg n2 = 1%nat ->
                     truthy (cachedToken st') = true) ->
            ∃ new,
              sent st' = sent st ++ new ∧
              (login_count cfg new <= 1)%nat ∧
              (truthy (cachedToken st) = true ->
               login_count cfg new = 0%nat ∧ truthy (cachedToken st') = true) ∧
              (∀ text, r = Ok text -> login_count cfg new = 1%nat ->
                       truthy (cachedToken st') = true))
    as Hjoin.
  { intros n2 H2 L2 C2 O2. exists (n1 ++ n2).
    rewrite H2, H1, <- app_assoc, login_count_app. split; [done|].
    assert (login_count cfg n1 = 1%nat -> login_count cfg n2 = 0%nat) as Hone.
    { intros E. by apply C2, (O1 (bugs, raw)). }
    split; [lia|]. split.
    - intros Hc. destruct (C1 Hc) as [E1 Hc1].
      destruct (C2 Hc1) as [E2 Hc2]. split; [lia | done].
    - intros text Hr Hcount.
      destruct (decide (login_count cfg n1 = 1%nat)) as [E|E].
      + by apply C2, (O1 (bugs, raw)).
      + apply (O2 text Hr). lia. }
  destruct bugs as [|bug0 bugs].
  - intros Hrest. destruct (IH _ _ Hrest) as (n2 & H2 & L2 & C2 & O2).
    by apply (Hjoin n2).
  - intros Hd.
    destruct (once_bug_detail_text bug0 st1) as (n2 & H2 & L2 & C2 & O2).
    injection Hd as Hd. rewrite Hd in H2, C2, O2. simpl in H2, C2, O2.
    apply (Hjoin n2); [done|done|done|].
    intros text ->. exact (O2 text eq_refl).
Qed.

(** X18. Every tool call and every resource read performs at most one login
    exchange, whatever the remote answers.  Apart from [get_token] and
    [call], which can force a refresh, a tool that starts with a token cached
    performs none and leaves a token cached; and when a tool that logged in
    returns a result, a token is cached. *)
Theorem tools_log_in_at_most_once :
  (∀ forceRefresh st,
     ∃ new,
       sent (tool_get_token cfg JSON_parse JSON_stringify remote forceRefresh st).2
       = sent st ++ new ∧ (login_count cfg new <= 1)%nat) ∧
  (∀ path method query body forceTokenRefresh st,
     ∃ new,
       sent (tool_call cfg JSON_parse JSON_stringify JSON_stringify_indent remote
               path method query body forceTokenRefresh st).2
       = sent st ++ new ∧ (login_count cfg new <= 1)%nat) ∧
  (∀ keyword limit,
     logs_in_at_most_once cfg
       (tool_listMyProjects cfg JSON_parse JSON_stringify JSON_stringify_indent
          remote keyword limit)) ∧
  (∀ keyword limit,
     logs_in_at_most_once cfg
       (tool_searchProducts cfg JSON_parse JSON_stringify JSON_stringify_indent
          remote keyword limit)) ∧
  (∀ productName keyword status allStatuses,
     logs_in_at_most_once cfg
       (tool_getMyBug cfg JSON_parse JSON_stringify JSON_stringify_indent remote
          productName keyword status allStatuses)) ∧
  (∀ productId keyword status allStatuses limit,
     logs_in_at_most_once cfg
       (tool_getMyBugs cfg JSON_parse JSON_stringify JSON_stringify_indent remote
          productId keyword status allStatuses limit)) ∧
  (∀ fuel productId keyword status st r st',
     tool_getNextBug cfg JSON_parse JSON_stringify JSON_stringify_indent remote
       fuel productId keyword status st = Some (r, st') ->
     ∃ new,
       sent st' = sent st ++ new ∧
       (login_count cfg new <= 1)%nat ∧
       (truthy (cachedToken st) = true ->
        login_count cfg new = 0%nat ∧ truthy (cachedToken st') = true) ∧
       (∀ text, r = Ok text -> login_count cfg new = 1%nat ->
                truthy (cachedToken st') = true)) ∧
  (∀ productId activeOnly,
     logs_in_at_most_once cfg
       (tool_getBugStats cfg JSON_parse JSON_stringify JSON_stringify_indent remote
          productId activeOnly)) ∧
  (∀ bugId,
     logs_in_at_most_once cfg
       (tool_getBugDetail cfg JSON_parse JSON_stringify JSON_stringify_indent
          remote bugId)) ∧
  (∀ bugId comment,
     logs_in_at_most_once cfg
       (tool_markBugResolved cfg JSON_parse JSON_stringify JSON_stringify_indent
          remote bugId comment)) ∧
  (∀ uri,
     logs_in_at_most_once cfg
       (read_resource cfg JSON_parse JSON_stringify JSON_stringify_indent remote
          endpointIndex uri)).
Proof.
  repeat apply conj.
  - intros f st. unfold tool_get_token, bind.
    pose proof (fetchToken_trace cfg JSON_parse JSON_stringify remote
                  (VBool (truthy f)) st) as Ht.
    destruct (fetchToken _ _ _ _ _ st) as [[token|e] st1]; simpl in *;
      (destruct Ht as [->|Ht];
       [apply one_login_none
       | eexists; split; [exact Ht | apply login_count_one]]).
  - intros path method query body force st. unfold tool_call.
    destruct (negb (truthy path)); [apply one_login_none|].
    unfold bind.
    match goal with
    | |- context [callZenTao _ _ _ _ ?d st] =>
        destruct (callZenTao_one_login d st) as (new & Hs & Hl);
        destruct (callZenTao cfg JSON_parse JSON_stringify remote d st)
          as [[e|err] st1]
    end; by exists new.
  - intros keyword limit. unfold tool_listMyProjects.
    apply once_bind; [apply once_listProjectsForAccount|].
    intros ps. apply once_ret.
  - intros keyword limit. unfold tool_searchProducts.
    apply once_bind; [apply once_listProducts|]. intros ps. apply once_ret.
  - intros productName keyword status allStatuses. unfold tool_getMyBug.
    apply once_bind.
    { unfold findProductByName. destruct (negb (truthy productName));
        [apply once_throw|].
      apply once_bind; [apply once_listProducts|]. intros c. apply once_lift. }
    intros found. destruct (negb (truthy found.1)).
    { apply once_bind; [apply once_lift|]. intros e. apply once_throw. }
    apply once_bind; [apply once_lift|]. intros pid.
    apply once_bind; [apply once_fetchBugsByProduct|]. intros fetched.
    destruct fetched.1 as [|bug0 rest].
    { apply once_bind; [apply once_lift|]. intros pname. apply once_ret. }
    apply once_bind; [apply once_lift|]. intros id.
    apply once_bind; [apply once_lift|]. intros bugId.
    apply once_bind; [apply once_getBugWithImages|]. intros detail.
    apply once_bind; [apply once_lift|]. intros pname. apply once_ret.
  - intros productId keyword status allStatuses limit. unfold tool_getMyBugs.
    apply once_bind; [apply once_fetchBugsByProduct|]. intros f. apply once_ret.
  - intros fuel productId keyword status st r st'. apply once_getNextBug_loop.
  - intros productId activeOnly. unfold tool_getBugStats.
    apply once_bind; [apply once_fetchBugsByProduct|]. intros f.
    apply once_bind; [apply once_lift|]. intros a. apply once_ret.
  - intros bugId. unfold tool_getBugDetail.
    apply once_bind; [apply once_getBugWithImages|]. intros b. apply once_ret.
  - intros bugId comment. unfold tool_markBugResolved.
    apply once_bind; [by apply once_callZenTao|]. intros e. apply once_ret.
  - intros uri. unfold read_resource.
    destruct (Str.eqb uri "zentao://endpoints"); [apply once_ret|].
    destruct (Str.eqb uri "zentao://config").
    { apply once_bind; [by apply once_pure | intros t; apply once_ret]. }
    destruct (Str.eqb uri "zentao://projects"); [|apply once_throw].
    apply once_bind; [apply once_listProjectsForAccount|].
    intros ps. apply once_ret.
Qed.

End Logins.

(** ** The requests of the bug operations and of [call] *)

Section Writes.

Variable cfg : Config.
Variable JSON_parse : string -> option value.
Variable JSON_stringify : value -> string.
Variable JSON_stringify_indent : value -> string.
Variable remote : nat -> Request -> fetch_result.

(** With a token cached and the configuration complete, a call with a string
    path sends exactly the request built from the descriptor. *)
Lemma callZenTao_cached_request d p st :
  assertConfig cfg = Ok tt ->
  truthy (cachedToken st) = true ->
  truthy (default_arg (d_forceTokenRefresh d) (VBool false)) = false ->
  d_path d = VStr p ->
  sent (callZenTao cfg JSON_parse JSON_stringify remote d st).2
  = sent st ++ [api_request JSON_stringify d (cachedToken st)
                  (buildUrl_str cfg p (d_query d))] ∧
  cachedToken (callZenTao cfg JSON_parse JSON_stringify remote d st).2
  = cachedToken st.
Proof.
  intros Hcfg Hc Hf Hp.
  rewrite callZenTao_run, Hcfg, fetchToken_cached_path by done.
  rewrite Hp. unfold buildUrl.
  destruct (remote _ _) as [res|]; [destruct (ok res)|]; done.
Qed.

(** X19. With a token cached and the configuration complete, reading a bug
    sends exactly one request, a GET of [bugs/<id>] under the API root with
    no body, and resolving a bug sends exactly one request, a POST to
    [bugs/<id>/resolve] whose body is the resolution [fixed] with the
    caller's comment; both carry the cached token.  The id is put into the
    path as text without a check: a missing id gives the path
    [bugs/undefined]. *)
Theorem bug_requests bugId comment st :
  assertConfig cfg = Ok tt ->
  truthy (cachedToken st) = true ->
  sent (getBugWithImages cfg JSON_parse JSON_stringify remote bugId st).2
  = sent st ++
    [ {| req_url := baseUrl cfg +:+ "/api.php/v1/bugs/" +:+ ToString bugId;
         req_method := VStr "GET";
         req_headers := [ ("Content-Type", VStr "application/json");
                          ("Token", cachedToken st) ];
         req_body := None |} ] ∧
  sent (tool_markBugResolved cfg JSON_parse JSON_stringify JSON_stringify_indent
          remote bugId comment st).2
  = sent st ++
    [ {| req_url := baseUrl cfg +:+ "/api.php/v1/bugs/" +:+ ToString bugId
                    +:+ "/resolve";
         req_method := VStr "POST";
         req_headers := [ ("Content-Type", VStr "application/json");
                          ("Token", cachedToken st) ];
         req_body :=
           Some (JSON_stringify
                   (VObj [("resolution", VStr "fixed"); ("comment", comment)])) |} ] ∧
  ToString VUndefined = "undefined" ∧ ToString VNull = "null".
Proof.
  intros Hcfg Hc. split; [|split; [|done]].
  - unfold getBugWithImages, bind.
    destruct (callZenTao_cached_request
                (get_descriptor ("bugs/" +:+ ToString bugId) VUndefined)
                ("bugs/" +:+ ToString bugId) st Hcfg Hc eq_refl eq_refl)
      as [Hs _].
    destruct (callZenTao _ _ _ _ _ st) as [[e|err] st1]; simpl in *; exact Hs.
  - unfold tool_markBugResolved, bind.
    destruct (callZenTao_cached_request (resolve_descriptor bugId comment)
                ("bugs/" +:+ ToString bugId +:+ "/resolve") st Hcfg Hc
                eq_refl eq_refl) as [Hs _].
    destruct (callZenTao _ _ _ _ _ st) as [[e|err] st1]; simpl in *; exact Hs.
Qed.

(** X20. The tool [call] with a path that begins with [http] sends the
    request to that address as it is (followed by the query string, if any),
    not to the configured base URL, and the request carries the cached token
    in its [Token] header. *)
Theorem tool_call_absolute_url p method query body forceTokenRefresh st :
  Str.startsWith p "http" = true ->
  truthy forceTokenRefresh = false ->
  assertConfig cfg = Ok tt ->
  truthy (cachedToken st) = true ->
  ∃ req,
    sent (tool_call cfg JSON_parse JSON_stringify JSON_stringify_indent remote
            (VStr p) method query body forceTokenRefresh st).2
    = sent st ++ [req] ∧
    (truthy query = false -> req_url req = p) ∧
    (∃ suffix, req_url req = p +:+ suffix) ∧
    req_headers req
    = [("Content-Type", VStr "application/json"); ("Token", cachedToken st)].
Proof.
  intros Hp Hforce Hcfg Hc. unfold tool_call.
  assert (truthy (VStr p) = true) as -> by by destruct p.
  assert (truthy (default_arg (default_arg forceTokenRefresh (VBool false))
                    (VBool false)) = false) as Hf
    by by destruct forceTokenRefresh.
  cbn [negb]. unfold bind.
  assert (∃ suffix, buildUrl_str cfg p query = p +:+ suffix) as Hsuffix.
  { unfold buildUrl_str. rewrite Hp.
    destruct (negb (truthy query) || _);
      [exists EmptyString; by rewrite append_empty_r | by eexists]. }
  assert (truthy query = false -> buildUrl_str cfg p query = p) as Hplain.
  { intros Hq. unfold buildUrl_str. by rewrite Hp, Hq. }
  match goal with
  | |- context [callZenTao _ _ _ _ ?d st] =>
      destruct (callZenTao_cached_request d p st Hcfg Hc Hf eq_refl)
        as [Hs _];
      destruct (callZenTao cfg JSON_parse JSON_stringify remote d st)
        as [[e|err] st1]
  end; simpl in Hs |- *;
    (eexists; split; [exact Hs|]; split; [exact Hplain|]; split;
     [exact Hsuffix | reflexivity]).
Qed.

End Writes.

(** Resolving the bug 42 with a comment. *)
Lemma bug_requests_witness :
  sent (tool_markBugResolved example_cfg example_parse example_stringify
          example_stringify login_then_lists (VNum 42) (VStr "done")
          logged_in_state).2
  = sent logged_in_state ++
    [ {| req_url := baseUrl example_cfg +:+ "/api.php/v1/bugs/"
                    +:+ ToString (VNum 42) +:+ "/resolve";
         req_method := VStr "POST";
         req_headers := [ ("Content-Type", VStr "application/json");
                          ("Token", cachedToken logged_in_state) ];
         req_body :=
           Some (example_stringify
                   (VObj [("resolution", VStr "fixed");
                          ("comment", VStr "done")])) |} ].
Proof.
  exact (proj1 (proj2 (bug_requests example_cfg example_parse example_stringify
                         example_stringify login_then_lists (VNum 42)
                         (VStr "done") logged_in_state eq_refl eq_refl))).
Defined.

(** A call to another host carries the token. *)
Lemma tool_call_absolute_url_witness :
  ∃ req,
    sent (tool_call example_cfg example_parse example_stringify example_stringify
            login_then_lists (VStr "https://other.example/api") VUndefined
            VUndefined VUndefined VUndefined logged_in_state).2
    = sent logged_in_state ++ [req] ∧
    req_url req = "https://other.example/api" ∧
    req_headers req
    = [("Content-Type", VStr "application/json"); ("Token", VStr "t-1")].
Proof.
  destruct (tool_call_absolute_url example_cfg example_parse example_stringify
              example_stringify login_then_lists "https://other.example/api"
              VUndefined VUndefined VUndefined VUndefined logged_in_state
              eq_refl eq_refl eq_refl eq_refl)
    as (req & Hsent & Hplain & _ & Hheaders).
  exists req. split; [exact Hsent|]. split; [exact (Hplain eq_refl) | exact Hheaders].
Defined.

(** ** Where the requests go *)

Lemma all_chars_app p a b :
  all_chars p (a +:+ b) = all_chars p a && all_chars p b.
Proof.
  induction a as [|c a IH]; [done|]. rewrite append_cons. simpl.
  by rewrite IH, andb_assoc.
Qed.

Lemma encode_byte_query_chars c :
  all_chars is_query_char (Url.encode_byte c) = true.
Proof. destruct c as [[] [] [] [] [] [] [] []]; reflexivity. Qed.

Lemma encode_query_chars s : all_chars is_query_char (Url.encode s) = true.
Proof.
  induction s as [|c s IH]; [done|]. simpl.
  by rewrite all_chars_app, encode_byte_query_chars, IH.
Qed.

Lemma serialize_query_chars pairs :
  all_chars is_query_char (Url.serialize pairs) = true.
Proof.
  unfold Url.serialize, Str.join.
  induction pairs as [|[k v] pairs IH]; [done|].
  assert (all_chars is_query_char (Url.encode k +:+ "=" +:+ Url.encode v) = true)
    as Hkv.
  { by rewrite !all_chars_app, !encode_query_chars. }
  destruct pairs as [|kv pairs]; [exact Hkv|].
  change (all_chars is_query_char
            ((Url.encode k +:+ "=" +:+ Url.encode v) +:+ "&" +:+
             String.concat "&"
               (map (fun kv => Url.encode kv.1 +:+ "=" +:+ Url.encode kv.2)
                  (kv :: pairs))) = true).
  rewrite all_chars_app, Hkv, all_chars_app, IH. reflexivity.
Qed.

Lemma natural_id_digits (n : nat) :
  all_digits (ToString (VNum (Z.of_nat n))) = true.
Proof.
  destruct n as [|n]; [done|]. exact (pretty_nat_digits (S n)).
Qed.

Section Targets.

Variable cfg : Config.
Variable JSON_parse : string -> option value.
Variable JSON_stringify : value -> string.
Variable JSON_stringify_indent : value -> string.
Variable remote : nat -> Request -> fetch_result.
Variable endpointIndex : string.

Lemma sends_pure {A} ids (m : M A) :
  (∀ st, (m st).2 = st) -> sends_only cfg ids m.
Proof. intros Hm st. exists []. by rewrite Hm, app_nil_r. Qed.

Lemma sends_bind {A B} ids (m : M A) (k : A -> M B) :
  sends_only cfg ids m ->
  (∀ a, sends_only cfg ids (k a)) ->
  sends_only cfg ids (bind m k).
Proof.
  intros Hm Hk st. unfold bind.
  destruct (Hm st) as (n1 & H1 & F1).
  destruct (m st) as [[a|e] st1]; simpl in *; [|by exists n1].
  destruct (Hk a st1) as (n2 & H2 & F2).
  exists (n1 ++ n2). rewrite H2, H1, <- app_assoc. split; [done|].
  by apply Forall_app.
Qed.

Lemma sends_weaken {A} (ids ids' : value -> Prop) (m : M A) :
  (∀ id, ids id -> ids' id) ->
  sends_only cfg ids m -> sends_only cfg ids' m.
Proof.
  intros Hsub Hm st. destruct (Hm st) as (new & Hs & Hall).
  exists new. split; [done|]. eapply Forall_impl; [exact Hall|].
  intros req (rest & Hurl & [Ht|[Hl|(id & tail & Hid & Htail & Hr)]]);
    exists rest; split; try done; [by left | right; by left |].
  right. right. exists id, tail. auto.
Qed.

Lemma token_request_target ids :
  request_target cfg ids (token_request cfg JSON_stringify).
Proof. exists "tokens". split; [done | by left]. Qed.

(** The requests of a call for one of the lists. *)
Lemma sends_list ids name kvs :
  name ∈ ["projects"; "products"; "bugs"] -> kvs ≠ [] ->
  sends_only cfg ids
    (callZenTao cfg JSON_parse JSON_stringify remote
       (get_descriptor name (VObj kvs))).
Proof.
  intros Hname Hkvs st.
  destruct (callZenTao_trace cfg JSON_parse JSON_stringify remote
              (get_descriptor name (VObj kvs)) st) as (new & Hs & Hall).
  exists new. split; [done|]. eapply Forall_impl; [exact Hall|].
  intros req [->|(token & url & Hurl & ->)]; [apply token_request_target|].
  simpl in Hurl. injection Hurl as <-.
  exists (name +:+ "?" +:+ Url.serialize (present_entries kvs)). split.
  - unfold buildUrl_str.
    assert (Str.startsWith name "http" = false ∧ strip_leading_slash name = name)
      as [-> ->].
    { repeat (apply elem_of_cons in Hname as [->|Hname]; [by split|]).
      by apply elem_of_nil in Hname. }
    destruct kvs as [|kv kvs]; [done|].
    cbn [truthy negb orb Object_entries length Nat.eqb].
    rewrite collect_present. simpl. by rewrite !append_assoc.
  - right. left. exists name, (Url.serialize (present_entries kvs)).
    split; [done|]. split; [apply serialize_query_chars | done].
Qed.

(** The requests of a call for a bug. *)
Lemma sends_bug (ids : value -> Prop) d id tail :
  ids id -> tail ∈ [EmptyString; "/resolve"] ->
  d_path d = VStr ("bugs/" +:+ ToString id +:+ tail) ->
  d_query d = VUndefined ->
  sends_only cfg ids (callZenTao cfg JSON_parse JSON_stringify remote d).
Proof.
  intros Hid Htail Hp Hq st.
  destruct (callZenTao_trace cfg JSON_parse JSON_stringify remote d st)
    as (new & Hs & Hall).
  exists new. split; [done|]. eapply Forall_impl; [exact Hall|].
  intros req [->|(token & url & Hurl & ->)]; [apply token_request_target|].
  rewrite Hp, Hq in Hurl. simpl in Hurl. injection Hurl as <-.
  exists ("bugs/" +:+ ToString id +:+ tail). split; [done|].
  right. right. by exists id, tail.
Qed.

Lemma sends_listProducts ids keyword limit :
  sends_only cfg ids
    (listProducts cfg JSON_parse JSON_stringify remote keyword limit).
Proof.
  unfold listProducts. apply sends_bind.
  - apply sends_list; [|done]. apply list_elem_of_further, list_elem_of_here.
  - intros e. apply sends_bind; [by apply sends_pure|].
    intros f. by apply sends_pure.
Qed.

Lemma sends_listProjectsForAccount ids keyword limit :
  sends_only cfg ids
    (listProjectsForAccount cfg JSON_parse JSON_stringify remote keyword limit).
Proof.
  unfold listProjectsForAccount. apply sends_bind.
  - apply sends_list; [apply list_elem_of_here | done].
  - intros e. apply sends_bind; [by apply sends_pure|].
    intros f. by apply sends_pure.
Qed.

Lemma sends_fetchBugsByProduct ids q :
  sends_only cfg ids (fetchBugsByProduct cfg JSON_parse JSON_stringify remote q).
Proof.
  unfold fetchBugsByProduct. apply sends_bind.
  - apply sends_list; [|done].
    do 2 apply list_elem_of_further. apply list_elem_of_here.
  - intros e. apply sends_bind; [by apply sends_pure|].
    intros f. by apply sends_pure.
Qed.

Lemma sends_getBugWithImages bugId :
  sends_only cfg (eq bugId)
    (getBugWithImages cfg JSON_parse JSON_stringify remote bugId).
Proof.
  unfold getBugWithImages. apply sends_bind.
  - apply (sends_bug _ _ bugId EmptyString); [done|apply list_elem_of_here| |done].
    simpl. by rewrite append_empty_r.
  - intros e. by apply sends_pure.
Qed.

Lemma sends_bug_detail_text bug :
  sends_only cfg (fun _ => True)
    (bug_detail_text cfg JSON_parse JSON_stringify JSON_stringify_indent remote bug).
Proof.
  unfold bug_detail_text.
  apply sends_bind; [by apply sends_pure|]. intros id.
  apply sends_bind; [by apply sends_pure|]. intros bugId.
  apply sends_bind.
  { eapply sends_weaken; [|apply sends_getBugWithImages]. done. }
  intros detail. by apply sends_pure.
Qed.

Lemma sends_getNextBug_loop fuel productId keyword status page st r st' :
  getNextBug_loop cfg JSON_parse JSON_stringify JSON_stringify_indent remote
    fuel productId keyword status page st = Some (r, st') ->
  ∃ new,
    sent st' = sent st ++ new ∧ Forall (request_target cfg (fun _ => True)) new.
Proof.
  revert page st. induction fuel as [|fuel IH]; intros page st; simpl; [done|].
  destruct (page <=? 10).
  2: { intros [= <- <-]. exists []. by rewrite app_nil_r. }
  destruct (sends_fetchBugsByProduct (fun _ => True)
              (page_query productId keyword status page) st) as (n1 & H1 & F1).
  destruct (fetchBugsByProduct _ _ _ _ _ st) as [[[bugs raw]|e] st1]; simpl in *.
  2: { intros [= <- <-]. by exists n1. }
  destruct bugs as [|bug0 bugs].
  - intros Hrest. destruct (IH _ _ Hrest) as (n2 & H2 & F2).
    exists (n1 ++ n2). rewrite H2, H1, <- app_assoc. split; [done|].
    by apply Forall_app.
  - intros Hd. destruct (sends_bug_detail_text bug0 st1) as (n2 & H2 & F2).
    injection Hd as Hd. rewrite Hd in H2. simpl in H2.
    exists (n1 ++ n2). rewrite H2, H1, <- app_assoc. split; [done|].
    by apply Forall_app.
Qed.

(** X13. The URL of every request of a tool other than [call], and of a
    resource, is the API root of the configured base URL followed by one of:
    [tokens] (the login exchange); [projects], [products] or [bugs] with a
    serialized query string, in which every argument is percent-encoded; or
    [bugs/<id>] and [bugs/<id>/resolve].  The tools [getBugDetail] and
    [markBugResolved] request no other bug than the one the caller gave, and
    the tools that take no bug and look none up request none; the id that
    [getMyBug] and [getNextBug] request comes from a response and is not
    constrained here.  The id is put into the path as text, neither checked
    nor encoded: the text of a natural number is made of digits, but the id
    [../../../admin/users?x=] goes into the URL as it is.  So the URL begins
    with the API root as a text, and what the request reaches is decided by
    the id as soon as the id holds path syntax. *)
Theorem tools_request_targets :
  (∀ forceRefresh,
     sends_only cfg (fun _ => False)
       (tool_get_token cfg JSON_parse JSON_stringify remote forceRefresh)) ∧
  (∀ keyword limit,
     sends_only cfg (fun _ => False)
       (tool_listMyProjects cfg JSON_parse JSON_stringify JSON_stringify_indent
          remote keyword limit)) ∧
  (∀ keyword limit,
     sends_only cfg (fun _ => False)
       (tool_searchProducts cfg JSON_parse JSON_stringify JSON_stringify_indent
          remote keyword limit)) ∧
  (∀ productId keyword status allStatuses limit,
     sends_only cfg (fun _ => False)
       (tool_getMyBugs cfg JSON_parse JSON_stringify JSON_stringify_indent remote
          productId keyword status allStatuses limit)) ∧
  (∀ productId activeOnly,
     sends_only cfg (fun _ => False)
       (tool_getBugStats cfg JSON_parse JSON_stringify JSON_stringify_indent remote
          productId activeOnly)) ∧
  (∀ uri,
     sends_only cfg (fun _ => False)
       (read_resource cfg JSON_parse JSON_stringify JSON_stringify_indent remote
          endpointIndex uri)) ∧
  (∀ bugId,
     sends_only cfg (eq bugId)
       (tool_getBugDetail cfg JSON_parse JSON_stringify JSON_stringify_indent
          remote bugId)) ∧
  (∀ bugId comment,
     sends_only cfg (eq bugId)
       (tool_markBugResolved cfg JSON_parse JSON_stringify JSON_stringify_indent
          remote bugId comment)) ∧
  (∀ productName keyword status allStatuses,
     sends_only cfg (fun _ => True)
       (tool_getMyBug cfg JSON_parse JSON_stringify JSON_stringify_indent remote
          productName keyword status allStatuses)) ∧
  (∀ fuel productId keyword status st r st',
     tool_getNextBug cfg JSON_parse JSON_stringify JSON_stringify_indent remote
       fuel productId keyword status st = Some (r, st') ->
     ∃ new,
       sent st' = sent st ++ new ∧
       Forall (request_target cfg (fun _ => True)) new) ∧
  (∀ n : nat, all_digits (ToString (VNum (Z.of_nat n))) = true) ∧
  (∀ st,
     assertConfig cfg = Ok tt -> truthy (cachedToken st) = true ->
     map req_url
       (sent (tool_getBugDetail cfg JSON_parse JSON_stringify JSON_stringify_indent
                remote dotted_id st).2)
     = map req_url (sent st)
       ++ [baseUrl cfg +:+ "/api.php/v1/bugs/../../../admin/users?x="]).
Proof.
  repeat apply conj.
  - intros f st. unfold tool_get_token, bind.
    pose proof (fetchToken_trace cfg JSON_parse JSON_stringify remote
                  (VBool (truthy f)) st) as Ht.
    destruct (fetchToken _ _ _ _ _ st) as [[token|e] st1]; simpl in *;
      (destruct Ht as [->|Ht];
       [exists []; by rewrite app_nil_r
       | eexists [_]; split; [exact Ht|];
         constructor; [apply token_request_target | constructor]]).
  - intros keyword limit. unfold tool_listMyProjects.
    apply sends_bind; [apply sends_listProjectsForAccount|].
    intros ps. by apply sends_pure.
  - intros keyword limit. unfold tool_searchProducts.
    apply sends_bind; [apply sends_listProducts|]. intros ps. by apply sends_pure.
  - intros productId keyword status allStatuses limit. unfold tool_getMyBugs.
    apply sends_bind; [apply sends_fetchBugsByProduct|].
    intros f. by apply sends_pure.
  - intros productId activeOnly. unfold tool_getBugStats.
    apply sends_bind; [apply sends_fetchBugsByProduct|]. intros f.
    apply sends_bind; [by apply sends_pure|]. intros a. by apply sends_pure.
  - intros uri. unfold read_resource.
    destruct (Str.eqb uri "zentao://endpoints"); [by apply sends_pure|].
    destruct (Str.eqb uri "zentao://config").
    { apply sends_bind; [by apply sends_pure | intros t; by apply sends_pure]. }
    destruct (Str.eqb uri "zentao://projects"); [|by apply sends_pure].
    apply sends_bind; [apply sends_listProjectsForAccount|].
    intros ps. by apply sends_pure.
  - intros bugId. unfold tool_getBugDetail.
    apply sends_bind; [apply sends_getBugWithImages|].
    intros b. by apply sends_pure.
  - intros bugId comment. unfold tool_markBugResolved.
    apply sends_bind.
    + apply (sends_bug _ _ bugId "/resolve");
        [done | apply list_elem_of_further, list_elem_of_here | done | done].
    + intros e. by apply sends_pure.
  - intros productName keyword status allStatuses. unfold tool_getMyBug.
    apply sends_bind.
    { unfold findProductByName. destruct (negb (truthy productName));
        [by apply sends_pure|].
      apply sends_bind; [apply sends_listProducts|].
      intros c. by apply sends_pure. }
    intros found. destruct (negb (truthy found.1)).
    { apply sends_bind; [by apply sends_pure|]. intros e. by apply sends_pure. }
    apply sends_bind; [by apply sends_pure|]. intros pid.
    apply sends_bind; [apply sends_fetchBugsByProduct|]. intros fetched.
    destruct fetched.1 as [|bug0 rest].
    { apply sends_bind; [by apply sends_pure|].
      intros pname. by apply sends_pure. }
    apply sends_bind; [by apply sends_pure|]. intros id.
    apply sends_bind; [by apply sends_pure|]. intros bugId.
    apply sends_bind.
    { eapply sends_weaken; [|apply sends_getBugWithImages]. done. }
    intros detail.
    apply sends_bind; [by apply sends_pure|]. intros pname. by apply sends_pure.
  - intros fuel productId keyword status st r st'. apply sends_getNextBug_loop.
  - apply natural_id_digits.
  - intros st Hcfg Hc. unfold tool_getBugDetail, getBugWithImages, bind.
    destruct (callZenTao_cached_request cfg JSON_parse JSON_stringify remote
                (get_descriptor ("bugs/" +:+ ToString dotted_id) VUndefined)
                ("bugs/" +:+ ToString dotted_id) st Hcfg Hc eq_refl eq_refl)
      as [Hs _].
    destruct (callZenTao _ _ _ _ _ st) as [[e|err] st1]; simpl in *;
      by rewrite Hs, map_app.
Qed.

End Targets.
